(** * sca_check.py: the rule evaluation engine, embedded and verified

    A shallow embedding of the core of [src/sca_check.py]: the pattern
    dialect ([Regex]), the rule parser and executor ([Rule], [ParsedRule]),
    the three-valued condition aggregator ([Rules]), the check record
    ([Check]) and the remediation action tree ([Solution], [SolutionActs],
    [SolutionAct]).

    Python text is modelled as [string] (characters with code points below
    256).  The host (filesystem, shell, console) and Python's [re] module
    are interfaces ([HostProbes], [RegexEngine]); the program is written
    once against them and proved for every instance.  Closed examples run
    on the small instances of [Module Lab]. *)

From Stdlib Require Import Bool Arith Lia List String Ascii ZArith.
Import ListNotations.
Local Open Scope list_scope.
Local Open Scope string_scope.

(** ** Python [str] methods used by the program *)

Module PyStr.

(** [s.startswith(p)] *)
Definition startswith (s p : string) : bool := String.prefix p s.

(** [s[n:]] *)
Fixpoint drop (n : nat) (s : string) : string :=
  match n, s with
  | O, _ => s
  | S k, String _ s' => drop k s'
  | S _, EmptyString => EmptyString
  end.

(** [str.replace(old, new)] for a non-empty [old]: occurrences are found
    from the left and do not overlap.  [skip] counts the characters of an
    occurrence that are still to be dropped. *)
Fixpoint replace_from (old new : string) (skip : nat) (s : string) : string :=
  match s with
  | EmptyString => EmptyString
  | String c s' =>
      match skip with
      | S k => replace_from old new k s'
      | O =>
          if String.prefix old s
          then new ++ replace_from old new (String.length old - 1) s'
          else String c (replace_from old new O s')
      end
  end.

Definition replace (s old new : string) : string := replace_from old new 0 s.

(** [str.split(sep)] for a non-empty [sep]: the result is never empty;
    [cur] is the piece being read. *)
Fixpoint split_from (sep : string) (skip : nat) (cur : string) (s : string)
  : list string :=
  match s with
  | EmptyString => [cur]
  | String c s' =>
      match skip with
      | S k => split_from sep k cur s'
      | O =>
          if String.prefix sep s
          then cur :: split_from sep (String.length sep - 1) EmptyString s'
          else split_from sep O (cur ++ String c EmptyString) s'
      end
  end.

Definition split (s sep : string) : list string := split_from sep 0 EmptyString s.

(** The characters [str.strip()] removes: those with [str.isspace()]
    (code points 9-13, 28-32, 133 and 160 below 256). *)
Definition isspace (c : ascii) : bool :=
  let n := nat_of_ascii c in
  (((9 <=? n) && (n <=? 13)) || ((28 <=? n) && (n <=? 32))
   || (n =? 133) || (n =? 160))%nat.

Fixpoint lstrip (s : string) : string :=
  match s with
  | EmptyString => EmptyString
  | String c s' => if isspace c then lstrip s' else s
  end.

Fixpoint rstrip (s : string) : string :=
  match s with
  | EmptyString => EmptyString
  | String c s' =>
      match rstrip s' with
      | EmptyString => if isspace c then EmptyString else String c EmptyString
      | r => String c r
      end
  end.

(** [s.strip()] *)
Definition strip (s : string) : string := rstrip (lstrip s).

End PyStr.

(** ** Python values, equality and [int()] *)

(** The values a registry function returns and an [on_response] entry
    declares: [None], booleans, integers and strings. *)
Inductive value : Type :=
| VNone
| VBool (b : bool)
| VInt (z : Z)
| VStr (s : string).

(** Python's [==] on these values: [bool] is a subclass of [int], so
    [True == 1] and [False == 0]; values of unrelated types differ. *)
Definition py_eq (a b : value) : bool :=
  match a, b with
  | VNone, VNone => true
  | VBool x, VBool y => Bool.eqb x y
  | VBool x, VInt z | VInt z, VBool x => Z.eqb (if x then 1 else 0) z
  | VInt x, VInt y => Z.eqb x y
  | VStr x, VStr y => String.eqb x y
  | _, _ => false
  end.

(** The exceptions the modelled code raises; all are subclasses of
    [Exception]. *)
Inductive error : Type :=
| FileNotFoundError
| IsADirectoryError
| NotADirectoryError
| TimeoutError
| ValueError
| TypeError
| IndexError
| KeyError
| EOFError
| ReError                   (* re.error *)
| OtherError (name : string).

(** What can unwind remediation: an [Exception], or [KeyboardInterrupt],
    which is not one. *)
Inductive exn : Type :=
| Exception (e : error)
| KeyboardInterrupt.

Module PyInt.

Definition isdigit (c : ascii) : bool :=
  let n := nat_of_ascii c in ((48 <=? n) && (n <=? 57))%nat.

Definition digit_val (c : ascii) : Z := Z.of_nat (nat_of_ascii c - 48).

(** The blanks [int()] skips around a literal (9-13, 32, 133, 160). *)
Definition int_space (c : ascii) : bool :=
  let n := nat_of_ascii c in
  (((9 <=? n) && (n <=? 13)) || (n =? 32) || (n =? 133) || (n =? 160))%nat.

Fixpoint skip_spaces (s : string) : string :=
  match s with
  | String c s' => if int_space c then skip_spaces s' else s
  | EmptyString => EmptyString
  end.

Fixpoint all_spaces (s : string) : bool :=
  match s with
  | String c s' => int_space c && all_spaces s'
  | EmptyString => true
  end.

(** Digits with single underscores between them, then blanks to the end.
    [acc] is the value read so far; [after_digit] tells whether the last
    character was a digit (an underscore must stand between two digits). *)
Fixpoint digits (acc : Z) (after_digit : bool) (s : string) : option Z :=
  match s with
  | EmptyString => if after_digit then Some acc else None
  | String c s' =>
      if isdigit c then digits (acc * 10 + digit_val c) true s'
      else if Ascii.eqb c "_" then
        if after_digit then
          match s' with
          | String d _ => if isdigit d then digits acc false s' else None
          | EmptyString => None
          end
        else None
      else if after_digit && all_spaces s then Some acc
      else None
  end.

(** [int(s)] for a string: [None] stands for [ValueError]. *)
Definition parse (s : string) : option Z :=
  match skip_spaces s with
  | String "+" r => digits 0 false r
  | String "-" r => option_map Z.opp (digits 0 false r)
  | r => digits 0 false r
  end.

End PyInt.

(** ** Results and effects *)

(** A call that may raise: [inl e] is the raised exception. *)
Definition raises (A : Type) : Type := (error + A)%type.

Definition bind_raises {A B} (m : raises A) (k : A -> raises B) : raises B :=
  match m with
  | inl e => inl e
  | inr a => k a
  end.

Notation "x <-? m ;; k" := (bind_raises m (fun x => k))
  (at level 61, m at next level, right associativity).

Definition LF : ascii := "010"%char.
Definition NL : string := String LF EmptyString.
Definition DQUOTE : string := String "034"%char EmptyString.

(** ** Python's [re] module, as an interface *)

(** One item of the list [re.findall] returns: the matched text (pattern
    with at most one group) or the tuple of its groups. *)
Inductive match_item : Type :=
| MText (s : string)
| MGroups (gs : list string).

(** [re_findall p s] is [re.findall(p, s, flags=re.I)]; [inl] when the call
    raises ([re.error] on a pattern that does not compile). *)
Class RegexEngine : Type := {
  re_findall : string -> string -> raises (list match_item)
}.

(** ** class Regex *)

Module Regex.

Record t : Type := mk { pattern : string; chains : list string }.

(** The character class [\p] expands to, written in the source as
    a triple-quoted literal. *)
Definition punctuation : string :=
  "[()*+,-.:;<=>?[]!" ++ DQUOTE ++ "'#$%&|{}]".

(** The chain of [str.replace] calls of [Regex.__init__], in order. *)
Definition translate (pattern : string) : string :=
  let s1 := PyStr.replace pattern "*" "*?" in
  let s2 := PyStr.replace s1 "\." "REGEX_DOT" in
  let s3 := PyStr.replace s2 "." "\." in
  let s4 := PyStr.replace s3 "REGEX_DOT" "." in
  let s5 := PyStr.replace s4 "\w" "[A-Za-z0-9-@_]" in
  let s6 := PyStr.replace s5 "\W" "[^A-Za-z0-9-@_]" in
  let s7 := PyStr.replace s6 "\s" "[ ]" in
  let s8 := PyStr.replace s7 "\S" "[^ ]" in
  PyStr.replace s8 "\p" punctuation.

(** [Regex.__init__] *)
Definition init (pattern : string) : t :=
  mk pattern (map PyStr.strip (PyStr.split (translate pattern) "&&")).

(** [Regex.ops] *)
Definition ops (op : string) : option (Z -> Z -> bool) :=
  if op =? "<" then Some Z.ltb
  else if op =? "<=" then Some Z.leb
  else if op =? "=<" then Some Z.leb
  else if op =? "==" then Some Z.eqb
  else if op =? "!=" then Some (fun a b => negb (Z.eqb a b))
  else if op =? "=>" then Some Z.geb
  else if op =? ">=" then Some Z.geb
  else if op =? ">" then Some Z.gtb
  else None.

(** The pattern that takes an [n:] chain apart. *)
Definition numeric_rx : string := "n:(.*)?\s+compare\s+([<>=!]*)\s+(\d+)".

(** [int(x)] of a [findall] item: a tuple is a [TypeError], text that is
    no integer literal a [ValueError]. *)
Definition int_of_item (m : match_item) : raises Z :=
  match m with
  | MText s =>
      match PyInt.parse s with
      | Some z => inr z
      | None => inl ValueError
      end
  | MGroups _ => inl TypeError
  end.

Definition int_of_text (s : string) : raises Z := int_of_item (MText s).

Section WithEngine.
Context {engine : RegexEngine}.

(** One pass of the inner loop of [Regex.check]: [inr true] when the chain
    holds on the line (the loop goes on), [inr false] when it does not
    (the [break]). *)
Definition chain_holds (chain line : string) : raises bool :=
  if PyStr.startswith chain "r:" then
    ms <-? re_findall (PyStr.drop 2 chain) line ;;
    inr (match ms with [] => false | _ => true end)
  else if PyStr.startswith chain "!r:" then
    ms <-? re_findall (PyStr.drop 3 chain) line ;;
    inr (match ms with [] => true | _ => false end)
  else if PyStr.startswith chain "n:" then
    parts <-? re_findall numeric_rx chain ;;
    match parts with
    | [] => inl IndexError
    | MGroups [pat; op; standard_value] :: _ =>
        value <-? re_findall pat line ;;
        match value with
        | [] => inr false
        | v :: _ =>
            match ops op with
            | None => inl KeyError
            | Some compare =>
                x <-? int_of_item v ;;
                y <-? int_of_text standard_value ;;
                inr (compare x y)
            end
        end
    | _ :: _ => inl ValueError
    end
  else inr (chain =? line).

(** The inner [for chain in self.chains] with its [else]: [inr true] when
    no chain breaks. *)
Fixpoint line_holds (chains : list string) (line : string) : raises bool :=
  match chains with
  | [] => inr true
  | chain :: rest =>
      ok <-? chain_holds chain line ;;
      if ok then line_holds rest line else inr false
  end.

(** The outer [for line in text.split(NL)]. *)
Fixpoint check_lines (chains : list string) (lines : list string) : raises bool :=
  match lines with
  | [] => inr false
  | line :: rest =>
      ok <-? line_holds chains line ;;
      if ok then inr true else check_lines chains rest
  end.

(** [Regex.check] *)
Definition check (rx : t) (text : string) : raises bool :=
  check_lines (chains rx) (PyStr.split text NL).

End WithEngine.

End Regex.

(** ** The host, as an interface *)

(** What [input()] yields: a typed line, Ctrl-C, or the end of input. *)
Inductive input_event : Type :=
| Typed (line : string)
| Interrupt
| EndOfInput.

(** The probes the program runs against the machine.  Paths are the text
    handed to [Path]; only the shell and the console change the host. *)
Class HostProbes (Host : Type) : Type := {
  path_exists : Host -> string -> bool;          (* Path.exists() *)
  path_is_dir : Host -> string -> bool;          (* Path.is_dir() *)
  path_is_file : Host -> string -> bool;         (* Path.is_file() *)
  listdir : Host -> string -> raises (list string);
  read_text : Host -> string -> raises string;   (* open(p, "r").read() *)
  popen_read : string -> Host -> string * Host;  (* popen(cmd).read() *)
  input : Host -> input_event * Host             (* input(...) *)
}.

(** [Path(s)] and [path / name]. *)
Definition Path (s : string) : string := s.
Definition path_join (path name : string) : string := path ++ "/" ++ name.

(** ** What the program prints *)

Inductive Status : Type := PASSED | FAILED | NOT_APPLICABLE.

(** The lines written to the terminal, without their formatting. *)
Inductive event : Type :=
| RuleParseError (check_id : Z) (rule : string) (e : error)
| RuleCheckError (check_id : Z) (tag : string) (rule : string) (e : error)
| Verdict (s : Status) (id : Z) (title : string)
| Prompt (title : option string) (prompt : string)
| Accepted
| Declined
| Blank
| Rechecking
| RecheckFailed (retry : nat)
| MaxTries                   (* "Reached Maximum tries to apply the solution" *)
| ApplyStart
| ApplyEnd
| ActOutput (text : string). (* whatever a registry function prints *)

(** ** Computations with state, exceptions and output *)

Definition Eff (S A : Type) : Type := S -> (exn + A) * S * list event.

Definition ret {S A} (a : A) : Eff S A := fun s => (inr a, s, []).

Definition raise {S A} (e : exn) : Eff S A := fun s => (inl e, s, []).

Definition bind {S A B} (m : Eff S A) (k : A -> Eff S B) : Eff S B :=
  fun s =>
    match m s with
    | (inl e, s1, out1) => (inl e, s1, out1)
    | (inr a, s1, out1) =>
        let '(r, s2, out2) := k a s1 in (r, s2, (out1 ++ out2)%list)
    end.

Definition print {S} (ev : event) : Eff S unit := fun s => (inr tt, s, [ev]).

Notation "x <- m ;; k" := (bind m (fun x => k))
  (at level 61, m at next level, right associativity).
Notation "m ;; k" := (bind m (fun _ => k))
  (at level 61, right associativity).

(** ** Console and shell helpers *)

Section Helpers.
Context {Host : Type} {probes : HostProbes Host}.

(** [s.endswith(suffix)] *)
Definition endswith (s suffix : string) : bool :=
  (String.length suffix <=? String.length s)%nat
  && (PyStr.drop (String.length s - String.length suffix) s =? suffix).

(** The line [execute] hands to the shell: [_cmd]. *)
Definition shell_line (cmd : string) (timeout : option string) : string :=
  match timeout with
  | Some secs =>
      "timeout " ++ secs ++ " " ++ cmd ++ " 2>&1; [ $? -eq 124 ] && echo "
      ++ DQUOTE ++ "BASH_TIMEOUT" ++ DQUOTE ++ ";"
  | None => cmd ++ " 2>&1"
  end.

(** [execute(cmd, ask=False, timeout=...)], the form rules use: the shell
    line is run, a timeout marker at the end of the output raises. *)
Definition execute (cmd : string) (timeout : option string) (h : Host)
  : raises string * Host :=
  let '(output, h') := popen_read (shell_line cmd timeout) h in
  if endswith output ("BASH_TIMEOUT" ++ NL) then (inl TimeoutError, h')
  else (inr output, h').

(** [confirm(title, prompt)]: an empty line, "yes", "y" or "Y" accepts;
    Ctrl-C shows the decline and is raised again; the end of input raises
    [EOFError] out of [input]. *)
Definition confirm (title : option string) (prompt : string)
  : Eff Host bool :=
  fun h =>
    let '(i, h') := input h in
    match i with
    | Typed input_res =>
        let res := (input_res =? "") || (input_res =? "yes")
                   || (input_res =? "y") || (input_res =? "Y") in
        (inr res, h', [Prompt title prompt; if res then Accepted else Declined])
    | Interrupt => (inl KeyboardInterrupt, h', [Prompt title prompt; Declined])
    | EndOfInput => (inl (Exception EOFError), h', [Prompt title prompt])
    end.

End Helpers.

(** ** class ParsedRule *)

Module ParsedRule.

(** The static method a parsed rule is bound to, with its keyword
    arguments. *)
Inductive bound : Type :=
| check_file_exists (path : string)
| check_regex_against_file (path : string) (regex : Regex.t)
| check_regex_against_command (cmd : string) (regex : Regex.t)
| check_dir_exists (path : string)
| check_dir_contains (path : string) (file_pattern : Regex.t)
| check_regex_against_dir (path : string) (file_pattern regex : Regex.t)
| check_process_exists (process_name : string).

Record t : Type := mk { tag : string; function : bound; revert : bool }.

End ParsedRule.

(** ** class Rule *)

Module Rule.

Import ParsedRule.

Record t : Type := mk {
  check_id : Z;
  rule : string;
  parsed : option ParsedRule.t
}.

(** [Rule.parse]: [inl ValueError] is the raised [ValueError]. *)
Definition parse (rule : string) : raises ParsedRule.t :=
  let rule := map PyStr.strip (PyStr.split rule "->") in
  let to_check := hd EmptyString rule in
  let '(revert, to_check) :=
    if PyStr.startswith to_check "not "
    then (true, PyStr.drop 4 to_check)
    else (false, to_check) in
  if PyStr.startswith to_check "f:" then
    match rule with
    | [_] =>
        inr (ParsedRule.mk "FileExistence"
               (check_file_exists (Path (PyStr.drop 2 to_check))) revert)
    | [_; p1] =>
        inr (ParsedRule.mk "RegexAgainstFile"
               (check_regex_against_file (Path (PyStr.drop 2 to_check))
                  (Regex.init p1)) revert)
    | _ => inl ValueError
    end
  else if PyStr.startswith to_check "c:" then
    match rule with
    | [_; p1] =>
        inr (ParsedRule.mk "RegexAgainstCommand"
               (check_regex_against_command (PyStr.drop 2 to_check)
                  (Regex.init p1)) revert)
    | _ => inl ValueError
    end
  else if PyStr.startswith to_check "d:" then
    match rule with
    | [_] =>
        inr (ParsedRule.mk "DirExistence"
               (check_dir_exists (Path (PyStr.drop 2 to_check))) revert)
    | [_; p1] =>
        inr (ParsedRule.mk "DirContains"
               (check_dir_contains (Path (PyStr.drop 2 to_check))
                  (Regex.init p1)) revert)
    | [_; p1; p2] =>
        inr (ParsedRule.mk "RegexAgainstDir"
               (check_regex_against_dir (Path (PyStr.drop 2 to_check))
                  (Regex.init p1) (Regex.init p2)) revert)
    | _ => inl ValueError
    end
  else if PyStr.startswith to_check "p:" then
    match rule with
    | [_] =>
        inr (ParsedRule.mk "CheckProcessExists"
               (check_process_exists (PyStr.drop 2 to_check)) revert)
    | _ => inl ValueError
    end
  else if PyStr.startswith to_check "r:" then inl ValueError
  else inl ValueError.

(** [Rule.__init__]: a rule that does not parse is kept with
    [parsed = None] and a warning is printed. *)
Definition init (check_id : Z) (rule : string) : t * list event :=
  match parse rule with
  | inr p => (mk check_id rule (Some p), [])
  | inl e => (mk check_id rule None, [RuleParseError check_id rule e])
  end.

Section WithHost.
Context {Host : Type} {probes : HostProbes Host} {engine : RegexEngine}.

Definition file_exists (path : string) (h : Host) : raises bool :=
  if path_exists h path then
    if path_is_dir h path then inl IsADirectoryError else inr true
  else inr false.

Definition regex_against_file (path : string) (regex : Regex.t) (h : Host)
  : raises bool :=
  if negb (path_exists h path) then inl FileNotFoundError
  else if path_is_dir h path then inl IsADirectoryError
  else text <-? read_text h path ;; Regex.check regex text.

Definition dir_exists (path : string) (h : Host) : raises bool :=
  if path_exists h path then
    if negb (path_is_dir h path) then inl NotADirectoryError else inr true
  else inr false.

(** The loop of [check_dir_contains] over [listdir(path)]. *)
Fixpoint dir_contains_loop (path : string) (file_pattern : Regex.t)
  (names : list string) (h : Host) : raises bool :=
  match names with
  | [] => inr false
  | file_name :: rest =>
      if path_is_file h (path_join path file_name) then
        found <-? Regex.check file_pattern file_name ;;
        if found then inr true else dir_contains_loop path file_pattern rest h
      else dir_contains_loop path file_pattern rest h
  end.

Definition dir_contains (path : string) (file_pattern : Regex.t) (h : Host)
  : raises bool :=
  if negb (path_exists h path) then inl FileNotFoundError
  else if negb (path_is_dir h path) then inl NotADirectoryError
  else names <-? listdir h path ;; dir_contains_loop path file_pattern names h.

(** The loop of [check_regex_against_dir]. *)
Fixpoint regex_against_dir_loop (path : string) (file_pattern regex : Regex.t)
  (names : list string) (h : Host) : raises bool :=
  match names with
  | [] => inr false
  | file_name :: rest =>
      if path_is_file h (path_join path file_name) then
        named <-? Regex.check file_pattern file_name ;;
        if named then
          text <-? read_text h (path_join path file_name) ;;
          found <-? Regex.check regex text ;;
          if found then inr true
          else regex_against_dir_loop path file_pattern regex rest h
        else regex_against_dir_loop path file_pattern regex rest h
      else regex_against_dir_loop path file_pattern regex rest h
  end.

Definition regex_against_dir (path : string) (file_pattern regex : Regex.t)
  (h : Host) : raises bool :=
  if negb (path_exists h path) then inl FileNotFoundError
  else if negb (path_is_dir h path) then inl NotADirectoryError
  else
    names <-? listdir h path ;;
    regex_against_dir_loop path file_pattern regex names h.

Definition regex_against_command (cmd : string) (regex : Regex.t) (h : Host)
  : raises bool * Host :=
  let '(out, h') := execute cmd (Some "10") h in
  (text <-? out ;; Regex.check regex text, h').

(** The command of [check_process_exists]. *)
Definition pgrep (process_name : string) : string :=
  "pgrep -x " ++ DQUOTE ++ process_name ++ DQUOTE
  ++ " > /dev/null && echo " ++ DQUOTE ++ "running" ++ DQUOTE.

Definition process_exists (process_name : string) (h : Host)
  : raises bool * Host :=
  let '(out, h') := execute (pgrep process_name) None h in
  (text <-? out ;; inr (text =? "running" ++ NL), h').

(** [self.parsed.function( **self.parsed.kwargs )] *)
Definition call (f : ParsedRule.bound) (h : Host) : raises bool * Host :=
  match f with
  | check_file_exists path => (file_exists path h, h)
  | check_regex_against_file path regex => (regex_against_file path regex h, h)
  | check_regex_against_command cmd regex => regex_against_command cmd regex h
  | check_dir_exists path => (dir_exists path h, h)
  | check_dir_contains path file_pattern => (dir_contains path file_pattern h, h)
  | check_regex_against_dir path file_pattern regex =>
      (regex_against_dir path file_pattern regex h, h)
  | check_process_exists process_name => process_exists process_name h
  end.

(** [Rule.check]: [Some true], [Some false], or [None] (the function
    falls off its [except] block) for not applicable. *)
Definition check (r : t) (h : Host) : option bool * Host * list event :=
  match parsed r with
  | None => (Some true, h, [])
  | Some p =>
      match call (function p) h with
      | (inr res, h') => (Some (if revert p then negb res else res), h', [])
      | (inl e, h') => (None, h', [RuleCheckError (check_id r) (tag p) (rule r) e])
      end
  end.

End WithHost.

End Rule.

(** ** class Rules *)

Module Rules.

Record t : Type := mk { condition : string; parsed : list Rule.t }.

(** [parsed_rule.parsed is not None and parsed_rule.parsed.tag in
    ("FileExistence", "DirExistence", "DirContains")] *)
Definition is_existence (r : Rule.t) : bool :=
  match Rule.parsed r with
  | Some p =>
      (ParsedRule.tag p =? "FileExistence")
      || (ParsedRule.tag p =? "DirExistence")
      || (ParsedRule.tag p =? "DirContains")
  | None => false
  end.

(** The loop of [Rules.__init__] with its two lists; [out] collects the
    parse warnings. *)
Fixpoint init_loop (check_id : Z) (rules : list string)
  (existence_check_rules non_existence_check_rules : list Rule.t)
  (out : list event) : list Rule.t * list Rule.t * list event :=
  match rules with
  | [] => (existence_check_rules, non_existence_check_rules, out)
  | rule :: rest =>
      let '(parsed_rule, warn) := Rule.init check_id rule in
      if is_existence parsed_rule
      then init_loop check_id rest
             (existence_check_rules ++ [parsed_rule])%list
             non_existence_check_rules (out ++ warn)%list
      else init_loop check_id rest existence_check_rules
             (non_existence_check_rules ++ [parsed_rule])%list
             (out ++ warn)%list
  end.

(** [Rules.__init__] *)
Definition init (check_id : Z) (condition : string) (rules : list string)
  : t * list event :=
  let '(existence_check_rules, non_existence_check_rules, out) :=
    init_loop check_id rules [] [] [] in
  (mk condition (existence_check_rules ++ non_existence_check_rules)%list, out).

(** The three loops of [Rules.check], over any way [check_rule] of
    evaluating one rule in a state [S]. *)
Section Loops.
Context {S R : Type} (check_rule : R -> S -> option bool * S * list event).

Fixpoint all_loop (not_applicable : bool) (parsed : list R) (s : S)
  : option bool * S * list event :=
  match parsed with
  | [] => (if not_applicable then None else Some true, s, [])
  | rule :: rest =>
      let '(res, s1, out1) := check_rule rule s in
      match res with
      | Some false => (Some false, s1, out1)
      | _ =>
          let na := match res with None => true | _ => not_applicable end in
          let '(r, s2, out2) := all_loop na rest s1 in
          (r, s2, (out1 ++ out2)%list)
      end
  end.

Fixpoint any_loop (not_applicable : bool) (parsed : list R) (s : S)
  : option bool * S * list event :=
  match parsed with
  | [] => (if not_applicable then None else Some false, s, [])
  | rule :: rest =>
      let '(res, s1, out1) := check_rule rule s in
      match res with
      | Some true => (Some true, s1, out1)
      | _ =>
          let na := match res with None => true | _ => not_applicable end in
          let '(r, s2, out2) := any_loop na rest s1 in
          (r, s2, (out1 ++ out2)%list)
      end
  end.

Fixpoint none_loop (not_applicable : bool) (parsed : list R) (s : S)
  : option bool * S * list event :=
  match parsed with
  | [] => (if not_applicable then None else Some true, s, [])
  | rule :: rest =>
      let '(res, s1, out1) := check_rule rule s in
      match res with
      | Some true => (Some false, s1, out1)
      | _ =>
          let na := match res with None => true | _ => not_applicable end in
          let '(r, s2, out2) := none_loop na rest s1 in
          (r, s2, (out1 ++ out2)%list)
      end
  end.

Definition check_with (condition : string) (parsed : list R)
  : Eff S (option bool) :=
  fun s =>
    if condition =? "all" then
      let '(r, s', out) := all_loop false parsed s in (inr r, s', out)
    else if condition =? "any" then
      let '(r, s', out) := any_loop false parsed s in (inr r, s', out)
    else if condition =? "none" then
      let '(r, s', out) := none_loop false parsed s in (inr r, s', out)
    else (inl (Exception ValueError), s, []).

End Loops.

(** [Rules.check] *)
Definition check {Host : Type} {probes : HostProbes Host} {engine : RegexEngine}
  (rules : t) : Eff Host (option bool) :=
  check_with Rule.check (condition rules) (parsed rules).

End Rules.

(** ** classes Solution, SolutionActs, SolutionAct *)

Module Solution.

Section WithHost.
Context {Host : Type}.

(** What calling a registry function with its bound arguments does: it
    returns a value or raises, may change the host and may print. *)
Definition callable : Type := Host -> (exn + value) * Host * list string.

(** A [SolutionAct]: the function's name, the decorated call, and the
    [on_response] list of a value with its nested [SolutionActs]. *)
#[warnings="-register-all"]
Inductive SolutionAct : Type :=
| Act (function : string) (callable_func : callable)
      (on_response : list (value * list SolutionAct)).

Definition SolutionActs : Type := list SolutionAct.

(** [callable_func()], its prints kept apart from the program's own. *)
Definition run_callable (f : callable) : Eff Host value :=
  fun h => let '(r, h', texts) := f h in (r, h', map ActOutput texts).

(** [SolutionAct.apply], with [SolutionActs.apply] (the inner [acts]
    loop) for each response whose value equals the returned one. *)
Fixpoint apply_act (a : SolutionAct) : Eff Host unit :=
  match a with
  | Act _ callable_func on_response =>
      resp <- run_callable callable_func ;;
      (fix responses (rs : list (value * list SolutionAct)) : Eff Host unit :=
         match rs with
         | [] => ret tt
         | (v, nested) :: rest =>
             (if py_eq resp v
              then (fix acts (l : list SolutionAct) : Eff Host unit :=
                      match l with
                      | [] => ret tt
                      | action :: more => apply_act action ;; acts more
                      end) nested
              else ret tt) ;;
             responses rest
         end) on_response
  end.

(** [SolutionActs.apply] *)
Fixpoint apply_acts (parsed_acts : SolutionActs) : Eff Host unit :=
  match parsed_acts with
  | [] => ret tt
  | action :: more => apply_act action ;; apply_acts more
  end.

(** Truth value of a Python value. *)
Definition truthy (v : value) : bool :=
  match v with
  | VNone => false
  | VBool b => b
  | VInt z => negb (Z.eqb z 0)
  | VStr s => negb (s =? "")
  end.

Record t : Type := mk { recheck : value; acts : option SolutionActs }.

Definition available (s : t) : bool :=
  match acts s with Some _ => true | None => false end.

(** [Solution.apply]: nothing is done when the solution is not
    available. *)
Definition apply (s : t) : Eff Host unit :=
  if negb (available s) then ret tt
  else
    match acts s with
    | Some parsed_acts => apply_acts parsed_acts
    | None => ret tt
    end.

End WithHost.

Arguments callable : clear implicits.
Arguments SolutionAct : clear implicits.
Arguments SolutionActs : clear implicits.
Arguments t : clear implicits.

End Solution.

(** ** class Check *)

Module Check.

Section WithHost.
Context {Host : Type} {probes : HostProbes Host} {engine : RegexEngine}.

(** A check object.  [addr] is the object's identity (the class lists
    hold references to the objects); the descriptive fields other than
    [id] and [title] play no part in evaluation and are left out. *)
Record t : Type := mk {
  addr : nat;
  id : Z;
  title : string;
  rules : Rules.t;
  solution : Solution.t Host
}.

(** The mutable state of a run: the host, the class attributes [passed],
    [failed] and [not_applicable] (lists of references), and the [status]
    attribute of every check object. *)
Record state : Type := mkState {
  host : Host;
  passed : list nat;
  failed : list nat;
  not_applicable : list nat;
  status : nat -> option Status
}.

(** Runs a host computation inside a run. *)
Definition on_host {A} (m : Eff Host A) : Eff state A :=
  fun st =>
    let '(r, h', out) := m (host st) in
    (r, mkState h' (passed st) (failed st) (not_applicable st) (status st), out).

(** [self.status = s] followed by the [append] to the class list. *)
Definition record (a : nat) (s : Status) : Eff state unit :=
  fun st =>
    let status' := fun x => if Nat.eqb x a then Some s else status st x in
    let st' :=
      match s with
      | PASSED =>
          mkState (host st) (passed st ++ [a])%list (failed st)
            (not_applicable st) status'
      | FAILED =>
          mkState (host st) (passed st) (failed st ++ [a])%list
            (not_applicable st) status'
      | NOT_APPLICABLE =>
          mkState (host st) (passed st) (failed st)
            (not_applicable st ++ [a])%list status'
      end in
    (inr tt, st', []).

(** [Check.check] *)
Definition check (c : t) : Eff state (option bool) :=
  res <- on_host (Rules.check (rules c)) ;;
  match res with
  | Some true =>
      record (addr c) PASSED ;; print (Verdict PASSED (id c) (title c)) ;; ret res
  | Some false =>
      record (addr c) FAILED ;; print (Verdict FAILED (id c) (title c)) ;; ret res
  | None =>
      record (addr c) NOT_APPLICABLE ;;
      print (Verdict NOT_APPLICABLE (id c) (title c)) ;; ret res
  end.

(** [range(self.solution.recheck and 5 or 1)] *)
Definition retries (c : t) : list nat :=
  seq 0 (if Solution.truthy (Solution.recheck (solution c)) then 5 else 1).

(** The body of the [for retry in ...] loop of [apply_solution], iterated
    over the remaining values of [retry]; leaving the function is the end
    of the iteration. *)
Fixpoint apply_loop (c : t) (remaining : list nat) : Eff state unit :=
  match remaining with
  | [] => ret tt
  | retry :: rest =>
      if Nat.eqb retry 4 then print MaxTries
      else
        go_on <-
          (if Nat.ltb 0 retry then
             print Rechecking ;;
             res <- check c ;;
             match res with
             | Some true => ret false
             | _ =>
                 print (RecheckFailed retry) ;;
                 again <- on_host (confirm None "Retry?") ;;
                 ret again
             end
           else ret true) ;;
        if go_on : bool then
          print ApplyStart ;;
          on_host (Solution.apply (solution c)) ;;
          print ApplyEnd ;;
          apply_loop c rest
        else ret tt
  end.

(** [Check.apply_solution] *)
Definition apply_solution (c : t) : Eff state unit :=
  print Blank ;;
  ok <- on_host (confirm (Some (title c)) "Apply?") ;;
  if ok : bool then apply_loop c (retries c) else ret tt.

(** The first part of [Check.check_all]: every check is evaluated in turn
    (after the user agreed to start). *)
Fixpoint check_each (checks : list t) : Eff state unit :=
  match checks with
  | [] => ret tt
  | c :: rest => check c ;; check_each rest
  end.

End WithHost.

Arguments t : clear implicits.
Arguments state : clear implicits.

End Check.

(** ** More of Python's [str], for the text utilities *)

From Stdlib Require Import DecimalString DecimalNat.

Module PyText.

Definition TAB : string := String "009"%char EmptyString.

(** [sep.join(parts)] *)
Fixpoint join (sep : string) (parts : list string) : string :=
  match parts with
  | [] => EmptyString
  | x :: rest =>
      match rest with
      | [] => x
      | _ :: _ => x ++ sep ++ join sep rest
      end
  end.

(** [s.count(sub)] for a non-empty [sub]: the occurrences from the left
    that do not overlap; [skip] counts the characters of an occurrence
    still to be passed. *)
Fixpoint count_from (sub : string) (skip : nat) (s : string) : nat :=
  match s with
  | EmptyString => 0
  | String _ s' =>
      match skip with
      | S k => count_from sub k s'
      | O =>
          if String.prefix sub s
          then S (count_from sub (String.length sub - 1) s')
          else count_from sub O s'
      end
  end.

Definition count (s sub : string) : nat := count_from sub 0 s.

(** [s * n] *)
Fixpoint times (s : string) (n : nat) : string :=
  match n with
  | O => EmptyString
  | S k => s ++ times s k
  end.

(** [str(n)] of a natural number. *)
Definition str_of_nat (n : nat) : string := NilEmpty.string_of_uint (Nat.to_uint n).

(** [l[i]] with Python's negative indices; [None] stands for
    [IndexError]. *)
Definition index {A} (l : list A) (i : Z) : option A :=
  if (i <? 0)%Z then
    if (i <? - Z.of_nat (List.length l))%Z then None
    else nth_error l (Z.to_nat (Z.of_nat (List.length l) + i))
  else nth_error l (Z.to_nat i).

End PyText.

(** ** The text utilities: wrap_text and indent *)

Module Text.

Import PyText.

(** The inner function [wrap_line] of [wrap_text], as one pass over the
    line.  [_add_lf] tells that the pass is in the first loop of a
    recursive call, which copies a word up to its first blank and puts a
    line feed in its place; otherwise the pass is in the second loop,
    [i] being the index of [enumerate], which hands the rest of the line
    to a recursive call at [i >= characters_per_line - 1]. *)
Fixpoint wrap_line (characters_per_line : Z) (_add_lf : bool) (i : nat)
  (line : string) : string :=
  match line with
  | EmptyString => EmptyString
  | String character rest =>
      if _add_lf || (characters_per_line - 1 <=? Z.of_nat i)%Z then
        if PyStr.isspace character
        then NL ++ wrap_line characters_per_line false 0 rest
        else String character (wrap_line characters_per_line true i rest)
      else String character (wrap_line characters_per_line false (S i) rest)
  end.

(** The loop that collects [prepend]: the blanks a line starts with. *)
Fixpoint prepend_of (text_line : string) : string :=
  match text_line with
  | String ch rest =>
      if PyStr.isspace ch then String ch (prepend_of rest) else EmptyString
  | EmptyString => EmptyString
  end.

(** [wrap_text(text, characters_per_line)] *)
Definition wrap_text (text : string) (characters_per_line : Z) : string :=
  join NL
    (map (fun text_line =>
            let prepend := prepend_of text_line in
            prepend
            ++ join (NL ++ prepend)
                 (PyStr.split
                    (wrap_line characters_per_line false 0 (PyStr.strip text_line))
                    NL))
       (PyStr.split text NL)).

(** What the pattern of [indent] makes of one line: the first group, the
    longest run of units of indentation (four spaces, or a tab) the line
    starts with, and the second group, the rest of the line.  The first
    group is empty where [re] reports it as [None]. *)
Fixpoint groups (line : string) : string * string :=
  match line with
  | EmptyString => (EmptyString, EmptyString)
  | String c rest =>
      if Ascii.eqb c "009"%char then
        let '(group_indention, group_text) := groups rest in
        (String c group_indention, group_text)
      else
        match rest with
        | String c2 (String c3 (String c4 rest4)) =>
            if Ascii.eqb c " "%char && Ascii.eqb c2 " "%char
               && Ascii.eqb c3 " "%char && Ascii.eqb c4 " "%char
            then
              let '(group_indention, group_text) := groups rest4 in
              ("    " ++ group_indention, group_text)
            else (EmptyString, line)
        | _ => (EmptyString, line)
        end
  end.

(** [indent(text, level, spaces)].  With [re.M] the pattern, whose last
    group takes the rest of a line, has one match for each line of
    [text.split(NL)]. *)
Definition indent (text : string) (level : Z) (spaces : bool) : string :=
  let ch := if spaces then times " " 4 else TAB in
  join NL
    (map (fun line =>
            let '(group_indention, group_text) := groups line in
            let curr_level :=
              Z.of_nat (count group_indention "    " + count group_indention TAB) in
            let new_level := (curr_level + level)%Z in
            if (new_level <=? 0)%Z then group_text
            else times ch (Z.to_nat new_level) ++ group_text)
       (PyStr.split text NL)).

End Text.

(** ** The registry functions of a solution *)

(** The parts of [pathlib] that [backup] uses, on the text of a path. *)
Class PathLib : Type := {
  path_parent : string -> string;           (* Path.parent *)
  path_name : string -> string;             (* Path.name *)
  path_div : string -> string -> string     (* parent / name *)
}.

Module Registry.

Section WithHost.
Context {Host : Type} {probes : HostProbes Host} {pathlib : PathLib}.

(** [execute(cmd, ask, timeout)], in full: with [ask] the user is asked
    first and a decline returns the empty string; the output is printed
    after the run. *)
Definition execute (cmd : string) (ask : bool) (timeout : option string)
  : Eff Host string :=
  declined <-
    (if ask then
       ok <- confirm None (cmd ++ NL ++ "Execute?") ;; ret (negb ok)
     else ret false) ;;
  if declined : bool then ret EmptyString
  else
    output <-
      (fun h =>
         let '(output, h') := popen_read (shell_line cmd timeout) h in
         (inr output, h', [])) ;;
    if endswith output ("BASH_TIMEOUT" ++ NL)
    then raise (Exception TimeoutError)
    else (if ask then print (ActOutput output) else ret tt) ;; ret output.

Definition dashes : string := PyText.times "-" 12.

(** [note(title, prompt)] *)
Definition note (title : option string) (prompt : string) : Eff Host unit :=
  match title with
  | Some title => print (ActOutput (dashes ++ " " ++ title ++ " " ++ dashes))
  | None => ret tt
  end ;;
  print (ActOutput prompt).

(** The lines [i) choice] of the menu of [choose]. *)
Fixpoint enumerate (i : nat) (choices : list string) : list string :=
  match choices with
  | [] => []
  | choice :: rest =>
      (PyText.str_of_nat i ++ ") " ++ choice) :: enumerate (S i) rest
  end.

Definition aborted : string := dashes ++ " ABORTED " ++ dashes.

(** [choose(title, prompt, *choices)]: the typed line is read by [int];
    whatever [int] or the indexing raises is passed over, Ctrl-C is
    raised again after the report. *)
Definition choose (title : option string) (prompt : string) (choices : list string)
  : Eff Host value :=
  fun h =>
    let title := match title with None => "Choose" | Some title => title end in
    let menu :=
      [ActOutput (dashes ++ " " ++ title ++ " " ++ dashes); ActOutput prompt;
       ActOutput (PyText.join NL (enumerate 0 choices)); ActOutput EmptyString] in
    let '(i, h') := input h in
    match i with
    | Typed typed =>
        match PyInt.parse typed with
        | Some chosen_id =>
            let chosen_item :=
              match PyText.index choices chosen_id with
              | Some item => item
              | None => "None"
              end in
            (inr (VInt chosen_id), h',
             (menu ++ [ActOutput ("Selected: " ++ chosen_item)])%list)
        | None => (inr VNone, h', (menu ++ [ActOutput aborted])%list)
        end
    | Interrupt => (inl KeyboardInterrupt, h', (menu ++ [ActOutput aborted])%list)
    | EndOfInput => (inr VNone, h', (menu ++ [ActOutput aborted])%list)
    end.

(** [Path.exists()] as a step of a computation. *)
Definition exists_ (path : string) : Eff Host bool :=
  fun h => (inr (path_exists h path), h, []).

(** The command of [backup]. *)
Definition cp (path backup_path : string) : string :=
  "cp -r " ++ path ++ " " ++ backup_path.

(** The loop [for i in range(1000)] of [backup], over the remaining
    values of [i], with what follows it. *)
Fixpoint backup_loop (path parent name : string) (range : list nat)
  (backup_path : string) : Eff Host unit :=
  match range with
  | [] =>
      print (ActOutput "All Backup Paths already exist (overwriting on main backup)") ;;
      execute (cp path (path_div parent (name ++ ".backup"))) true None ;;
      ret tt
  | i :: rest =>
      taken <- exists_ backup_path ;;
      if taken : bool then
        print (ActOutput ("Backup " ++ path ++ " already exists")) ;;
        backup_loop path parent name rest
          (path_div parent (name ++ ".backup." ++ PyText.str_of_nat i))
      else
        execute (cp path backup_path) true None ;;
        ret tt
  end.

(** [backup(path)] *)
Definition backup (path : string) : Eff Host unit :=
  let path := Path path in
  present <- exists_ path ;;
  if negb present then ret tt
  else
    note None ("Backing up " ++ path) ;;
    let parent := path_parent path in
    let name := path_name path in
    backup_loop path parent name (seq 0 1000) (path_div parent (name ++ ".backup")).

End WithHost.

End Registry.

(** ** The dictionaries of a policy file *)

(** The policy and the solutions as [yaml] loads them.  A field of type
    [option] is a key that may be missing ([None]). *)
Module Policy.

#[warnings="-register-all"]
Inductive act : Type :=
| ActDict (function : option string)
    (args : option (list value))
    (kwargs : option (list (string * value)))
    (on_response : option (list (option value * option (list act)))).

(** A solution; the empty dictionary has neither key. *)
Record solution : Type := mkSolution {
  recheck : option value;
  acts : option (list act)
}.

Record check : Type := mkCheck {
  id : Z;
  title : string;
  condition : string;
  rules : list string;
  solution_of : option solution        (* check.get("solution") *)
}.

Record content : Type := mkContent {
  policy_id : string;
  policy_name : string;
  policy_description : string;
  requirements_condition : string;
  requirements_rules : list string;
  checks : list check
}.

End Policy.

(** ** What the rest of the program prints *)

(** The lines of the evaluation engine ([event]) and those of loading and
    of the report. *)
Inductive line : Type :=
| Ev (e : event)
| SolutionParseError (check_id : Z) (e : error)
| LoadingRules
| PolicyBanner (id name description : string)
| RequirementsNotSatisfied
| LoadedAllRules
| CheckReport
| Count (s : Status) (n : nat)
| BlankLine
| Solutions (n : nat).

Definition Run (S A : Type) : Type := S -> (exn + A) * S * list line.

Definition lift {S A} (m : Eff S A) : Run S A :=
  fun s => let '(r, s', out) := m s in (r, s', map Ev out).

Definition retR {S A} (a : A) : Run S A := fun s => (inr a, s, []).

Definition bindR {S A B} (m : Run S A) (k : A -> Run S B) : Run S B :=
  fun s =>
    match m s with
    | (inl e, s1, out1) => (inl e, s1, out1)
    | (inr a, s1, out1) =>
        let '(r, s2, out2) := k a s1 in (r, s2, (out1 ++ out2)%list)
    end.

Definition say {S} (l : list line) : Run S unit := fun s => (inr tt, s, l).

Notation "x <~ m ;; k" := (bindR m (fun x => k))
  (at level 61, m at next level, right associativity).
Notation "m ~;; k" := (bindR m (fun _ => k))
  (at level 61, right associativity).

(** ** Building the objects: the constructors of the solution classes *)

Module Build.

Section WithHost.
Context {Host : Type}.

(** What [globals()] holds under a name: something that is not callable,
    or a callable, which bound to arguments is a call of the registry. *)
Inductive global : Type :=
| NotCallable
| Function (f : list value -> list (string * value) -> Solution.callable Host).

Context (globals : string -> option global).

(** [dict.setdefault(key, default)] on the keyword arguments. *)
Definition setdefault (kwargs : list (string * value)) (key : string)
  (default : value) : list (string * value) :=
  if existsb (fun kv => fst kv =? key) kwargs then kwargs
  else (kwargs ++ [(key, default)])%list.

(** [SolutionAct.decorate]: a missing name is a [KeyError], a name that
    is not callable a [ValueError]. *)
Definition decorate (function : string) (args : list value)
  (kwargs : list (string * value)) : raises (Solution.callable Host) :=
  match globals function with
  | None => inl KeyError
  | Some NotCallable => inl ValueError
  | Some (Function f) => inr (f args kwargs)
  end.

Definition get {A} (field : option A) (default : A) : A :=
  match field with Some a => a | None => default end.

(** [SolutionAct.__init__], with [SolutionActs.__init__] (the inner
    [each] loop) for the acts of every response. *)
Fixpoint SolutionAct_init (act : Policy.act) : raises (Solution.SolutionAct Host) :=
  match act with
  | Policy.ActDict function args kwargs on_response =>
      match function with
      | None => inl KeyError
      | Some function =>
          let args := get args [] in
          let kwargs := get kwargs [] in
          let kwargs :=
            if function =? "execute" then setdefault kwargs "ask" (VBool true)
            else kwargs in
          callable_func <-? decorate function args kwargs ;;
          on_response <-?
            match on_response with
            | None => inr []
            | Some on_response =>
                (fix responses (rs : list (option value * option (list Policy.act)))
                   : raises (list (value * list (Solution.SolutionAct Host))) :=
                   match rs with
                   | [] => inr []
                   | (value, acts) :: rest =>
                       match value with
                       | None => inl KeyError
                       | Some value =>
                           match acts with
                           | None => inl KeyError
                           | Some acts =>
                               parsed_acts <-?
                                 (fix each (l : list Policy.act)
                                    : raises (list (Solution.SolutionAct Host)) :=
                                    match l with
                                    | [] => inr []
                                    | a :: more =>
                                        x <-? SolutionAct_init a ;;
                                        xs <-? each more ;;
                                        inr (x :: xs)
                                    end) acts ;;
                               others <-? responses rest ;;
                               inr ((value, parsed_acts) :: others)
                           end
                       end
                   end) on_response
            end ;;
          inr (Solution.Act function callable_func on_response)
      end
  end.

(** [SolutionActs.__init__] *)
Fixpoint SolutionActs_init (acts : list Policy.act)
  : raises (Solution.SolutionActs Host) :=
  match acts with
  | [] => inr []
  | a :: more =>
      x <-? SolutionAct_init a ;;
      xs <-? SolutionActs_init more ;;
      inr (x :: xs)
  end.

(** Is the dictionary empty (and so false)? *)
Definition empty (solution : Policy.solution) : bool :=
  match Policy.recheck solution, Policy.acts solution with
  | None, None => true
  | _, _ => false
  end.

(** [Solution.__init__]: whatever the building of the acts raises is
    reported and leaves the solution without acts. *)
Definition Solution_init (check_id : Z) (solution : option Policy.solution)
  : Solution.t Host * list line :=
  match solution with
  | None => (Solution.mk VNone None, [])
  | Some solution =>
      if empty solution then (Solution.mk VNone None, [])
      else
        let recheck := get (Policy.recheck solution) (VBool true) in
        match
          match Policy.acts solution with
          | None => inl KeyError
          | Some acts => SolutionActs_init acts
          end
        with
        | inr acts => (Solution.mk recheck (Some acts), [])
        | inl e => (Solution.mk recheck None, [SolutionParseError check_id e])
        end
  end.

(** [Check.__init__], for the object at address [addr]. *)
Definition Check_init (addr : nat) (check : Policy.check)
  : Check.t Host * list line :=
  let '(rules, warnings) :=
    Rules.init (Policy.id check) (Policy.condition check) (Policy.rules check) in
  let '(solution, report) :=
    Solution_init (Policy.id check) (Policy.solution_of check) in
  (Check.mk addr (Policy.id check) (Policy.title check) rules solution,
   (map Ev warnings ++ report)%list).

End WithHost.

Arguments global : clear implicits.

End Build.

(** ** Loading the policy and running the checks *)

Module Loader.

Section WithHost.
Context {Host : Type} {probes : HostProbes Host} {engine : RegexEngine}.
Context (globals : string -> option (Build.global Host)).

(** The loop of [load] over the solutions file, for a check without a
    solution of its own. *)
Fixpoint from_file (solutions : list (Z * option Policy.solution)) (id : Z)
  (solution : option Policy.solution) : option Policy.solution :=
  match solutions with
  | [] => solution
  | (item_id, item_solution) :: rest =>
      from_file rest id (if Z.eqb item_id id then item_solution else solution)
  end.

(** [white_listed_ids and check["id"] not in white_listed_ids] *)
Definition left_out (white_listed_ids : option (list Z)) (id : Z) : bool :=
  match white_listed_ids with
  | None | Some [] => false
  | Some ids => negb (existsb (Z.eqb id) ids)
  end.

(** The loop [for check in content["checks"]] of [load]; [checks] is the
    class list, a new object gets the next address. *)
Fixpoint load_loop (solutions : list (Z * option Policy.solution))
  (white_listed_ids : option (list Z)) (todo : list Policy.check)
  (checks : list (Check.t Host)) : list (Check.t Host) * list line :=
  match todo with
  | [] => (checks, [])
  | check :: rest =>
      if left_out white_listed_ids (Policy.id check)
      then load_loop solutions white_listed_ids rest checks
      else
        let solution :=
          match Policy.solution_of check with
          | None => from_file solutions (Policy.id check) None
          | Some solution => Some solution
          end in
        let '(object, out1) :=
          Build.Check_init globals (List.length checks)
            (Policy.mkCheck (Policy.id check) (Policy.title check)
               (Policy.condition check) (Policy.rules check) solution) in
        let '(all, out2) :=
          load_loop solutions white_listed_ids rest (checks ++ [object])%list in
        (all, (out1 ++ out2)%list)
  end.

(** [Check.load], from the two files as [_load] read them; [None] is the
    [exit()] on unmet requirements. *)
Definition load (content : Policy.content)
  (solutions : list (Z * option Policy.solution))
  (white_listed_ids : option (list Z))
  : Run Host (option (list (Check.t Host))) :=
  say [LoadingRules;
       PolicyBanner (Policy.policy_id content) (Policy.policy_name content)
         (Text.wrap_text (Policy.policy_description content) 130)] ~;;
  let '(requirements, warnings) :=
    Rules.init 0 (Policy.requirements_condition content)
      (Policy.requirements_rules content) in
  say (map Ev warnings) ~;;
  met <~ lift (Rules.check requirements) ;;
  match met with
  | Some true =>
      let '(checks, out) :=
        load_loop solutions white_listed_ids (Policy.checks content) [] in
      say out ~;; say [LoadedAllRules] ~;; retR (Some checks)
  | _ => say [RequirementsNotSatisfied] ~;; retR None
  end.

(** The third argument of the command line, as [__main__] reads it:
    whatever goes wrong leaves no white list. *)
Fixpoint ints (pieces : list string) : option (list Z) :=
  match pieces with
  | [] => Some []
  | i :: rest =>
      match PyInt.parse i, ints rest with
      | Some z, Some zs => Some (z :: zs)
      | _, _ => None
      end
  end.

Definition whitelisted_checks (argv : list string) : option (list Z) :=
  match nth_error argv 3 with
  | None => None
  | Some ids => ints (PyStr.split ids ",")
  end.

(** The checks of the class list [failed], the applying of the solutions
    one after the other, and [Check.check_all].  [object] gives the check
    object at an address. *)
Fixpoint apply_each (available_solutions : list (Check.t Host))
  : Eff (Check.state Host) unit :=
  match available_solutions with
  | [] => ret tt
  | solution :: rest => Check.apply_solution solution ;; apply_each rest
  end.

Definition available_solutions (object : nat -> Check.t Host) (st : Check.state Host)
  : list (Check.t Host) :=
  filter (fun ins => Solution.available (Check.solution ins))
    (map object (Check.failed st)).

Definition report (st : Check.state Host) (solutions : nat) : list line :=
  [CheckReport;
   Count PASSED (List.length (Check.passed st));
   Count FAILED (List.length (Check.failed st));
   Count NOT_APPLICABLE (List.length (Check.not_applicable st));
   BlankLine;
   Solutions solutions].

Definition check_all (object : nat -> Check.t Host) (checks : list (Check.t Host))
  : Run (Check.state Host) unit :=
  start <~ lift (Check.on_host (confirm (Some "Checking") "Start Checks?")) ;;
  if negb start then retR tt
  else
    lift (Check.check_each checks) ~;;
    (fun st =>
       let available_solutions := available_solutions object st in
       (say (report st (List.length available_solutions)) ~;;
        match available_solutions with
        | [] => retR tt
        | _ :: _ =>
            go <~ lift (Check.on_host
                          (confirm (Some "Solutions") "Apply Available Solutions?")) ;;
            if go : bool then lift (apply_each available_solutions) else retR tt
        end) st).

End WithHost.

End Loader.

(** ** A fragment of Python's [re], for closed examples

    [PyRe.findall p s] is [re.findall(p, s, flags=re.I)] for two kinds of
    pattern: a sequence of literal characters, backslash-escaped
    punctuation and dots; and the fixed pattern [Regex.numeric_rx].  Any
    other pattern is reported as outside the fragment. *)

Module PyRe.

Inductive atom : Type :=
| Lit (c : ascii)    (* this character, in either case *)
| AnyChar.           (* [.]: any character but a line feed *)

Definition one_of (set : string) (c : ascii) : bool :=
  existsb (Ascii.eqb c) (list_ascii_of_string set).

(** The characters with a meaning of their own in a pattern. *)
Definition special : ascii -> bool := one_of ".^$*+?{}[]\|()".

(** ASCII punctuation: a backslash before one of these is that character. *)
Definition punct (c : ascii) : bool :=
  let n := nat_of_ascii c in
  (((33 <=? n) && (n <=? 47)) || ((58 <=? n) && (n <=? 64))
   || ((91 <=? n) && (n <=? 96)) || ((123 <=? n) && (n <=? 126)))%nat.

Fixpoint compile (p : string) : option (list atom) :=
  match p with
  | EmptyString => Some []
  | String c rest =>
      if Ascii.eqb c "\" then
        match rest with
        | String d rest' =>
            if punct d then option_map (cons (Lit d)) (compile rest') else None
        | EmptyString => None
        end
      else if Ascii.eqb c "." then option_map (cons AnyChar) (compile rest)
      else if special c then None
      else option_map (cons (Lit c)) (compile rest)
  end.

(** Case folding under [re.I] for code points below 256. *)
Definition lower (c : ascii) : ascii :=
  let n := nat_of_ascii c in
  if (((65 <=? n) && (n <=? 90))
      || ((192 <=? n) && (n <=? 222) && negb (n =? 215)))%nat
  then ascii_of_nat (n + 32) else c.

Definition atom_matches (a : atom) (c : ascii) : bool :=
  match a with
  | Lit x => Ascii.eqb (lower x) (lower c)
  | AnyChar => negb (Ascii.eqb c LF)
  end.

(** Do the atoms match a prefix of [s]? *)
Fixpoint matches_here (atoms : list atom) (s : string) : bool :=
  match atoms, s with
  | [], _ => true
  | a :: atoms', String c s' => atom_matches a c && matches_here atoms' s'
  | _ :: _, EmptyString => false
  end.

Fixpoint take (n : nat) (s : string) : string :=
  match n, s with
  | S k, String c s' => String c (take k s')
  | _, _ => EmptyString
  end.

(** The matches from the left, none overlapping another; [skip] counts
    the characters of the last match still to be passed. *)
Fixpoint scan (atoms : list atom) (skip : nat) (s : string) : list string :=
  match s with
  | EmptyString =>
      match skip, atoms with
      | O, [] => [EmptyString]
      | _, _ => []
      end
  | String _ s' =>
      match skip with
      | S k => scan atoms k s'
      | O =>
          if matches_here atoms s
          then take (List.length atoms) s :: scan atoms (List.length atoms - 1) s'
          else scan atoms O s'
      end
  end.

(** *** The pattern [Regex.numeric_rx] *)

Fixpoint span (f : ascii -> bool) (s : string) : string * string :=
  match s with
  | String c s' =>
      if f c then let '(a, b) := span f s' in (String c a, b)
      else (EmptyString, s)
  | EmptyString => (EmptyString, EmptyString)
  end.

Definition lower_string (s : string) : string :=
  string_of_list_ascii (map lower (list_ascii_of_string s)).

(** The part of the pattern after the first group, at the start of [s]:
    blanks, [compare], blanks, operator characters, blanks, digits.  It
    yields the operator, the digits and what follows the match.  With no
    operator character the blanks after [compare] serve both runs of
    blanks, so there must be two. *)
Definition tail (s : string) : option (string * string * string) :=
  let '(w1, s1) := span PyStr.isspace s in
  if w1 =? "" then None
  else if negb (lower_string (take 7 s1) =? "compare") then None
  else
    let s2 := PyStr.drop 7 s1 in
    let '(w2, s3) := span PyStr.isspace s2 in
    if w2 =? "" then None
    else
      let '(op, s4) := span (one_of "<>=!") s3 in
      if op =? "" then
        let '(d, s5) := span PyInt.isdigit s3 in
        if (String.length w2 <? 2)%nat || (d =? "") then None
        else Some (EmptyString, d, s5)
      else
        let '(w3, s5) := span PyStr.isspace s4 in
        let '(d, s6) := span PyInt.isdigit s5 in
        if (w3 =? "") || (d =? "") then None else Some (op, d, s6).

(** The greedy first group: the longest group, of at most [len] characters,
    after which [tail] matches. *)
Fixpoint longest_group (rest : string) (len : nat)
  : option (string * string * string * string) :=
  match tail (PyStr.drop len rest) with
  | Some (op, d, after) => Some (take len rest, op, d, after)
  | None =>
      match len with
      | O => None
      | S k => longest_group rest k
      end
  end.

(** A match starting at the first character of [s]. *)
Definition numeric_here (s : string)
  : option (string * string * string * string) :=
  match s with
  | String c (String colon rest) =>
      if Ascii.eqb (lower c) "n" && Ascii.eqb colon ":" then
        longest_group rest
          (String.length (fst (span (fun x => negb (Ascii.eqb x LF)) rest)))
      else None
  | _ => None
  end.

Fixpoint numeric_scan (fuel : nat) (s : string) : list match_item :=
  match fuel with
  | O => []
  | S fuel' =>
      match numeric_here s with
      | Some (group, op, d, after) =>
          MGroups [group; op; d] :: numeric_scan fuel' after
      | None =>
          match s with
          | String _ s' => numeric_scan fuel' s'
          | EmptyString => []
          end
      end
  end.

Definition unsupported : error :=
  OtherError "pattern outside the modelled fragment of re".

Definition findall (p s : string) : raises (list match_item) :=
  if p =? Regex.numeric_rx then inr (numeric_scan (S (String.length s)) s)
  else
    match compile p with
    | Some atoms => inr (map MText (scan atoms 0 s))
    | None => inl unsupported
    end.

#[export] Instance engine : RegexEngine := {| re_findall := findall |}.

End PyRe.

(** ** A small machine, for closed examples *)

Module Lab.

Inductive node : Type :=
| File (text : string)
| Dir (names : list string).

(** Files by path, the output of each shell line, and the lines the user
    will type. *)
Record machine : Type := mkMachine {
  fs : list (string * node);
  shell : list (string * string);
  console : list input_event
}.

Fixpoint assoc {A} (k : string) (l : list (string * A)) : option A :=
  match l with
  | [] => None
  | (k', v) :: rest => if k' =? k then Some v else assoc k rest
  end.

#[export] Instance probes : HostProbes machine := {|
  path_exists h p := match assoc p (fs h) with Some _ => true | None => false end;
  path_is_dir h p := match assoc p (fs h) with Some (Dir _) => true | _ => false end;
  path_is_file h p := match assoc p (fs h) with Some (File _) => true | _ => false end;
  listdir h p :=
    match assoc p (fs h) with
    | Some (Dir names) => inr names
    | Some (File _) => inl NotADirectoryError
    | None => inl FileNotFoundError
    end;
  read_text h p :=
    match assoc p (fs h) with
    | Some (File text) => inr text
    | Some (Dir _) => inl IsADirectoryError
    | None => inl FileNotFoundError
    end;
  popen_read cmd h :=
    (match assoc cmd (shell h) with Some out => out | None => EmptyString end, h);
  input h :=
    match console h with
    | [] => (EndOfInput, h)
    | i :: rest => (i, mkMachine (fs h) (shell h) rest)
    end
|}.

(** A registry call that writes a file and returns [None], as
    [execute] of a shell line that creates it would. *)
Definition write_file (path text : string) : Solution.callable machine :=
  fun h =>
    (inr VNone, mkMachine ((path, File text) :: fs h) (shell h) (console h), []).

(** A registry call that changes nothing and returns [v]. *)
Definition answer (v : value) : Solution.callable machine :=
  fun h => (inr v, h, []).

(** A registry call that prints [text] and returns [v]. *)
Definition say (text : string) (v : value) : Solution.callable machine :=
  fun h => (inr v, h, [text]).

Definition start (h : machine) : Check.state machine :=
  Check.mkState h [] [] [] (fun _ => None).

(** A check on the presence of a file, with a solution of one act. *)
Definition motd_check (act : Solution.callable machine) (recheck : value)
  : Check.t machine :=
  Check.mk 0 1%Z "motd is present"
    (fst (Rules.init 1%Z "all" ["f:/etc/motd"]))
    (Solution.mk recheck (Some [Solution.Act "execute" act []])).

End Lab.


(** ** Paths on the small machine *)

Module LabPath.

(** The text before the last slash and the text after it. *)
Fixpoint at_last_slash (s : string) : option (string * string) :=
  match s with
  | EmptyString => None
  | String c rest =>
      match at_last_slash rest with
      | Some (dir, name) => Some (String c dir, name)
      | None => if Ascii.eqb c "/" then Some (EmptyString, rest) else None
      end
  end.

(** [pathlib] on the paths of the examples: absolute or relative, with no
    slash at the end and no dots to resolve. *)
#[export] Instance pathlib : PathLib := {|
  path_parent p :=
    match at_last_slash p with
    | Some (EmptyString, _) => "/"
    | Some (dir, _) => dir
    | None => "."
    end;
  path_name p :=
    match at_last_slash p with
    | Some (_, name) => name
    | None => p
    end;
  path_div parent name :=
    if parent =? "/" then "/" ++ name
    else if parent =? "." then name
    else parent ++ "/" ++ name
|}.

End LabPath.

(** * The vocabulary of the properties *)

(** ** The condition aggregator *)

(** The aggregator in the words of the specification, on a list of
    outcomes ([None] is not applicable). *)
Module Claimed.

Definition is_true (o : option bool) : bool :=
  match o with Some true => true | _ => false end.
Definition is_false (o : option bool) : bool :=
  match o with Some false => true | _ => false end.
Definition is_na (o : option bool) : bool :=
  match o with None => true | _ => false end.

Definition all (outcomes : list (option bool)) : option bool :=
  if existsb is_false outcomes then Some false
  else if existsb is_na outcomes then None
  else Some true.

Definition any (outcomes : list (option bool)) : option bool :=
  if existsb is_true outcomes then Some true
  else if existsb is_na outcomes then None
  else Some false.

Definition none (outcomes : list (option bool)) : option bool :=
  if existsb is_true outcomes then Some false
  else if existsb is_na outcomes then None
  else Some true.

End Claimed.

(** A rule that is its own outcome: evaluating it yields the outcome and
    touches nothing. *)
Definition yield {S : Type} (o : option bool) (s : S)
  : option bool * S * list event := (o, s, []).

Section Sequential.
Context {S R : Type} (check_rule : R -> S -> option bool * S * list event).

(** The outcomes of the rules when each is evaluated after the other. *)
Fixpoint outcomes (rules : list R) (s : S) : list (option bool) :=
  match rules with
  | [] => []
  | rule :: rest =>
      let '(o, s1, _) := check_rule rule s in o :: outcomes rest s1
  end.

(** The state reached and the lines printed when the rules are evaluated
    one after the other, in the order of the list. *)
Fixpoint visit (rules : list R) (s : S) : S * list event :=
  match rules with
  | [] => (s, [])
  | rule :: rest =>
      let '(_, s1, out1) := check_rule rule s in
      let '(s2, out2) := visit rest s1 in (s2, (out1 ++ out2)%list)
  end.

End Sequential.

(** ** Rules *)

(** The kind of a rule, read off the parse. *)
Definition is_existence_tag (tag : string) : bool :=
  (tag =? "FileExistence") || (tag =? "DirExistence") || (tag =? "DirContains").

(** The pieces of a rule string, the text before the first arrow with a
    leading [not ] taken off, and whether it was there. *)
Definition pieces (rule : string) : list string :=
  map PyStr.strip (PyStr.split rule "->").

Definition negated (rule : string) : bool :=
  PyStr.startswith (hd EmptyString (pieces rule)) "not ".

Definition selected (rule : string) : string :=
  if negated rule then PyStr.drop 4 (hd EmptyString (pieces rule))
  else hd EmptyString (pieces rule).

(** ** The status partitions *)

(** The status an outcome stands for, and the class list that holds the
    checks of a status. *)
Definition verdict (res : option bool) : Status :=
  match res with
  | Some true => PASSED
  | Some false => FAILED
  | None => NOT_APPLICABLE
  end.

Definition partition {Host : Type} (v : Status) (st : Check.state Host) : list nat :=
  match v with
  | PASSED => Check.passed st
  | FAILED => Check.failed st
  | NOT_APPLICABLE => Check.not_applicable st
  end.

(** How many times a check is listed, over the three partitions. *)
Definition memberships {Host : Type} (st : Check.state Host) (a : nat) : nat :=
  count_occ Nat.eq_dec
    (Check.passed st ++ Check.failed st ++ Check.not_applicable st)%list a.

(** ** The action tree and the retry loop *)

Section Triggered.
Context {Host : Type}.

(** The nested sequences, run one after the other by the function that
    runs the top-level sequence of a solution. *)
Fixpoint run_each (seqs : list (Solution.SolutionActs Host)) : Eff Host unit :=
  match seqs with
  | [] => ret tt
  | parsed_acts :: rest => Solution.apply_acts parsed_acts ;; run_each rest
  end.

(** The sequences an act hands on to, for a returned value: those of the
    entries whose declared value is equal to it, in the order declared. *)
Definition triggered (resp : value)
  (on_response : list (value * Solution.SolutionActs Host))
  : list (Solution.SolutionActs Host) :=
  map snd (filter (fun entry => py_eq resp (fst entry)) on_response).

End Triggered.

Definition is_act_output (ev : event) : bool :=
  match ev with ActOutput _ => true | _ => false end.

Definition is_rule_error (ev : event) : bool :=
  match ev with RuleCheckError _ _ _ _ => true | _ => false end.

(** Output that carries no news of the loop: what the acts print and the
    reports of rule errors. *)
Definition inert (ev : event) : bool := is_act_output ev || is_rule_error ev.

Definition prints_inert {Host A : Type} (m : Eff Host A) : Prop :=
  forall h, Forall (fun ev => inert ev = true) (snd (m h)).

Definition is_apply_start (ev : event) : bool :=
  match ev with ApplyStart => true | _ => false end.

Definition is_verdict (ev : event) : bool :=
  match ev with Verdict _ _ _ => true | _ => false end.

(** The runs of the action tree, and the evaluations, in an output. *)
Definition attempts (out : list event) : nat :=
  List.length (filter is_apply_start out).

Definition evaluations (out : list event) : nat :=
  List.length (filter is_verdict out).

Definition ends_with (ev : event) (out : list event) : Prop :=
  exists before, out = (before ++ [ev])%list.






(** ** Matching *)

(** A line satisfies the chains when every chain holds on it; it is
    rejected when the loop over the chains breaks without an error. *)
Definition satisfies {engine : RegexEngine} (chains : list string) (line : string) : Prop :=
  Forall (fun chain => Regex.chain_holds chain line = inr true) chains.

Definition rejected {engine : RegexEngine} (chains : list string) (line : string) : Prop :=
  Regex.line_holds chains line = inr false.

(** No chain raises on any line of the list. *)
Definition never_raises {engine : RegexEngine} (chains : list string) (lines : list string) : Prop :=
  forall line chain, In line lines -> In chain chains ->
                     exists b, Regex.chain_holds chain line = inr b.

(** A chain of none of the forms [r:], [!r:], [n:]. *)
Definition literal (chain : string) : bool :=
  negb (PyStr.startswith chain "r:") && negb (PyStr.startswith chain "!r:")
  && negb (PyStr.startswith chain "n:").

(** Does the character occur in the string? *)
Fixpoint occurs (a : ascii) (s : string) : bool :=
  match s with
  | EmptyString => false
  | String c s' => Ascii.eqb a c || occurs a s'
  end.


(** ** Patterns of ordinary characters and dots *)

(** What a pattern is made of here: an ordinary character, a dot written
    bare, or a dot written with a backslash. *)
Inductive token : Type :=
| Plain (c : ascii)
| Dot
| EscapedDot.






(** What a token reads: an ordinary character reads itself in either
    case; a bare dot reads a dot; an escaped dot reads anything but a
    line feed. *)
Definition reads_one (t : token) (d : ascii) : Prop :=
  match t with
  | Plain c => PyRe.lower c = PyRe.lower d
  | Dot => d = "."%char
  | EscapedDot => d <> LF
  end.

(** The tokens are found in the line: some stretch of it is read by them,
    one character a token. *)
Definition found (toks : list token) (line : string) : Prop :=
  exists before mid after,
    line = before ++ mid ++ after
    /\ Forall2 reads_one toks (list_ascii_of_string mid).

(** ** Scenarios on the small machine *)

Module Scenario.

Import Lab.

(** A machine with no file, whose user types the given lines. *)
Definition bare (answers : list input_event) : machine := mkMachine [] [] answers.

(** A machine where [/etc] is a directory. *)
Definition with_etc : machine := mkMachine [("/etc", Dir ["motd"])] [] [].

(** The check with an act that creates the file, and with one that does
    nothing. *)
Definition fixing : Check.t machine :=
  motd_check (write_file "/etc/motd" "welcome") (VBool true).

Definition useless : Check.t machine :=
  motd_check (answer VNone) (VBool true).

(** An act that needs four runs to create the file: each of the first
    three leaves a mark for the next. *)
Definition slow_fix : Solution.callable machine :=
  fun h =>
    if path_exists h "/run/3" then write_file "/etc/motd" "welcome" h
    else if path_exists h "/run/2" then write_file "/run/3" "" h
    else if path_exists h "/run/1" then write_file "/run/2" "" h
    else write_file "/run/1" "" h.

Definition slow : Check.t machine := motd_check slow_fix (VBool true).

(** The first pass over the checks, then the remediation of [c]. *)
Definition evaluate_then_remedy (c : Check.t machine) (answers : list input_event)
  : (exn + unit) * Check.state machine * list event :=
  let '(_, st1, _) :=
    Check.check_each (engine := PyRe.engine) [c] (start (bare answers)) in
  Check.apply_solution (engine := PyRe.engine) c st1.

Definition is_max_tries (ev : event) : bool :=
  match ev with MaxTries => true | _ => false end.


(** An action tree three levels deep. *)
Definition tree : Solution.SolutionAct machine :=
  Solution.Act "confirm" (say "top" (VStr "yes"))
    [ (VStr "yes",
       [ Solution.Act "choose" (say "middle" (VInt 1))
           [ (VInt 0, [Solution.Act "note" (say "zero" VNone) []]);
             (VInt 1, [Solution.Act "note" (say "one" VNone) []]);
             (VBool true, [Solution.Act "note" (say "true" VNone) []]) ] ]);
      (VStr "Yes", [Solution.Act "note" (say "capital" VNone) []]);
      (VStr "no", [Solution.Act "note" (say "no" VNone) []]) ].

End Scenario.

(** ** Texts *)

(** The characters of a text that are no blanks, in their order. *)
Fixpoint solid (s : string) : string :=
  match s with
  | EmptyString => EmptyString
  | String c s' => if PyStr.isspace c then solid s' else String c (solid s')
  end.



(** The unit of indentation [indent] writes. *)
Definition unit_of (spaces : bool) : string :=
  if spaces then PyText.times " " 4 else PyText.TAB.

(** The level of a line: the count of [indent]. *)
Definition level_of (line : string) : nat :=
  PyText.count (fst (Text.groups line)) "    "
  + PyText.count (fst (Text.groups line)) PyText.TAB.

(** One line of [indent]. *)
Definition indent_line (level : Z) (spaces : bool) (line : string) : string :=
  let '(group_indention, group_text) := Text.groups line in
  let curr_level :=
    Z.of_nat (PyText.count group_indention "    "
              + PyText.count group_indention PyText.TAB) in
  let new_level := (curr_level + level)%Z in
  if (new_level <=? 0)%Z then group_text
  else PyText.times (unit_of spaces) (Z.to_nat new_level) ++ group_text.

(** ** The registry functions *)

(** The answers a prompt takes for a yes. *)
Definition accepts (input_res : string) : bool :=
  (input_res =? "") || (input_res =? "yes") || (input_res =? "y")
  || (input_res =? "Y").

(** What [execute] makes of a result of the shell. *)
Definition shell_result (r : raises string) : exn + string :=
  match r with
  | inl e => inl (Exception e)
  | inr output => inr output
  end.

(** Lines printed one after the other. *)
Fixpoint prints {S : Type} (evs : list event) : Eff S unit :=
  match evs with
  | [] => ret tt
  | ev :: rest => print ev ;; prints rest
  end.

Section Backups.
Context {pathlib : PathLib}.

(** A name beside the path: [parent / (name + suffix)]. *)
Definition beside (path suffix : string) : string :=
  path_div (path_parent path) (path_name path ++ suffix).

Definition numbered (path : string) (i : nat) : string :=
  beside path (".backup." ++ PyText.str_of_nat i).

(** The names [backup] tries, in order: the main backup, then the
    numbered ones from 0 to 998. *)
Definition candidates (path : string) : list string :=
  beside path ".backup" :: map (numbered path) (seq 0 999).

(** The names the loop of [backup] looks at, from a value of [i] on. *)
Definition tried (path : string) (range : list nat) (backup_path : string)
  : list string :=
  firstn (List.length range) (backup_path :: map (numbered path) range).

Definition already_exists (path : string) : event :=
  ActOutput ("Backup " ++ path ++ " already exists").

Definition all_taken : event :=
  ActOutput "All Backup Paths already exist (overwriting on main backup)".

End Backups.

(** ** Building a solution *)

Section Buildable.
Context {Host : Type} (globals : string -> option (Build.global Host)).

(** Does the name stand for a callable? *)
Definition is_callable (function : string) : bool :=
  match globals function with
  | Some (Build.Function _) => true
  | _ => false
  end.

(** An act that can be built: its function is named and is a callable of
    the registry, and every response has its value and its acts, each of
    which can be built. *)
Fixpoint buildable (act : Policy.act) : bool :=
  match act with
  | Policy.ActDict function _ _ on_response =>
      match function with
      | Some function => is_callable function
      | None => false
      end
      && match on_response with
         | None => true
         | Some responses =>
             forallb (fun response =>
                        match response with
                        | (Some _, Some acts) => forallb buildable acts
                        | _ => false
                        end) responses
         end
  end.

(** The loop over the responses of an act, in [SolutionAct.__init__]. *)
Fixpoint responses_init (responses : list (option value * option (list Policy.act)))
  : raises (list (value * Solution.SolutionActs Host)) :=
  match responses with
  | [] => inr []
  | (value, acts) :: rest =>
      match value, acts with
      | Some value, Some acts =>
          parsed_acts <-? Build.SolutionActs_init globals acts ;;
          others <-? responses_init rest ;;
          inr ((value, parsed_acts) :: others)
      | _, _ => inl KeyError
      end
  end.

End Buildable.

(** ** Loading *)

(** The solution the solutions file has for a check: that of the last
    entry with the id of the check. *)
Definition last_in_file (solutions : list (Z * option Policy.solution)) (id : Z)
  : option Policy.solution :=
  match find (fun item => Z.eqb (fst item) id) (rev solutions) with
  | Some (_, solution) => solution
  | None => None
  end.

(** The solution a check is built with: its own, and for want of one
    that of the solutions file. *)
Definition solution_for (solutions : list (Z * option Policy.solution))
  (check : Policy.check) : option Policy.solution :=
  match Policy.solution_of check with
  | Some solution => Some solution
  | None => last_in_file solutions (Policy.id check)
  end.

(** A state in which nothing was evaluated. *)
Definition fresh {Host : Type} (h : Host) : Check.state Host :=
  Check.mkState h [] [] [] (fun _ => None).

(** ** The run of the checks *)

(** Every line a computation prints has the property, from whatever
    state it starts. *)
Definition emits {S A : Type} (P : event -> Prop) (m : Eff S A) : Prop :=
  forall s, Forall P (snd (m s)).


(** A line that is no prompt with a title. *)
Definition untitled (ev : event) : Prop :=
  match ev with
  | Prompt (Some _) _ => False
  | _ => True
  end.

(** The number of entries of the three class lists. *)
Definition listed {Host : Type} (st : Check.state Host) : nat :=
  List.length (Check.passed st) + List.length (Check.failed st)
  + List.length (Check.not_applicable st).

Definition same_status (v w : Status) : bool :=
  match v, w with
  | PASSED, PASSED | FAILED, FAILED | NOT_APPLICABLE, NOT_APPLICABLE => true
  | _, _ => false
  end.

(** ** More on rules *)

(** Does the predicate of a rule run the shell? *)
Definition runs_shell (f : ParsedRule.bound) : bool :=
  match f with
  | ParsedRule.check_regex_against_command _ _ => true
  | ParsedRule.check_process_exists _ => true
  | _ => false
  end.

(** A rule that does not run the shell: one that did not parse, or one
    on a file or a directory. *)
Definition shell_free (r : Rule.t) : Prop :=
  match Rule.parsed r with
  | Some p => runs_shell (ParsedRule.function p) = false
  | None => True
  end.

(** The same parse, with the flag of negation set. *)
Definition reverted (p : raises ParsedRule.t) : raises ParsedRule.t :=
  match p with
  | inr p => inr (ParsedRule.mk (ParsedRule.tag p) (ParsedRule.function p) true)
  | inl e => inl e
  end.

(** The first character of a text is no blank. *)
Definition starts_solid (s : string) : Prop :=
  match s with
  | String c _ => PyStr.isspace c = false
  | EmptyString => True
  end.

(** The negation of an outcome: not applicable stays so. *)
Definition negate (o : option bool) : option bool := option_map negb o.

(** Does the rule string fail to parse? *)
Definition unparsed (rule : string) : bool :=
  match Rule.parse rule with
  | inl _ => true
  | inr _ => false
  end.

(** An entry of a directory that the loop of [check_dir_contains] passes
    over: no regular file, or one whose name the pattern rejects. *)
Definition passed_over {Host : Type} {probes : HostProbes Host} {engine : RegexEngine}
  (h : Host) (path : string) (file_pattern : Regex.t) (file_name : string) : Prop :=
  path_is_file h (path_join path file_name) = false
  \/ Regex.check file_pattern file_name = inr false.


(** [Rule.parse], from the pieces of the rule. *)
Definition select (revert : bool) (to_check : string) (rule : list string)
  : raises ParsedRule.t :=
  if PyStr.startswith to_check "f:" then
    match rule with
    | [_] =>
        inr (ParsedRule.mk "FileExistence"
               (ParsedRule.check_file_exists (Path (PyStr.drop 2 to_check))) revert)
    | [_; p1] =>
        inr (ParsedRule.mk "RegexAgainstFile"
               (ParsedRule.check_regex_against_file (Path (PyStr.drop 2 to_check))
                  (Regex.init p1)) revert)
    | _ => inl ValueError
    end
  else if PyStr.startswith to_check "c:" then
    match rule with
    | [_; p1] =>
        inr (ParsedRule.mk "RegexAgainstCommand"
               (ParsedRule.check_regex_against_command (PyStr.drop 2 to_check)
                  (Regex.init p1)) revert)
    | _ => inl ValueError
    end
  else if PyStr.startswith to_check "d:" then
    match rule with
    | [_] =>
        inr (ParsedRule.mk "DirExistence"
               (ParsedRule.check_dir_exists (Path (PyStr.drop 2 to_check))) revert)
    | [_; p1] =>
        inr (ParsedRule.mk "DirContains"
               (ParsedRule.check_dir_contains (Path (PyStr.drop 2 to_check))
                  (Regex.init p1)) revert)
    | [_; p1; p2] =>
        inr (ParsedRule.mk "RegexAgainstDir"
               (ParsedRule.check_regex_against_dir (Path (PyStr.drop 2 to_check))
                  (Regex.init p1) (Regex.init p2)) revert)
    | _ => inl ValueError
    end
  else if PyStr.startswith to_check "p:" then
    match rule with
    | [_] =>
        inr (ParsedRule.mk "CheckProcessExists"
               (ParsedRule.check_process_exists (PyStr.drop 2 to_check)) revert)
    | _ => inl ValueError
    end
  else if PyStr.startswith to_check "r:" then inl ValueError
  else inl ValueError.

(** An entry of a directory that the loop of [check_regex_against_dir]
    passes over: one that [check_dir_contains] passes over, or a regular
    file with a matching name whose content the pattern rejects. *)
Definition read_over {Host : Type} {probes : HostProbes Host} {engine : RegexEngine}
  (h : Host) (path : string) (file_pattern regex : Regex.t) (file_name : string)
  : Prop :=
  passed_over h path file_pattern file_name
  \/ (path_is_file h (path_join path file_name) = true
      /\ Regex.check file_pattern file_name = inr true
      /\ exists text, read_text h (path_join path file_name) = inr text
                      /\ Regex.check regex text = inr false).

(** One of the three conditions that [Rules.check] knows. *)
Definition known_condition (condition : string) : bool :=
  (condition =? "all") || (condition =? "any") || (condition =? "none").

(** ** More scenarios on the small machine *)

Module Cases.

Import Lab.

(** A machine with the file [/etc/issue], its backup and the directory
    [/etc], whose user types the given lines. *)
Definition host (answers : list input_event) : machine :=
  mkMachine
    [("/etc/issue", File "Debian"); ("/etc/issue.backup", File "old");
     ("/etc", Dir ["issue"; "issue.backup"; "ssh"]); ("/etc/ssh", Dir [])]
    [] answers.

(** A check that passes there, with no solution. *)
Definition issue : Check.t machine :=
  Check.mk 1 2%Z "issue is present"
    (fst (Rules.init 2%Z "all" ["f:/etc/issue"]))
    (Solution.mk VNone None).

(** The check on [/etc/motd], which fails there, with a solution that is
    not to be rechecked. *)
Definition motd_once : Check.t machine :=
  motd_check (write_file "/etc/motd" "welcome") (VBool false).

(** A check whose condition is misspelt. *)
Definition misspelt : Check.t machine :=
  Check.mk 2 3%Z "shadow is present"
    (fst (Rules.init 3%Z "al" ["f:/etc/shadow"]))
    (Solution.mk VNone None).

Definition checks : list (Check.t machine) := [Scenario.fixing; issue].

(** The objects of the run, by address. *)
Definition object (a : nat) : Check.t machine := nth a checks issue.

(** A registry with [note] and [execute], and the flag of [__main__]
    that is no callable. *)
Definition globals (function : string) : option (Build.global machine) :=
  if function =? "note" then Some (Build.Function (fun _ _ => say "noted" VNone))
  else if function =? "execute"
       then Some (Build.Function (fun _ _ => answer (VStr "")))
  else if function =? "reboot_required" then Some Build.NotCallable
  else None.

(** A solution whose only flaw is a name, two levels down. *)
Definition deep (function : string) : Policy.solution :=
  Policy.mkSolution None
    (Some [Policy.ActDict (Some "note") None None
             (Some [(Some (VStr "yes"),
                     Some [Policy.ActDict (Some "execute") None None
                             (Some [(Some VNone,
                                     Some [Policy.ActDict (Some function)
                                             None None None])])])])]).

End Cases.

(** * Properties *)

(** ** The condition aggregator *)

Section Sequential.
Context {S R : Type} (check_rule : R -> S -> option bool * S * list event).

Lemma all_loop_outcome (rules : list R) :
  forall na s,
    fst (fst (Rules.all_loop check_rule na rules s)) =
    if existsb Claimed.is_false (outcomes check_rule rules s) then Some false
    else if na || existsb Claimed.is_na (outcomes check_rule rules s) then None
    else Some true.
Proof.
  induction rules as [|rule rest IH]; intros na s; simpl.
  - now destruct na.
  - destruct (check_rule rule s) as [[o s1] out1] eqn:E.
    destruct o as [[|]|]; simpl; trivial.
    + specialize (IH na s1).
      destruct (Rules.all_loop check_rule na rest s1) as [[r s2] out2].
      simpl in *. exact IH.
    + specialize (IH true s1).
      destruct (Rules.all_loop check_rule true rest s1) as [[r s2] out2].
      simpl in *. rewrite IH. now rewrite orb_true_r.
Qed.

Lemma any_loop_outcome (rules : list R) :
  forall na s,
    fst (fst (Rules.any_loop check_rule na rules s)) =
    if existsb Claimed.is_true (outcomes check_rule rules s) then Some true
    else if na || existsb Claimed.is_na (outcomes check_rule rules s) then None
    else Some false.
Proof.
  induction rules as [|rule rest IH]; intros na s; simpl.
  - now destruct na.
  - destruct (check_rule rule s) as [[o s1] out1] eqn:E.
    destruct o as [[|]|]; simpl; trivial.
    + specialize (IH na s1).
      destruct (Rules.any_loop check_rule na rest s1) as [[r s2] out2].
      simpl in *. exact IH.
    + specialize (IH true s1).
      destruct (Rules.any_loop check_rule true rest s1) as [[r s2] out2].
      simpl in *. rewrite IH. now rewrite orb_true_r.
Qed.

Lemma none_loop_outcome (rules : list R) :
  forall na s,
    fst (fst (Rules.none_loop check_rule na rules s)) =
    if existsb Claimed.is_true (outcomes check_rule rules s) then Some false
    else if na || existsb Claimed.is_na (outcomes check_rule rules s) then None
    else Some true.
Proof.
  induction rules as [|rule rest IH]; intros na s; simpl.
  - now destruct na.
  - destruct (check_rule rule s) as [[o s1] out1] eqn:E.
    destruct o as [[|]|]; simpl; trivial.
    + specialize (IH na s1).
      destruct (Rules.none_loop check_rule na rest s1) as [[r s2] out2].
      simpl in *. exact IH.
    + specialize (IH true s1).
      destruct (Rules.none_loop check_rule true rest s1) as [[r s2] out2].
      simpl in *. rewrite IH. now rewrite orb_true_r.
Qed.

End Sequential.

Lemma outcomes_yield {S : Type} (os : list (option bool)) (s : S) :
  outcomes yield os s = os.
Proof. induction os as [|o os IH]; simpl; [reflexivity | now rewrite IH]. Qed.

Lemma all_loop_yield {S : Type} (os : list (option bool)) :
  forall na (s : S), snd (fst (Rules.all_loop yield na os s)) = s
                     /\ snd (Rules.all_loop yield na os s) = [].
Proof.
  induction os as [|o os IH]; intros na s; simpl; [now split|].
  destruct o as [[|]|]; simpl; [| now split |].
  - destruct (IH na s) as [H1 H2].
    destruct (Rules.all_loop yield na os s) as [[r s2] out2]; simpl in *; now split.
  - destruct (IH true s) as [H1 H2].
    destruct (Rules.all_loop yield true os s) as [[r s2] out2]; simpl in *; now split.
Qed.

Lemma any_loop_yield {S : Type} (os : list (option bool)) :
  forall na (s : S), snd (fst (Rules.any_loop yield na os s)) = s
                     /\ snd (Rules.any_loop yield na os s) = [].
Proof.
  induction os as [|o os IH]; intros na s; simpl; [now split|].
  destruct o as [[|]|]; simpl; [now split | |].
  - destruct (IH na s) as [H1 H2].
    destruct (Rules.any_loop yield na os s) as [[r s2] out2]; simpl in *; now split.
  - destruct (IH true s) as [H1 H2].
    destruct (Rules.any_loop yield true os s) as [[r s2] out2]; simpl in *; now split.
Qed.

Lemma none_loop_yield {S : Type} (os : list (option bool)) :
  forall na (s : S), snd (fst (Rules.none_loop yield na os s)) = s
                     /\ snd (Rules.none_loop yield na os s) = [].
Proof.
  induction os as [|o os IH]; intros na s; simpl; [now split|].
  destruct o as [[|]|]; simpl; [now split | |].
  - destruct (IH na s) as [H1 H2].
    destruct (Rules.none_loop yield na os s) as [[r s2] out2]; simpl in *; now split.
  - destruct (IH true s) as [H1 H2].
    destruct (Rules.none_loop yield true os s) as [[r s2] out2]; simpl in *; now split.
Qed.

(** C1.  On every list of outcomes the aggregator returns, under [all],
    False if some outcome is False, else not applicable if some outcome is
    not applicable, else True; under [any], True if some outcome is True,
    else not applicable if some is, else False; under [none], False if
    some outcome is True, else not applicable if some is, else True.  The
    same holds of the rules of a check, for the outcomes they have when
    evaluated in turn on the host. *)
Theorem aggregator_three_valued :
  (forall (S : Type) (os : list (option bool)) (s : S),
      Rules.check_with yield "all" os s = (inr (Claimed.all os), s, [])
      /\ Rules.check_with yield "any" os s = (inr (Claimed.any os), s, [])
      /\ Rules.check_with yield "none" os s = (inr (Claimed.none os), s, []))
  /\ (forall (Host : Type) (probes : HostProbes Host) (engine : RegexEngine)
        (rules : list Rule.t) (h : Host),
        let os := outcomes Rule.check rules h in
        fst (fst (Rules.check (Rules.mk "all" rules) h)) = inr (Claimed.all os)
        /\ fst (fst (Rules.check (Rules.mk "any" rules) h)) = inr (Claimed.any os)
        /\ fst (fst (Rules.check (Rules.mk "none" rules) h)) = inr (Claimed.none os)).
Proof.
  split.
  - intros S os s. unfold Rules.check_with; simpl.
    repeat split.
    + pose proof (all_loop_outcome yield os false s) as Ho.
      destruct (all_loop_yield os false s) as [Hs Hout].
      destruct (Rules.all_loop yield false os s) as [[r s'] out]; simpl in *.
      rewrite outcomes_yield in Ho. unfold Claimed.all. congruence.
    + pose proof (any_loop_outcome yield os false s) as Ho.
      destruct (any_loop_yield os false s) as [Hs Hout].
      destruct (Rules.any_loop yield false os s) as [[r s'] out]; simpl in *.
      rewrite outcomes_yield in Ho. unfold Claimed.any. congruence.
    + pose proof (none_loop_outcome yield os false s) as Ho.
      destruct (none_loop_yield os false s) as [Hs Hout].
      destruct (Rules.none_loop yield false os s) as [[r s'] out]; simpl in *.
      rewrite outcomes_yield in Ho. unfold Claimed.none. congruence.
  - intros Host probes engine rules h os.
    unfold Rules.check, Rules.check_with; simpl.
    repeat split.
    + pose proof (all_loop_outcome Rule.check rules false h) as Ho.
      destruct (Rules.all_loop Rule.check false rules h) as [[r s'] out]; simpl in *.
      now rewrite Ho.
    + pose proof (any_loop_outcome Rule.check rules false h) as Ho.
      destruct (Rules.any_loop Rule.check false rules h) as [[r s'] out]; simpl in *.
      now rewrite Ho.
    + pose proof (none_loop_outcome Rule.check rules false h) as Ho.
      destruct (Rules.none_loop Rule.check false rules h) as [[r s'] out]; simpl in *.
      now rewrite Ho.
Qed.

(** The tables of the specification. *)
Example aggregator_tables :
  let T := Some true in let F := Some false in let NA := @None bool in
  let run c os := fst (fst (Rules.check_with yield c os tt)) in
  run "all" [T; T] = inr T /\ run "all" [T; F] = inr F /\ run "all" [T; NA] = inr NA
  /\ run "any" [F; F] = inr F /\ run "any" [T; F] = inr T /\ run "any" [F; NA] = inr NA
  /\ run "none" [F; F] = inr T /\ run "none" [T; F] = inr F /\ run "none" [F; NA] = inr NA.
Proof. cbv. repeat split. Qed.

(** C10.  With no rule at all a check evaluates to True under [all], to
    False under [any] and to True under [none], never to not applicable;
    the host is left as it was and nothing is printed. *)
Theorem empty_rules_outcome :
  forall (Host : Type) (probes : HostProbes Host) (engine : RegexEngine)
    (check_id : Z) (h : Host),
    Rules.check (fst (Rules.init check_id "all" [])) h = (inr (Some true), h, [])
    /\ Rules.check (fst (Rules.init check_id "any" [])) h = (inr (Some false), h, [])
    /\ Rules.check (fst (Rules.init check_id "none" [])) h = (inr (Some true), h, []).
Proof. intros. repeat split. Qed.

(** ** Existence checks first *)

Lemma init_loop_spec (check_id : Z) (rules : list string) :
  forall ex non out,
    let built := map (fun r => fst (Rule.init check_id r)) rules in
    fst (Rules.init_loop check_id rules ex non out) =
    ((ex ++ filter Rules.is_existence built)%list,
     (non ++ filter (fun r => negb (Rules.is_existence r)) built)%list).
Proof.
  induction rules as [|rule rest IH]; intros ex non out; simpl.
  - now rewrite !app_nil_r.
  - destruct (Rule.init check_id rule) as [parsed_rule warn] eqn:E; simpl.
    destruct (Rules.is_existence parsed_rule) eqn:K; simpl;
      rewrite IH; simpl; now rewrite <- app_assoc.
Qed.

(** The rule list of a check: the existence rules in their order, then
    the others in theirs. *)
Lemma init_parsed (check_id : Z) (condition : string) (rules : list string) :
  let built := map (fun r => fst (Rule.init check_id r)) rules in
  Rules.parsed (fst (Rules.init check_id condition rules)) =
  (filter Rules.is_existence built
   ++ filter (fun r => negb (Rules.is_existence r)) built)%list.
Proof.
  unfold Rules.init.
  pose proof (init_loop_spec check_id rules [] [] []) as H.
  destruct (Rules.init_loop check_id rules [] [] []) as [[ex non] out].
  simpl in *. now inversion H.
Qed.

Section Visits.
Context {St R : Type} (check_rule : R -> St -> option bool * St * list event).

Let after {A} (t : A * St * list event) : St * list event := (snd (fst t), snd t).

Lemma all_loop_visits (rules : list R) :
  forall na s, exists k,
    k <= List.length rules
    /\ after (Rules.all_loop check_rule na rules s) = visit check_rule (firstn k rules) s.
Proof.
  induction rules as [|rule rest IH]; intros na s.
  - exists 0. now split.
  - simpl. destruct (check_rule rule s) as [[o s1] out1] eqn:E.
    assert (Stop : exists k, k <= S (List.length rest)
              /\ after (Some false, s1, out1) = visit check_rule (firstn k (rule :: rest)) s).
    { exists 1. split; [lia|]. simpl. rewrite E. destruct rest; simpl; now rewrite app_nil_r. }
    assert (Go : forall na', exists k, k <= S (List.length rest)
              /\ after (let '(r, s2, out2) := Rules.all_loop check_rule na' rest s1 in
                        (r, s2, (out1 ++ out2)%list))
                 = visit check_rule (firstn k (rule :: rest)) s).
    { intros na'. destruct (IH na' s1) as [k [Hk Hv]]. exists (S k). split; [lia|].
      simpl. rewrite E.
      destruct (Rules.all_loop check_rule na' rest s1) as [[r s2] out2].
      unfold after in *; simpl in *. rewrite <- Hv. reflexivity. }
    destruct o as [[|]|]; [apply Go | exact Stop | apply Go].
Qed.

Lemma any_loop_visits (rules : list R) :
  forall na s, exists k,
    k <= List.length rules
    /\ after (Rules.any_loop check_rule na rules s) = visit check_rule (firstn k rules) s.
Proof.
  induction rules as [|rule rest IH]; intros na s.
  - exists 0. now split.
  - simpl. destruct (check_rule rule s) as [[o s1] out1] eqn:E.
    assert (Stop : exists k, k <= S (List.length rest)
              /\ after (Some true, s1, out1) = visit check_rule (firstn k (rule :: rest)) s).
    { exists 1. split; [lia|]. simpl. rewrite E. destruct rest; simpl; now rewrite app_nil_r. }
    assert (Go : forall na', exists k, k <= S (List.length rest)
              /\ after (let '(r, s2, out2) := Rules.any_loop check_rule na' rest s1 in
                        (r, s2, (out1 ++ out2)%list))
                 = visit check_rule (firstn k (rule :: rest)) s).
    { intros na'. destruct (IH na' s1) as [k [Hk Hv]]. exists (S k). split; [lia|].
      simpl. rewrite E.
      destruct (Rules.any_loop check_rule na' rest s1) as [[r s2] out2].
      unfold after in *; simpl in *. rewrite <- Hv. reflexivity. }
    destruct o as [[|]|]; [exact Stop | apply Go | apply Go].
Qed.

Lemma none_loop_visits (rules : list R) :
  forall na s, exists k,
    k <= List.length rules
    /\ after (Rules.none_loop check_rule na rules s) = visit check_rule (firstn k rules) s.
Proof.
  induction rules as [|rule rest IH]; intros na s.
  - exists 0. now split.
  - simpl. destruct (check_rule rule s) as [[o s1] out1] eqn:E.
    assert (Stop : exists k, k <= S (List.length rest)
              /\ after (Some false, s1, out1) = visit check_rule (firstn k (rule :: rest)) s).
    { exists 1. split; [lia|]. simpl. rewrite E. destruct rest; simpl; now rewrite app_nil_r. }
    assert (Go : forall na', exists k, k <= S (List.length rest)
              /\ after (let '(r, s2, out2) := Rules.none_loop check_rule na' rest s1 in
                        (r, s2, (out1 ++ out2)%list))
                 = visit check_rule (firstn k (rule :: rest)) s).
    { intros na'. destruct (IH na' s1) as [k [Hk Hv]]. exists (S k). split; [lia|].
      simpl. rewrite E.
      destruct (Rules.none_loop check_rule na' rest s1) as [[r s2] out2].
      unfold after in *; simpl in *. rewrite <- Hv. reflexivity. }
    destruct o as [[|]|]; [exact Stop | apply Go | apply Go].
Qed.

(** Whatever the condition, an evaluation is a visit of the first [k]
    rules of the list, in the order of the list. *)
Lemma check_with_visits (condition : string) (rules : list R) (s : St) :
  exists k, k <= List.length rules
    /\ after (Rules.check_with check_rule condition rules s)
       = visit check_rule (firstn k rules) s.
Proof.
  unfold Rules.check_with.
  destruct (condition =? "all").
  { destruct (all_loop_visits rules false s) as [k [Hk Hv]]. exists k. split; [exact Hk|].
    destruct (Rules.all_loop check_rule false rules s) as [[r s'] out]. exact Hv. }
  destruct (condition =? "any").
  { destruct (any_loop_visits rules false s) as [k [Hk Hv]]. exists k. split; [exact Hk|].
    destruct (Rules.any_loop check_rule false rules s) as [[r s'] out]. exact Hv. }
  destruct (condition =? "none").
  { destruct (none_loop_visits rules false s) as [k [Hk Hv]]. exists k. split; [exact Hk|].
    destruct (Rules.none_loop check_rule false rules s) as [[r s'] out]. exact Hv. }
  exists 0. split; [lia|]. reflexivity.
Qed.

End Visits.

(** C8.  The rule list built for a check holds every rule of the policy
    once, those parsed as FileExistence, DirExistence or DirContains
    before all the others (unparsed rules among the others), each group in
    the order of the policy; and an evaluation visits the rules in the
    order of that list, stopping after some number of them. *)
Theorem existence_rules_first :
  forall (check_id : Z) (condition : string) (rules : list string),
    let built := map (fun r => fst (Rule.init check_id r)) rules in
    let parsed := Rules.parsed (fst (Rules.init check_id condition rules)) in
    parsed = (filter Rules.is_existence built
              ++ filter (fun r => negb (Rules.is_existence r)) built)%list
    /\ (forall r, Rules.is_existence r = true <->
                  exists p, Rule.parsed r = Some p
                            /\ is_existence_tag (ParsedRule.tag p) = true)
    /\ (forall i j a b, nth_error parsed i = Some a -> nth_error parsed j = Some b ->
                        Rules.is_existence a = false -> Rules.is_existence b = true ->
                        j < i)
    /\ (forall (S : Type) (check_rule : Rule.t -> S -> option bool * S * list event)
          (s : S),
          exists k, k <= List.length parsed
            /\ (let '(_, s', out) := Rules.check_with check_rule condition parsed s in
                (s', out)) = visit check_rule (firstn k parsed) s).
Proof.
  intros check_id condition rules built parsed.
  assert (Hp : parsed = (filter Rules.is_existence built
              ++ filter (fun r => negb (Rules.is_existence r)) built)%list)
    by apply init_parsed.
  split; [exact Hp|]. split; [|split].
  - intros r. unfold Rules.is_existence, is_existence_tag.
    destruct (Rule.parsed r) as [p|].
    + split; [intros H; now exists p | intros [p' [E H]]; now inversion E; subst].
    + split; [discriminate | intros [p' [E _]]; discriminate].
  - intros i j a b Ha Hb Ka Kb.
    rewrite Hp in Ha, Hb.
    set (ex := filter Rules.is_existence built) in *.
    set (non := filter (fun r => negb (Rules.is_existence r)) built) in *.
    destruct (Nat.lt_ge_cases i (List.length ex)) as [Hi|Hi].
    { rewrite nth_error_app1 in Ha by exact Hi.
      apply nth_error_In in Ha. apply filter_In in Ha. destruct Ha; congruence. }
    destruct (Nat.lt_ge_cases j (List.length ex)) as [Hj|Hj]; [lia|].
    rewrite nth_error_app2 in Hb by exact Hj.
    apply nth_error_In in Hb. apply filter_In in Hb.
    destruct Hb as [_ Hb]. rewrite Kb in Hb. discriminate.
  - intros S check_rule s.
    destruct (check_with_visits check_rule condition parsed s) as [k [Hk Hv]].
    exists k. split; [exact Hk|].
    destruct (Rules.check_with check_rule condition parsed s) as [[r s'] out].
    exact Hv.
Qed.

(** ** Rules that do not parse *)

Lemma split_from_nonempty (sep : string) (s : string) :
  forall skip cur, PyStr.split_from sep skip cur s <> [].
Proof.
  induction s as [|c s IH]; intros skip cur; cbn [PyStr.split_from]; [discriminate|].
  destruct skip; [|apply IH].
  destruct (String.prefix sep (String c s)); [discriminate | apply IH].
Qed.

Lemma pieces_nonempty (rule : string) : pieces rule <> [].
Proof.
  unfold pieces, PyStr.split.
  destruct (PyStr.split_from "->" 0 "" rule) eqn:E; [|discriminate].
  now apply split_from_nonempty in E.
Qed.

Lemma prefix_head (a b : ascii) (x y t : string) :
  String.prefix (String a x) t = true -> String.prefix (String b y) t = true -> a = b.
Proof.
  destruct t as [|c t]; simpl; [discriminate|].
  destruct (ascii_dec a c) as [->|]; [|discriminate].
  destruct (ascii_dec b c) as [->|]; [reflexivity | discriminate].
Qed.

Lemma startswith_other (t p q : string) :
  PyStr.startswith t p = true ->
  match p, q with
  | String a _, String b _ => a <> b
  | _, _ => False
  end ->
  PyStr.startswith t q = false.
Proof.
  unfold PyStr.startswith. intros Hp Hd.
  destruct p as [|a x]; [contradiction|]. destruct q as [|b y]; [contradiction|].
  destruct (String.prefix (String b y) t) eqn:Hq; [|reflexivity].
  exfalso. apply Hd. exact (prefix_head a b x y t Hp Hq).
Qed.

(** Exactly these rule strings fail to parse: an [f:] rule with more than
    one pattern, a [c:] rule without exactly one, a [d:] rule with more
    than two, a [p:] rule with any, and every rule with another selector
    ([r:] among them) -- each with or without a leading [not ]. *)
Lemma parse_fails_iff (rule : string) :
  let n := List.length (pieces rule) in
  let sel := PyStr.startswith (selected rule) in
  Rule.parse rule = inl ValueError <->
  (sel "f:" = true /\ 3 <= n)
  \/ (sel "c:" = true /\ n <> 2)
  \/ (sel "d:" = true /\ 4 <= n)
  \/ (sel "p:" = true /\ n <> 1)
  \/ (sel "f:" = false /\ sel "c:" = false /\ sel "d:" = false /\ sel "p:" = false).
Proof.
  pose proof (pieces_nonempty rule) as Hne.
  unfold Rule.parse, selected, negated in *. fold (pieces rule).
  set (to_check := if PyStr.startswith (hd "" (pieces rule)) "not "
                   then PyStr.drop 4 (hd "" (pieces rule)) else hd "" (pieces rule)).
  assert (E : (if PyStr.startswith (hd "" (pieces rule)) "not "
               then (true, PyStr.drop 4 (hd "" (pieces rule)))
               else (false, hd "" (pieces rule)))
              = (PyStr.startswith (hd "" (pieces rule)) "not ", to_check)).
  { unfold to_check. now destruct (PyStr.startswith (hd "" (pieces rule)) "not "). }
  rewrite E. clear E. cbv zeta.
  assert (D : forall p q, PyStr.startswith to_check p = true ->
                match p, q with String a _, String b _ => a <> b | _, _ => False end ->
                PyStr.startswith to_check q = false)
    by (intros p q; apply startswith_other).
  destruct (PyStr.startswith to_check "f:") eqn:Ff.
  { rewrite (D "f:" "c:" Ff), (D "f:" "d:" Ff), (D "f:" "p:" Ff) by (simpl; discriminate).
    destruct (pieces rule) as [|p0 [|p1 [|p2 more]]]; [congruence| | |]; simpl;
      split; intros H; try discriminate; try reflexivity;
      intuition (try discriminate; try lia). }
  destruct (PyStr.startswith to_check "c:") eqn:Fc.
  { rewrite (D "c:" "d:" Fc), (D "c:" "p:" Fc) by (simpl; discriminate).
    destruct (pieces rule) as [|p0 [|p1 [|p2 more]]]; [congruence| | |]; simpl;
      split; intros H; try discriminate; try reflexivity;
      intuition (try discriminate; try lia). }
  destruct (PyStr.startswith to_check "d:") eqn:Fd.
  { rewrite (D "d:" "p:" Fd) by (simpl; discriminate).
    destruct (pieces rule) as [|p0 [|p1 [|p2 [|p3 more]]]]; [congruence| | | |]; simpl;
      split; intros H; try discriminate; try reflexivity;
      intuition (try discriminate; try lia). }
  destruct (PyStr.startswith to_check "p:") eqn:Fp.
  { destruct (pieces rule) as [|p0 [|p1 more]]; [congruence| |]; simpl;
      split; intros H; try discriminate; try reflexivity;
      intuition (try discriminate; try lia). }
  split; [intros _; do 4 right; repeat split|].
  intros _. now destruct (PyStr.startswith to_check "r:").
Qed.

(** Whatever fails to parse fails with [ValueError]. *)
Lemma parse_error_is_ValueError (rule : string) (e : error) :
  Rule.parse rule = inl e -> e = ValueError.
Proof.
  unfold Rule.parse.
  destruct (if PyStr.startswith (hd "" (map PyStr.strip (PyStr.split rule "->"))) "not "
            then _ else _) as [revert to_check].
  repeat match goal with
         | |- context [if ?b then _ else _] => destruct b
         | |- context [match ?l with [] => _ | _ :: _ => _ end] => destruct l
         end; intros H; inversion H; reflexivity.
Qed.

Lemma string_app_nil_r (s : string) : s ++ "" = s.
Proof. induction s as [|c s IH]; simpl; [reflexivity | now rewrite IH]. Qed.

Lemma string_app_assoc (a b c : string) : (a ++ b) ++ c = a ++ (b ++ c).
Proof. induction a as [|x a IH]; simpl; [reflexivity | now rewrite IH]. Qed.

(** The piece being read only grows at its end. *)
Lemma split_from_cur (sep : string) (s : string) :
  forall skip cur,
    PyStr.split_from sep skip cur s =
    match PyStr.split_from sep skip "" s with
    | x :: rest => (cur ++ x) :: rest
    | [] => []
    end.
Proof.
  induction s as [|c s IH]; intros skip cur; cbn [PyStr.split_from].
  - now rewrite string_app_nil_r.
  - destruct skip; [|apply IH].
    destruct (String.prefix sep (String c s)).
    + now rewrite string_app_nil_r.
    + rewrite (IH 0 (cur ++ String c "")), (IH 0 ("" ++ String c "")).
      destruct (PyStr.split_from sep 0 "" s); [reflexivity|].
      simpl. now rewrite string_app_assoc.
Qed.

Lemma rstrip_cons (c : ascii) (s : string) :
  PyStr.isspace c = false -> PyStr.rstrip (String c s) = String c (PyStr.rstrip s).
Proof. intros H. simpl. rewrite H. now destruct (PyStr.rstrip s). Qed.

Lemma rstrip_cons_nonempty (c : ascii) (s : string) :
  PyStr.rstrip s <> "" -> PyStr.rstrip (String c s) = String c (PyStr.rstrip s).
Proof. intros H. simpl. destruct (PyStr.rstrip s); [congruence | reflexivity]. Qed.

(** The [r:] selector never parses, negated or not, whatever follows. *)
Lemma r_selector_fails (target : string) :
  Rule.parse ("r:" ++ target) = inl ValueError
  /\ Rule.parse ("not r:" ++ target) = inl ValueError.
Proof.
  split; apply parse_fails_iff; do 4 right.
  - assert (E : exists x, selected ("r:" ++ target) = "r:" ++ x).
    { unfold selected, negated, pieces, PyStr.split. cbn.
      rewrite split_from_cur.
      destruct (PyStr.split_from "->" 0 "" target) as [|x rest] eqn:Ex;
        [now apply split_from_nonempty in Ex|].
      cbn [map hd append]. unfold PyStr.strip. cbn [PyStr.lstrip].
      change (PyStr.isspace "r") with false. cbv iota.
      rewrite !rstrip_cons by reflexivity.
      cbn. eexists; reflexivity. }
    destruct E as [x ->]. now cbn.
  - assert (E : exists x, selected ("not r:" ++ target) = "r:" ++ x).
    { unfold selected, negated, pieces, PyStr.split. cbn.
      rewrite split_from_cur.
      destruct (PyStr.split_from "->" 0 "" target) as [|x rest] eqn:Ex;
        [now apply split_from_nonempty in Ex|].
      cbn [map hd append]. unfold PyStr.strip. cbn [PyStr.lstrip].
      change (PyStr.isspace "n") with false. cbv iota.
      rewrite (rstrip_cons "n") by reflexivity.
      rewrite (rstrip_cons "o") by reflexivity.
      rewrite (rstrip_cons "t") by reflexivity.
      rewrite (rstrip_cons_nonempty " ")
        by (rewrite (rstrip_cons "r") by reflexivity; discriminate).
      rewrite (rstrip_cons "r") by reflexivity.
      rewrite (rstrip_cons ":") by reflexivity.
      cbn. eexists; reflexivity. }
    destruct E as [x ->]. now cbn.
Qed.

(** C6.  A rule string that fails to parse is kept in the rule list of its
    check with no parse, and every evaluation of it returns True without
    touching the host or printing; the aggregation goes on past it: under
    [all] the result is that of the other rules, under [any] it is True
    and under [none] it is False.  ([parse_fails_iff] and
    [r_selector_fails] tell which strings fail to parse.) *)
Theorem unparsed_rule_passes :
  forall (check_id : Z) (rule : string) (e : error),
    Rule.parse rule = inl e ->
    let r := fst (Rule.init check_id rule) in
    r = Rule.mk check_id rule None
    /\ (forall condition before after,
           In r (Rules.parsed
                   (fst (Rules.init check_id condition (before ++ rule :: after)%list))))
    /\ (forall (Host : Type) (probes : HostProbes Host) (engine : RegexEngine)
          (h : Host),
          Rule.check r h = (Some true, h, [])
          /\ (forall na rest,
                 Rules.all_loop Rule.check na (r :: rest) h
                 = Rules.all_loop Rule.check na rest h)
          /\ (forall na rest,
                 Rules.any_loop Rule.check na (r :: rest) h = (Some true, h, []))
          /\ (forall na rest,
                 Rules.none_loop Rule.check na (r :: rest) h = (Some false, h, []))).
Proof.
  intros check_id rule e He r.
  assert (Hr : r = Rule.mk check_id rule None).
  { unfold r, Rule.init. now rewrite He. }
  split; [exact Hr|]. split.
  - intros condition before after. rewrite init_parsed.
    apply in_or_app. right. apply filter_In. split.
    + rewrite map_app. apply in_or_app. right. left. reflexivity.
    + fold r. rewrite Hr. reflexivity.
  - intros Host probes engine h. rewrite Hr.
    split; [reflexivity|]. split; [|split]; intros na rest; simpl; trivial.
    destruct (Rules.all_loop Rule.check na rest h) as [[x s2] out2]. reflexivity.
Qed.

(** ** Rules whose predicate raises *)

Section DefinedErrors.
Context {Host : Type} {probes : HostProbes Host} {engine : RegexEngine}.

(** A file rule on a directory, a directory rule on a file. *)
Lemma wrong_type_raises (h : Host) (path : string) (rx : Regex.t) :
  path_exists h path = true ->
  (path_is_dir h path = true ->
   Rule.call (ParsedRule.check_file_exists path) h = (inl IsADirectoryError, h)
   /\ Rule.call (ParsedRule.check_regex_against_file path rx) h
      = (inl IsADirectoryError, h))
  /\ (path_is_dir h path = false ->
      Rule.call (ParsedRule.check_dir_exists path) h = (inl NotADirectoryError, h)
      /\ Rule.call (ParsedRule.check_dir_contains path rx) h
         = (inl NotADirectoryError, h)
      /\ Rule.call (ParsedRule.check_regex_against_dir path rx rx) h
         = (inl NotADirectoryError, h)).
Proof.
  intros He. split; intros Hd; simpl;
    unfold Rule.file_exists, Rule.regex_against_file, Rule.dir_exists,
      Rule.dir_contains, Rule.regex_against_dir;
    rewrite He, Hd; simpl; auto.
Qed.

(** A content rule on a path that is not there (any more). *)
Lemma missing_target_raises (h : Host) (path : string) (rx1 rx2 : Regex.t) :
  path_exists h path = false ->
  Rule.call (ParsedRule.check_regex_against_file path rx1) h
  = (inl FileNotFoundError, h)
  /\ Rule.call (ParsedRule.check_dir_contains path rx1) h
     = (inl FileNotFoundError, h)
  /\ Rule.call (ParsedRule.check_regex_against_dir path rx1 rx2) h
     = (inl FileNotFoundError, h).
Proof.
  intros He. simpl.
  unfold Rule.regex_against_file, Rule.dir_contains, Rule.regex_against_dir.
  rewrite He. simpl. auto.
Qed.

(** A shell line whose output ends with the timeout marker: the command
    probe and the process probe raise [TimeoutError]. *)
Lemma timeout_raises (h h' : Host) (out : string) :
  endswith out ("BASH_TIMEOUT" ++ NL) = true ->
  (forall cmd rx,
      popen_read (shell_line cmd (Some "10")) h = (out, h') ->
      Rule.call (ParsedRule.check_regex_against_command cmd rx) h
      = (inl TimeoutError, h'))
  /\ (forall name,
         popen_read (shell_line (Rule.pgrep name) None) h = (out, h') ->
         Rule.call (ParsedRule.check_process_exists name) h
         = (inl TimeoutError, h')).
Proof.
  intros Ht. split.
  - intros cmd rx Hp. cbn [Rule.call]. unfold Rule.regex_against_command, execute.
    rewrite Hp, Ht. reflexivity.
  - intros name Hp. cbn [Rule.call]. unfold Rule.process_exists, execute.
    rewrite Hp, Ht. reflexivity.
Qed.

End DefinedErrors.

(** C7.  When the predicate of a parsed rule raises, the error is caught:
    the outcome of the rule is not applicable (neither True nor False),
    whether the rule is negated or not, and the error is reported.
    When the predicate returns, a negated rule turns True into False and
    False into True, and a plain rule returns the value as it is.
    ([wrong_type_raises], [missing_target_raises] and [timeout_raises]
    show the predicates raising the defined errors.) *)
Theorem raised_error_is_not_applicable :
  forall (Host : Type) (probes : HostProbes Host) (engine : RegexEngine)
    (r : Rule.t) (p : ParsedRule.t) (h : Host),
    Rule.parsed r = Some p ->
    (forall e h', Rule.call (ParsedRule.function p) h = (inl e, h') ->
                  Rule.check r h
                  = (None, h', [RuleCheckError (Rule.check_id r) (ParsedRule.tag p)
                                  (Rule.rule r) e]))
    /\ (forall b h', Rule.call (ParsedRule.function p) h = (inr b, h') ->
                     Rule.check r h
                     = (Some (if ParsedRule.revert p then negb b else b), h', []))
    /\ (forall o h' out, Rule.check r h = (o, h', out) ->
                         match Rule.call (ParsedRule.function p) h with
                         | (inl _, _) => o = None
                         | (inr b, _) => o = Some (xorb (ParsedRule.revert p) b)
                         end).
Proof.
  intros Host probes engine r p h Hp. unfold Rule.check. rewrite Hp.
  split; [|split].
  - intros e h' ->. reflexivity.
  - intros b h' ->. reflexivity.
  - intros o h' out.
    destruct (Rule.call (ParsedRule.function p) h) as [[e|b] h1]; intros H;
      inversion H; subst; [reflexivity|].
    now destruct (ParsedRule.revert p), b.
Qed.

(** ** The status partitions *)

(** C3, amended.  An evaluation sets the status of the check to the new
    outcome and appends the check to the partition of that outcome; every
    partition keeps the members it had, so after a re-evaluation the check
    is in the partition of the new outcome and still where earlier
    evaluations put it.  The status of the other checks does not change. *)
Theorem evaluation_appends_to_partition :
  forall (Host : Type) (probes : HostProbes Host) (engine : RegexEngine)
    (c : Check.t Host) (st st' : Check.state Host) (res : option bool)
    (out : list event),
    Check.check c st = (inr res, st', out) ->
    Check.status st' (Check.addr c) = Some (verdict res)
    /\ partition (verdict res) st' = (partition (verdict res) st ++ [Check.addr c])%list
    /\ (forall w, w <> verdict res -> partition w st' = partition w st)
    /\ (forall a, a <> Check.addr c -> Check.status st' a = Check.status st a)
    /\ memberships st' (Check.addr c) = S (memberships st (Check.addr c)).
Proof.
  intros Host probes engine c st st' res out.
  unfold Check.check, bind, Check.on_host.
  destruct (Rules.check (Check.rules c) (Check.host st)) as [[[e|r] h1] out1];
    [discriminate|].
  assert (Hm : forall l1 l2 l3 a,
             count_occ Nat.eq_dec (l1 ++ l2 ++ l3)%list a
             = count_occ Nat.eq_dec l1 a + count_occ Nat.eq_dec l2 a
               + count_occ Nat.eq_dec l3 a).
  { intros. rewrite !count_occ_app. lia. }
  assert (Hone : forall a, count_occ Nat.eq_dec [a] a = 1).
  { intros a. simpl. now destruct (Nat.eq_dec a a). }
  destruct r as [[|]|]; cbn; intros H; inversion H; subst; clear H; cbn;
    rewrite Nat.eqb_refl; (split; [reflexivity|]); (split; [reflexivity|]);
    (split; [intros [| |] Hw; try reflexivity; congruence|]);
    (split; [intros a Ha; destruct (Nat.eqb a (Check.addr c)) eqn:E;
             [apply Nat.eqb_eq in E; congruence | reflexivity]|]);
    unfold memberships; cbn; rewrite !Hm, ?count_occ_app, Hone; lia.
Qed.

(** ** The action tree *)

Section ActionTree.
Context {Host : Type}.

Lemma bind_ret_l {A} (m : Eff Host A) (h : Host) : (ret tt ;; m) h = m h.
Proof. unfold bind, ret. now destruct (m h) as [[r h'] out]. Qed.

Lemma bind_ext {A B} (m1 m2 : Eff Host A) (k1 k2 : A -> Eff Host B) (h : Host) :
  m1 h = m2 h -> (forall a h', k1 a h' = k2 a h') -> bind m1 k1 h = bind m2 k2 h.
Proof.
  intros Hm H. unfold bind. rewrite Hm.
  destruct (m2 h) as [[[e|a] h1] out1]; [reflexivity|].
  now rewrite H.
Qed.

(** The loop over the acts of a nested sequence, inside [apply_act], is
    [apply_acts]. *)
Lemma nested_loop_is_apply_acts (l : list (Solution.SolutionAct Host)) (h : Host) :
  (fix acts (l : list (Solution.SolutionAct Host)) : Eff Host unit :=
     match l with
     | [] => ret tt
     | action :: more => Solution.apply_act action ;; acts more
     end) l h
  = Solution.apply_acts l h.
Proof.
  revert h. induction l as [|a l IH]; intros h; [reflexivity|].
  cbn [Solution.apply_acts]. apply bind_ext; [reflexivity|]. intros _ h'. apply IH.
Qed.

Lemma responses_loop (resp : value)
  (on_response : list (value * Solution.SolutionActs Host)) (h : Host) :
  (fix responses (rs : list (value * list (Solution.SolutionAct Host)))
     : Eff Host unit :=
     match rs with
     | [] => ret tt
     | (v, nested) :: rest =>
         (if py_eq resp v
          then (fix acts (l : list (Solution.SolutionAct Host)) : Eff Host unit :=
                  match l with
                  | [] => ret tt
                  | action :: more => Solution.apply_act action ;; acts more
                  end) nested
          else ret tt) ;;
         responses rest
     end) on_response h
  = run_each (triggered resp on_response) h.
Proof.
  revert h. induction on_response as [|[v nested] rest IH]; intros h; [reflexivity|].
  unfold triggered. cbn [filter fst]. destruct (py_eq resp v); cbn [map snd run_each].
  - apply bind_ext; [apply nested_loop_is_apply_acts|]. intros _ h'. apply IH.
  - rewrite bind_ret_l. apply IH.
Qed.


(** An act is its call followed by the triggered sequences. *)
Lemma apply_act_runs (function : string) (callable_func : Solution.callable Host)
  (on_response : list (value * Solution.SolutionActs Host)) (h : Host) :
  Solution.apply_act (Solution.Act function callable_func on_response) h
  = (resp <- Solution.run_callable callable_func ;;
     run_each (triggered resp on_response)) h.
Proof.
  cbn [Solution.apply_act]. apply bind_ext; [reflexivity|]. intros resp h'.
  apply responses_loop.
Qed.


End ActionTree.

(** ** What each part of a remediation prints *)

Section ActOutputs.
Context {Host : Type}.

(** Induction on an action tree: the property may be assumed of every act
    of every nested sequence. *)
Lemma SolutionAct_nested_ind (P : Solution.SolutionAct Host -> Prop) :
  (forall function callable_func on_response,
      Forall (fun entry => Forall P (snd entry)) on_response ->
      P (Solution.Act function callable_func on_response)) ->
  forall a, P a.
Proof.
  intros step.
  fix IH 1. intros [function callable_func on_response].
  apply step.
  induction on_response as [|[v nested] rest IHrest]; constructor; [|exact IHrest].
  simpl. induction nested as [|a nested IHn]; constructor; [apply IH | exact IHn].
Qed.

Lemma Forall_inert_app (l1 l2 : list event) :
  Forall (fun ev => inert ev = true) l1 -> Forall (fun ev => inert ev = true) l2 ->
  Forall (fun ev => inert ev = true) (l1 ++ l2)%list.
Proof. intros H1 H2. apply Forall_app. now split. Qed.

Lemma bind_inert {A B} (m : Eff Host A) (k : A -> Eff Host B) :
  prints_inert m -> (forall a, prints_inert (k a)) -> prints_inert (bind m k).
Proof.
  intros Hm Hk h. unfold bind. specialize (Hm h).
  destruct (m h) as [[[e|a] h1] out1]; simpl in *; [exact Hm|].
  specialize (Hk a h1). destruct (k a h1) as [[r h2] out2]; simpl in *.
  now apply Forall_inert_app.
Qed.

Lemma ret_inert {A} (a : A) : prints_inert (@ret Host A a).
Proof. intros h. constructor. Qed.

Lemma run_callable_inert (f : Solution.callable Host) :
  prints_inert (Solution.run_callable f).
Proof.
  intros h. unfold Solution.run_callable. destruct (f h) as [[r h'] texts]. simpl.
  induction texts; constructor; auto.
Qed.

Lemma apply_acts_inert_of (l : Solution.SolutionActs Host) :
  Forall (fun a => prints_inert (Solution.apply_act a)) l ->
  prints_inert (Solution.apply_acts l).
Proof.
  induction 1 as [|a l Ha Hl IH]; cbn [Solution.apply_acts].
  - apply ret_inert.
  - apply bind_inert; [exact Ha | intros _; exact IH].
Qed.

Lemma run_each_inert (seqs : list (Solution.SolutionActs Host)) :
  Forall (fun l => Forall (fun a => prints_inert (Solution.apply_act a)) l) seqs ->
  prints_inert (run_each seqs).
Proof.
  induction 1 as [|l seqs Hl Hs IH]; cbn [run_each].
  - apply ret_inert.
  - apply bind_inert; [now apply apply_acts_inert_of | intros _; exact IH].
Qed.

Lemma apply_act_inert (a : Solution.SolutionAct Host) :
  prints_inert (Solution.apply_act a).
Proof.
  induction a as [function callable_func on_response IH] using SolutionAct_nested_ind.
  intros h.
  rewrite apply_act_runs.
  revert h. apply bind_inert; [apply run_callable_inert|].
  intros resp. apply run_each_inert. unfold triggered.
  induction on_response as [|[v nested] rest IHrest]; [constructor|].
  inversion IH; subst. cbn [filter fst].
  destruct (py_eq resp v); cbn [map snd]; [constructor|]; auto.
Qed.

(** The acts of a solution print nothing but their own output. *)
Lemma solution_apply_inert (s : Solution.t Host) : prints_inert (Solution.apply s).
Proof.
  unfold Solution.apply, Solution.available.
  destruct (Solution.acts s) as [l|]; cbn [negb]; [|apply ret_inert].
  apply apply_acts_inert_of. apply Forall_forall. intros a _. apply apply_act_inert.
Qed.

End ActOutputs.

Section RuleOutputs.
Context {Host : Type} {probes : HostProbes Host} {engine : RegexEngine}.

Lemma rule_check_inert (r : Rule.t) (h : Host) :
  Forall (fun ev => inert ev = true) (snd (Rule.check r h)).
Proof.
  unfold Rule.check. destruct (Rule.parsed r) as [p|]; [|constructor].
  destruct (Rule.call (ParsedRule.function p) h) as [[e|b] h']; simpl;
    repeat constructor.
Qed.

Lemma rules_check_inert (rules : Rules.t) (h : Host) :
  Forall (fun ev => inert ev = true) (snd (Rules.check rules h)).
Proof.
  destruct (check_with_visits Rule.check (Rules.condition rules)
              (Rules.parsed rules) h) as [k [_ Hv]].
  unfold Rules.check.
  destruct (Rules.check_with Rule.check (Rules.condition rules)
              (Rules.parsed rules) h) as [[r h'] out].
  simpl in *. apply (f_equal snd) in Hv. simpl in Hv. rewrite Hv. clear.
  generalize (firstn k (Rules.parsed rules)). intros l. revert h.
  induction l as [|x l IH]; intros h; simpl; [constructor|].
  pose proof (rule_check_inert x h) as Hx.
  destruct (Rule.check x h) as [[o h1] out1]. simpl in Hx.
  specialize (IH h1). destruct (visit Rule.check l h1) as [h2 out2]. simpl in *.
  now apply Forall_inert_app.
Qed.

(** An evaluation either raises before printing, or prints reports of
    rule errors and then its verdict. *)
Lemma check_prints (c : Check.t Host) (st st' : Check.state Host)
  (r : exn + option bool) (out : list event) :
  Check.check c st = (r, st', out) ->
  (exists e, r = inl e /\ Forall (fun ev => inert ev = true) out)
  \/ (exists res noise,
         r = inr res /\ Forall (fun ev => inert ev = true) noise
         /\ out = (noise ++ [Verdict (verdict res) (Check.id c) (Check.title c)])%list).
Proof.
  unfold Check.check, bind, Check.on_host.
  pose proof (rules_check_inert (Check.rules c) (Check.host st)) as Hn.
  destruct (Rules.check (Check.rules c) (Check.host st)) as [[[e|res] h1] out1];
    simpl in Hn.
  - intros H. inversion H; subst. left. now exists e.
  - intros H. right. exists res, out1.
    destruct res as [[|]|]; cbn in H; inversion H; subst; auto.
Qed.

(** A prompt is accepted, declined (by an answer or by Ctrl-C), or dies at
    the end of input. *)
Lemma confirm_prints (title : option string) (prompt : string)
  (st st' : Check.state Host) (r : exn + bool) (out : list event) :
  Check.on_host (confirm title prompt) st = (r, st', out) ->
  (r = inr true /\ out = [Prompt title prompt; Accepted])
  \/ ((r = inr false \/ r = inl KeyboardInterrupt)
      /\ out = [Prompt title prompt; Declined])
  \/ (r = inl (Exception EOFError) /\ out = [Prompt title prompt]).
Proof.
  unfold Check.on_host, confirm.
  destruct (input (Check.host st)) as [[line| |] h'].
  - destruct ((line =? "") || (line =? "yes") || (line =? "y") || (line =? "Y"));
      intros H; inversion H; subst; auto.
  - intros H; inversion H; subst; auto.
  - intros H; inversion H; subst; auto.
Qed.

Lemma apply_prints (s : Solution.t Host) (st : Check.state Host) :
  Forall (fun ev => inert ev = true) (snd (Check.on_host (Solution.apply s) st)).
Proof.
  unfold Check.on_host. pose proof (solution_apply_inert s (Check.host st)) as H.
  destruct (Solution.apply s (Check.host st)) as [[r h'] out]. exact H.
Qed.

End RuleOutputs.

(** ** The retry loop *)



Lemma inert_silent (l : list event) :
  Forall (fun ev => inert ev = true) l ->
  attempts l = 0 /\ evaluations l = 0
  /\ (forall ev, inert ev = false -> ~ In ev l).
Proof.
  induction 1 as [|ev l Hev Hl [IHa [IHe IHn]]]; [now repeat split|].
  repeat split.
  - unfold attempts in *. simpl. destruct ev; simpl in *; try discriminate; exact IHa.
  - unfold evaluations in *. simpl. destruct ev; simpl in *; try discriminate; exact IHe.
  - intros x Hx [->|Hin]; [congruence | now apply (IHn x)].
Qed.




(** Taking a computation apart. *)
Lemma bind_inv {St A B} (m : Eff St A) (k : A -> Eff St B) (s s' : St)
  (r : exn + B) (out : list event) :
  bind m k s = (r, s', out) ->
  (exists e, m s = (inl e, s', out) /\ r = inl e)
  \/ (exists a s1 out1 out2,
         m s = (inr a, s1, out1) /\ k a s1 = (r, s', out2)
         /\ out = (out1 ++ out2)%list).
Proof.
  unfold bind. destruct (m s) as [[[e|a] s1] out1].
  - intros H. inversion H; subst. left. now exists e.
  - destruct (k a s1) as [[r2 s2] out2] eqn:Ek. intros H. inversion H; subst.
    right. now exists a, s1, out1, out2.
Qed.











Section RetryLoop.
Context {Host : Type} {probes : HostProbes Host} {engine : RegexEngine}.


(** The facts known of each part of an output. *)
Ltac parts :=
  repeat match goal with
    | H : Check.check _ _ = _ |- _ =>
        apply check_prints in H;
        destruct H as [(? & ? & H) | (? & ? & ? & H & ?)]
    | H : Check.on_host (confirm _ _) _ = _ |- _ =>
        apply confirm_prints in H;
        destruct H as [(? & ?) | [([?|?] & ?) | (? & ?)]]
    | H : Check.on_host (Solution.apply ?s) ?st = (_, _, ?o) |- _ =>
        let F := fresh "F" in
        pose proof (apply_prints s st) as F; rewrite H in F; cbn [snd] in F;
        clear H
    | H : Forall (fun ev => inert ev = true) _ |- _ =>
        apply inert_silent in H; destruct H as (? & ? & ?)
    | H : inr _ = inr _ |- _ => inversion H; clear H
    | H : inl _ = inl _ |- _ => inversion H; clear H
    | H : inl _ = inr _ |- _ => discriminate H
    | H : inr _ = inl _ |- _ => discriminate H
    end; subst; cbn [verdict] in *; try discriminate.

Ltac absent :=
  repeat match goal with
    | H : forall ev, inert ev = false -> ~ In ev ?l, K : In ?x ?l |- _ =>
        exfalso; exact (H x eq_refl K)
    | K : In _ (_ ++ _) |- _ => apply in_app_or in K; destruct K as [K|K]
    | K : In _ (_ :: _) |- _ => destruct K as [K|K]; [try discriminate K|]
    | K : In _ [] |- _ => destruct K
    end.








End RetryLoop.

(** ** Matching a pattern against a text *)

Section Matching.
Context {engine : RegexEngine}.

Lemma line_holds_true (chains : list string) (line : string) :
  Regex.line_holds chains line = inr true <-> satisfies chains line.
Proof.
  unfold satisfies. induction chains as [|chain rest IH]; cbn [Regex.line_holds].
  - split; [constructor | reflexivity].
  - unfold bind_raises.
    destruct (Regex.chain_holds chain line) as [e|[|]] eqn:E.
    + split; [discriminate | intros H; inversion H; subst; congruence].
    + rewrite IH. split; [now constructor | intros H; now inversion H].
    + split; [discriminate | intros H; inversion H; subst; congruence].
Qed.

Lemma check_lines_true (chains : list string) (lines : list string) :
  Regex.check_lines chains lines = inr true <->
  exists before line after,
    lines = (before ++ line :: after)%list
    /\ satisfies chains line
    /\ Forall (rejected chains) before.
Proof.
  induction lines as [|l rest IH]; cbn [Regex.check_lines].
  - split; [discriminate|]. intros (before & line & after & E & _).
    destruct before; discriminate.
  - unfold bind_raises.
    destruct (Regex.line_holds chains l) as [e|[|]] eqn:El.
    + split; [discriminate|]. intros (before & line & after & E & Hs & Hb).
      destruct before as [|b before]; inversion E; subst.
      * apply line_holds_true in Hs. congruence.
      * inversion Hb; subst. unfold rejected in *. congruence.
    + split; [|reflexivity]. intros _. exists [], l, rest.
      split; [reflexivity|]. split; [now apply line_holds_true | constructor].
    + rewrite IH. split.
      * intros (before & line & after & E & Hs & Hb).
        exists (l :: before), line, after. subst. split; [reflexivity|].
        split; [exact Hs | now constructor].
      * intros (before & line & after & E & Hs & Hb).
        destruct before as [|b before]; inversion E; subst.
        -- apply line_holds_true in Hs. congruence.
        -- inversion Hb; subst. now exists before, line, after.
Qed.

Lemma line_holds_returns (chains : list string) (line : string) :
  (forall chain, In chain chains -> exists b, Regex.chain_holds chain line = inr b) ->
  exists b, Regex.line_holds chains line = inr b.
Proof.
  induction chains as [|chain rest IH]; intros H; cbn [Regex.line_holds].
  - now exists true.
  - destruct (H chain (or_introl eq_refl)) as [b Hb]. rewrite Hb. cbn.
    destruct b; [|now exists false]. apply IH. intros c Hc. apply H. now right.
Qed.

Lemma check_lines_returns (chains : list string) (lines : list string) :
  never_raises chains lines ->
  (exists b, Regex.check_lines chains lines = inr b)
  /\ (Regex.check_lines chains lines = inr true <->
      exists line, In line lines /\ satisfies chains line).
Proof.
  induction lines as [|l rest IH]; intros Hn; cbn [Regex.check_lines].
  - split; [now exists false|]. split; [discriminate | intros (line & [] & _)].
  - destruct (line_holds_returns chains l) as [b Hb].
    { intros chain Hc. apply (Hn l chain); [now left | exact Hc]. }
    rewrite Hb. cbn. destruct b.
    + split; [now exists true|]. split; [|reflexivity]. intros _.
      exists l. split; [now left | now apply line_holds_true].
    + destruct IH as [IHr IHt].
      { intros line chain Hl Hc. apply Hn; [now right | exact Hc]. }
      split; [exact IHr|]. rewrite IHt. split.
      * intros (line & Hl & Hs). exists line. split; [now right | exact Hs].
      * intros (line & [->|Hl] & Hs); [|now exists line].
        apply line_holds_true in Hs. congruence.
Qed.

Lemma literal_chain_holds (chain line : string) :
  literal chain = true -> Regex.chain_holds chain line = inr (chain =? line).
Proof.
  unfold literal, Regex.chain_holds. intros H.
  apply andb_prop in H. destruct H as [H Hn]. apply andb_prop in H. destruct H as [Hr Hx].
  apply negb_true_iff in Hr, Hx, Hn. now rewrite Hr, Hx, Hn.
Qed.

(** C5, amended.  [Regex.check] returns True exactly when some line of the
    text (split at line feeds) satisfies every chain and every line
    before it was rejected without an error -- an error raised by a chain
    on an earlier line leaves [check] instead.  When no chain raises on
    the text, [check] returns, and it returns True exactly when at least
    one line satisfies every chain.  A chain of none of the forms [r:],
    [!r:], [n:] holds on a line exactly when it is equal to the whole
    line: the pattern "abc" matches a text with a line "abc", and matches
    neither "xabc" nor "abcx". *)
Theorem check_matches_some_line :
  (forall (rx : Regex.t) (text : string),
      Regex.check rx text = inr true <->
      exists before line after,
        PyStr.split text NL = (before ++ line :: after)%list
        /\ satisfies (Regex.chains rx) line
        /\ Forall (rejected (Regex.chains rx)) before)
  /\ (forall (rx : Regex.t) (text : string),
         never_raises (Regex.chains rx) (PyStr.split text NL) ->
         (exists b, Regex.check rx text = inr b)
         /\ (Regex.check rx text = inr true <->
             exists line, In line (PyStr.split text NL)
                          /\ satisfies (Regex.chains rx) line))
  /\ (forall chain line,
         literal chain = true ->
         Regex.chain_holds chain line = inr (chain =? line)
         /\ (satisfies [chain] line <-> chain = line))
  /\ (Regex.chains (Regex.init "abc") = ["abc"]
      /\ (forall text, Regex.check (Regex.init "abc") text = inr true <->
                       In "abc" (PyStr.split text NL))
      /\ Regex.check (Regex.init "abc") "abc" = inr true
      /\ Regex.check (Regex.init "abc") "xabc" = inr false
      /\ Regex.check (Regex.init "abc") "abcx" = inr false).
Proof.
  assert (Lit : forall chain line, literal chain = true ->
                 (satisfies [chain] line <-> chain = line)).
  { intros chain line H. unfold satisfies. split.
    - intros Hs. inversion Hs as [|? ? Hc _]; subst.
      rewrite (literal_chain_holds _ _ H) in Hc. inversion Hc.
      now apply String.eqb_eq.
    - intros ->. constructor; [|constructor].
      rewrite (literal_chain_holds _ _ H). now rewrite String.eqb_refl. }
  split; [|split; [|split]].
  - intros rx text. apply check_lines_true.
  - intros rx text Hn. now apply check_lines_returns.
  - intros chain line H. split; [now apply literal_chain_holds | now apply Lit].
  - split; [reflexivity|]. split; [|repeat split].
    intros text. unfold Regex.check. change (Regex.chains (Regex.init "abc")) with ["abc"].
    destruct (check_lines_returns ["abc"] (PyStr.split text NL)) as [_ Ht].
    { intros line chain _ [<-|[]]. eexists. now apply literal_chain_holds. }
    rewrite Ht. split.
    + intros (line & Hl & Hs). apply (Lit "abc" line eq_refl) in Hs. now subst.
    + intros Hl. exists "abc". split; [exact Hl | now apply (Lit "abc" "abc" eq_refl)].
Qed.

End Matching.

(** ** Dots in a pattern *)

(** *** Facts on [replace], [split] and [strip] *)

Lemma prefix_app (a s : string) : String.prefix a (a ++ s) = true.
Proof.
  induction a as [|c a IH]; simpl; [now destruct s|].
  destruct (ascii_dec c c); [exact IH | congruence].
Qed.

Lemma prefix_miss (a c : ascii) (old s : string) :
  a <> c -> String.prefix (String a old) (String c s) = false.
Proof. intros H. simpl. destruct (ascii_dec a c); [contradiction | reflexivity]. Qed.




Lemma occurs_app (a : ascii) (s t : string) :
  occurs a (s ++ t) = occurs a s || occurs a t.
Proof. induction s as [|c s IH]; simpl; [reflexivity | now rewrite IH, orb_assoc]. Qed.

(** A text without the first character of the separator is one piece. *)
Lemma split_from_one_piece (a : ascii) (sep s : string) :
  occurs a s = false ->
  forall cur, PyStr.split_from (String a sep) 0 cur s = [cur ++ s].
Proof.
  induction s as [|c s IH]; intros H cur; cbn [PyStr.split_from].
  - now rewrite string_app_nil_r.
  - simpl in H. apply orb_false_iff in H. destruct H as [Hc Hs].
    rewrite prefix_miss by (intros ->; now rewrite Ascii.eqb_refl in Hc).
    rewrite IH by exact Hs. now rewrite string_app_assoc.
Qed.



(** *** Patterns of ordinary characters and dots *)








(** *** What [re] makes of the compiled pattern *)











(** ** The text utilities *)

(** *** [split] and [join] *)

Lemma prefix_drop (p s : string) :
  String.prefix p s = true -> s = p ++ PyStr.drop (String.length p) s.
Proof.
  revert s. induction p as [|a p IH]; intros s H; [now destruct s|].
  destruct s as [|c s]; simpl in H; [discriminate|].
  destruct (ascii_dec a c) as [->|]; [|discriminate].
  simpl. now rewrite <- IH.
Qed.

Lemma join_cons (sep x : string) (l : list string) :
  l <> [] -> PyText.join sep (x :: l) = x ++ sep ++ PyText.join sep l.
Proof. destruct l; [congruence | reflexivity]. Qed.

Lemma drop_0 (s : string) : PyStr.drop 0 s = s.
Proof. now destruct s. Qed.

Lemma join_split_from (a : ascii) (sep' : string) :
  let sep := String a sep' in
  forall s k cur,
    PyText.join sep (PyStr.split_from sep k cur s) = cur ++ PyStr.drop k s.
Proof.
  intros sep. induction s as [|c s IH]; intros k cur; cbn [PyStr.split_from].
  - destruct k; simpl; now rewrite string_app_nil_r.
  - destruct k as [|k]; [|exact (IH k cur)].
    destruct (String.prefix sep (String c s)) eqn:E.
    + rewrite join_cons by apply split_from_nonempty. rewrite IH.
      apply prefix_drop in E. unfold sep in *. cbn [String.length] in *.
      rewrite Nat.sub_succ, Nat.sub_0_r. cbn [PyStr.drop append] in *.
      f_equal. symmetry. exact E.
    + rewrite IH, drop_0, string_app_assoc. reflexivity.
Qed.

(** Joining the pieces of a text with the separator gives the text back. *)
Lemma join_split (s sep : string) :
  sep <> "" -> PyText.join sep (PyStr.split s sep) = s.
Proof.
  destruct sep as [|a sep']; [congruence|]. intros _.
  unfold PyStr.split. now rewrite join_split_from, drop_0.
Qed.

(** No piece holds the separating character. *)
Lemma split_from_pieces (a : ascii) (s : string) :
  forall cur,
    occurs a cur = false ->
    Forall (fun piece => occurs a piece = false)
      (PyStr.split_from (String a "") 0 cur s).
Proof.
  induction s as [|c s IH]; intros cur Hc; cbn [PyStr.split_from].
  - now constructor.
  - cbn [String.prefix]. destruct (ascii_dec a c) as [->|Hn].
    + destruct s; (constructor; [exact Hc | now apply IH]).
    + apply IH. rewrite occurs_app, Hc. simpl.
      destruct (Ascii.eqb_spec a c); [contradiction | reflexivity].
Qed.

Lemma split_pieces (a : ascii) (s : string) :
  Forall (fun piece => occurs a piece = false) (PyStr.split s (String a "")).
Proof. now apply split_from_pieces. Qed.

Lemma split_from_piece (a : ascii) (x rest : string) :
  occurs a x = false ->
  forall cur,
    PyStr.split_from (String a "") 0 cur (x ++ String a rest)
    = (cur ++ x) :: PyStr.split_from (String a "") 0 "" rest.
Proof.
  induction x as [|c x IH]; intros H cur.
  - cbn [append PyStr.split_from String.prefix].
    destruct (ascii_dec a a); [|congruence].
    rewrite string_app_nil_r. now destruct rest.
  - simpl in H. apply orb_false_iff in H. destruct H as [Hc Hx].
    cbn [append PyStr.split_from]. rewrite prefix_miss
      by (intros ->; now rewrite Ascii.eqb_refl in Hc).
    rewrite IH by exact Hx. now rewrite string_app_assoc.
Qed.

(** Splitting what was joined gives the pieces back, when none of them
    holds the separating character. *)
Lemma split_join (a : ascii) (pieces : list string) :
  pieces <> [] ->
  Forall (fun piece => occurs a piece = false) pieces ->
  PyStr.split (PyText.join (String a "") pieces) (String a "") = pieces.
Proof.
  induction pieces as [|x l IH]; [congruence|]. intros _ H.
  inversion H as [|? ? Hx Hl]; subst. destruct l as [|y l].
  - unfold PyStr.split. simpl PyText.join.
    now rewrite (split_from_one_piece a "" x Hx "").
  - rewrite join_cons by discriminate. unfold PyStr.split.
    change (String a "" ++ PyText.join (String a "") (y :: l))
      with (String a (PyText.join (String a "") (y :: l))).
    rewrite split_from_piece by exact Hx. cbn [append]. f_equal.
    apply IH; [discriminate | exact Hl].
Qed.

(** *** [wrap_text] *)

Lemma solid_app (s t : string) : solid (s ++ t) = solid s ++ solid t.
Proof.
  induction s as [|c s IH]; simpl; [reflexivity|].
  destruct (PyStr.isspace c); simpl; now rewrite IH.
Qed.

Lemma solid_wrap_line (n : Z) (line : string) :
  forall add_lf i, solid (Text.wrap_line n add_lf i line) = solid line.
Proof.
  induction line as [|c line IH]; intros add_lf i; cbn [Text.wrap_line]; [reflexivity|].
  destruct (add_lf || (n - 1 <=? Z.of_nat i)%Z).
  - destruct (PyStr.isspace c) eqn:E.
    + rewrite solid_app, IH. cbn [solid]. rewrite E. reflexivity.
    + cbn [solid]. rewrite E, IH. reflexivity.
  - cbn [solid]. now rewrite IH.
Qed.

Lemma solid_lstrip (s : string) : solid (PyStr.lstrip s) = solid s.
Proof.
  induction s as [|c s IH]; simpl; [reflexivity|].
  destruct (PyStr.isspace c) eqn:E; [exact IH|]. simpl. now rewrite E.
Qed.

Lemma solid_rstrip (s : string) : solid (PyStr.rstrip s) = solid s.
Proof.
  induction s as [|c s IH]; [reflexivity|]. cbn [PyStr.rstrip solid].
  destruct (PyStr.rstrip s) as [|d r] eqn:R.
  - rewrite <- IH. destruct (PyStr.isspace c) eqn:E; simpl; now rewrite ?E.
  - cbn [solid]. rewrite <- IH. reflexivity.
Qed.

Lemma solid_strip (s : string) : solid (PyStr.strip s) = solid s.
Proof. unfold PyStr.strip. now rewrite solid_rstrip, solid_lstrip. Qed.

Lemma solid_prepend (s : string) : solid (Text.prepend_of s) = "".
Proof.
  induction s as [|c s IH]; simpl; [reflexivity|].
  destruct (PyStr.isspace c) eqn:E; [|reflexivity]. simpl. now rewrite E.
Qed.

(** Joining with blanks adds no other character. *)
Lemma solid_join (sep : string) (pieces : list string) :
  solid sep = "" ->
  solid (PyText.join sep pieces) = solid (PyText.join "" pieces).
Proof.
  intros Hs. induction pieces as [|x l IH]; [reflexivity|].
  destruct l as [|y l]; [reflexivity|].
  rewrite (join_cons sep), (join_cons "") by discriminate.
  rewrite !solid_app, Hs, IH. reflexivity.
Qed.

Lemma solid_join_map (f : string -> string) (pieces : list string) :
  (forall x, solid (f x) = solid x) ->
  solid (PyText.join "" (map f pieces)) = solid (PyText.join "" pieces).
Proof.
  intros Hf. induction pieces as [|x l IH]; [reflexivity|].
  destruct l as [|y l]; [apply Hf|].
  cbn [map]. rewrite (join_cons "" (f x)), (join_cons "" x) by discriminate.
  cbn [map] in IH. rewrite !solid_app, Hf, IH. reflexivity.
Qed.

(** X1.  Wrapping a text changes its blanks only: the characters that are
    no blanks come out all, and in their order, so no word is cut and
    none is lost. *)
Theorem wrap_text_keeps_the_words :
  forall (text : string) (characters_per_line : Z),
    solid (Text.wrap_text text characters_per_line) = solid text.
Proof.
  intros text n. unfold Text.wrap_text.
  rewrite (solid_join NL) by reflexivity.
  rewrite solid_join_map.
  - rewrite <- (solid_join NL) by reflexivity. now rewrite join_split by discriminate.
  - intros x. rewrite solid_app, solid_prepend. cbn [append].
    rewrite solid_join by (now rewrite solid_app, solid_prepend).
    rewrite <- (solid_join NL) by reflexivity.
    now rewrite join_split, solid_wrap_line, solid_strip by discriminate.
Qed.

(** *** Where [wrap_text] breaks a line *)






















(** *** [indent] *)

(** The level of indentation [indent] reads off a line. *)
Lemma groups_cases (line : string) :
  (exists rest, line = String "009" rest
                /\ Text.groups line
                   = (String "009" (fst (Text.groups rest)), snd (Text.groups rest)))
  \/ (exists rest, line = "    " ++ rest
                   /\ Text.groups line
                      = ("    " ++ fst (Text.groups rest), snd (Text.groups rest)))
  \/ Text.groups line = ("", line).
Proof.
  destruct line as [|c rest]; [now right; right|]. cbn [Text.groups].
  destruct (Ascii.eqb_spec c "009") as [->|Hc].
  - left. exists rest. split; [reflexivity|]. now destruct (Text.groups rest).
  - destruct rest as [|c2 [|c3 [|c4 rest4]]]; try (now right; right).
    destruct (Ascii.eqb_spec c " ") as [->|]; [|now right; right].
    destruct (Ascii.eqb_spec c2 " ") as [->|]; [|now right; right].
    destruct (Ascii.eqb_spec c3 " ") as [->|]; [|now right; right].
    destruct (Ascii.eqb_spec c4 " ") as [->|]; [|now right; right].
    right; left. exists rest4. split; [reflexivity|]. cbn [andb].
    now destruct (Text.groups rest4).
Qed.

Lemma string_length_ind (P : string -> Prop) :
  (forall s, (forall t, String.length t < String.length s -> P t) -> P s) ->
  forall s, P s.
Proof.
  intros H s. remember (String.length s) as n eqn:E. revert s E.
  induction n as [n IH] using lt_wf_ind. intros s ->.
  apply H. intros t Ht. exact (IH _ Ht t eq_refl).
Qed.

(** What is left of a line after its indentation starts with no unit of
    indentation, is the end of the line, and holds no line feed if the
    line holds none. *)
Lemma groups_text (line : string) :
  Text.groups (snd (Text.groups line)) = ("", snd (Text.groups line))
  /\ (occurs LF line = false -> occurs LF (snd (Text.groups line)) = false).
Proof.
  induction line as [line IH] using string_length_ind.
  destruct (groups_cases line) as [[rest [-> E]] | [[rest [-> E]] | E]];
    rewrite E; cbn [snd].
  - destruct (IH rest) as [H1 H2]; [simpl; lia|]. split; [exact H1|].
    simpl. exact H2.
  - destruct (IH rest) as [H1 H2]; [simpl; lia|]. split; [exact H1|].
    simpl. exact H2.
  - split; [exact E | trivial].
Qed.

Lemma groups_times (spaces : bool) (n : nat) (text : string) :
  Text.groups text = ("", text) ->
  Text.groups (PyText.times (unit_of spaces) n ++ text)
  = (PyText.times (unit_of spaces) n, text).
Proof.
  intros H. induction n as [|n IH]; [exact H|].
  cbn [PyText.times]. rewrite string_app_assoc.
  destruct spaces; cbn [unit_of PyText.times PyText.TAB append] in *.
  - cbn [Text.groups Ascii.eqb Bool.eqb andb]. now rewrite IH.
  - cbn [Text.groups]. rewrite Ascii.eqb_refl. now rewrite IH.
Qed.

Lemma count_from_skip (sub t s : string) :
  PyText.count_from sub (String.length t) (t ++ s) = PyText.count_from sub 0 s.
Proof. induction t as [|c t IH]; simpl; [reflexivity | exact IH]. Qed.

Lemma count_hit (a : ascii) (sub s : string) :
  PyText.count (String a sub ++ s) (String a sub)
  = S (PyText.count s (String a sub)).
Proof.
  unfold PyText.count. change (String a sub ++ s) with (String a (sub ++ s)).
  cbn [PyText.count_from].
  change (String a (sub ++ s)) with (String a sub ++ s). rewrite prefix_app.
  replace (String.length (String a sub) - 1) with (String.length sub)
    by (cbn [String.length]; lia).
  now rewrite count_from_skip.
Qed.

Lemma count_miss (a c : ascii) (sub s : string) :
  a <> c ->
  PyText.count (String c s) (String a sub) = PyText.count s (String a sub).
Proof.
  intros H. unfold PyText.count. cbn [PyText.count_from].
  now rewrite prefix_miss by exact H.
Qed.

Lemma count_times (spaces : bool) (n : nat) :
  PyText.count (PyText.times (unit_of spaces) n) "    "
  + PyText.count (PyText.times (unit_of spaces) n) PyText.TAB = n.
Proof.
  induction n as [|n IH]; [reflexivity|]. cbn [PyText.times].
  destruct spaces; cbn [unit_of] in *.
  - change (PyText.times " " 4) with "    " in *. rewrite count_hit.
    cbn [append]. unfold PyText.TAB.
    rewrite !count_miss by discriminate. fold PyText.TAB. lia.
  - unfold PyText.TAB at 1 3 4. rewrite count_hit. cbn [append].
    rewrite count_miss by discriminate. fold PyText.TAB. lia.
Qed.

Lemma occurs_times (spaces : bool) (n : nat) :
  occurs LF (PyText.times (unit_of spaces) n) = false.
Proof.
  induction n as [|n IH]; [reflexivity|]. cbn [PyText.times].
  rewrite occurs_app, IH. now destruct spaces.
Qed.

Lemma indent_lines (text : string) (level : Z) (spaces : bool) :
  Text.indent text level spaces
  = PyText.join NL (map (indent_line level spaces) (PyStr.split text NL)).
Proof. reflexivity. Qed.

Lemma indent_line_spec (level : Z) (spaces : bool) (line : string) :
  indent_line level spaces line
  = if (Z.of_nat (level_of line) + level <=? 0)%Z then snd (Text.groups line)
    else PyText.times (unit_of spaces) (Z.to_nat (Z.of_nat (level_of line) + level))
         ++ snd (Text.groups line).
Proof. unfold indent_line, level_of. now destruct (Text.groups line). Qed.

Lemma level_of_times (spaces : bool) (n : nat) (text : string) :
  Text.groups text = ("", text) ->
  level_of (PyText.times (unit_of spaces) n ++ text) = n.
Proof.
  intros H. unfold level_of. rewrite (groups_times spaces n text H).
  apply count_times.
Qed.

Lemma level_of_text (text : string) :
  Text.groups text = ("", text) -> level_of text = 0.
Proof. intros H. unfold level_of. now rewrite H. Qed.

Lemma indent_line_twice (a b : Z) (s1 s2 : bool) (line : string) :
  (0 <= a)%Z ->
  indent_line b s2 (indent_line a s1 line) = indent_line (a + b) s2 line.
Proof.
  intros Ha. rewrite (indent_line_spec a), (indent_line_spec (a + b)).
  destruct (groups_text line) as [Hg _].
  destruct (Z.leb_spec (Z.of_nat (level_of line) + a) 0) as [Hle|Hgt].
  - rewrite indent_line_spec, (level_of_text _ Hg), Hg. cbn [fst snd].
    replace (Z.of_nat (level_of line) + (a + b))%Z with b by lia.
    reflexivity.
  - rewrite indent_line_spec, (level_of_times s1 _ _ Hg),
      (groups_times s1 _ _ Hg). cbn [fst snd].
    rewrite Z2Nat.id by lia.
    now replace (Z.of_nat (level_of line) + a + b)%Z
      with (Z.of_nat (level_of line) + (a + b))%Z by lia.
Qed.

Lemma indent_line_no_LF (level : Z) (spaces : bool) (line : string) :
  occurs LF line = false -> occurs LF (indent_line level spaces line) = false.
Proof.
  intros H. rewrite indent_line_spec. destruct (groups_text line) as [_ Hg].
  destruct (_ <=? 0)%Z; [now apply Hg|].
  now rewrite occurs_app, occurs_times, Hg.
Qed.

(** X2.  Indenting a text that was indented by [a] levels, [a] not
    negative, by [b] more is indenting it by [a + b] levels at once,
    whichever unit (tab or four spaces) the first pass wrote; so undoing
    an indentation gives the text back with its own indentation written
    in one unit, and indenting by 0 twice is indenting by 0 once. *)
Theorem indent_twice :
  forall (text : string) (a b : Z) (spaces1 spaces2 : bool),
    (0 <= a)%Z ->
    Text.indent (Text.indent text a spaces1) b spaces2
    = Text.indent text (a + b) spaces2.
Proof.
  intros text a b s1 s2 Ha. rewrite !indent_lines.
  unfold NL at 2. rewrite split_join.
  - rewrite map_map. f_equal. apply map_ext. intros line.
    now apply indent_line_twice.
  - pose proof (split_from_nonempty NL text 0 "") as H. unfold PyStr.split.
    destruct (PyStr.split_from NL 0 "" text); [congruence | discriminate].
  - apply Forall_forall. intros x Hx. apply in_map_iff in Hx.
    destruct Hx as [line [<- Hl]]. apply indent_line_no_LF.
    pose proof (split_pieces LF text) as Hp.
    rewrite Forall_forall in Hp. now apply Hp.
Qed.

(** ** Numerals *)

(** [int] reads the digits of a numeral as [Nat.of_uint] does. *)
Lemma digits_numeral (d : Decimal.uint) :
  forall (acc : nat) (after_digit : bool),
    d <> Decimal.Nil \/ after_digit = true ->
    PyInt.digits (Z.of_nat acc) after_digit (NilEmpty.string_of_uint d)
    = Some (Z.of_nat (Nat.of_uint_acc d acc)).
Proof.
  induction d as [|d IH|d IH|d IH|d IH|d IH|d IH|d IH|d IH|d IH|d IH];
    intros acc after_digit H.
  1: { destruct H as [H|H]; [congruence|]. subst. reflexivity. }
  all: cbn [NilEmpty.string_of_uint PyInt.digits Nat.of_uint_acc];
    match goal with
    | |- context [PyInt.isdigit ?c] =>
        change (PyInt.isdigit c) with true; cbv iota
    end;
    rewrite <- (IH _ true) by (now right); f_equal;
    rewrite ?Nat2Z.inj_succ, Nat.tail_mul_spec, Nat2Z.inj_mul;
    unfold PyInt.digit_val;
    match goal with
    | |- context [Z.of_nat (nat_of_ascii ?c - 48)] =>
        let v := eval vm_compute in (Z.of_nat (nat_of_ascii c - 48)) in
        change (Z.of_nat (nat_of_ascii c - 48)) with v
    end;
    change (Z.of_nat 10) with 10%Z; lia.
Qed.

Lemma digits_of_numeral (n : nat) :
  PyInt.digits 0 false (PyText.str_of_nat n) = Some (Z.of_nat n).
Proof.
  unfold PyText.str_of_nat.
  pose proof (DecimalNat.Unsigned.of_to n) as Hn. unfold Nat.of_uint in Hn.
  assert (Hd : Nat.to_uint n <> Decimal.Nil).
  { intros E. rewrite E in Hn. cbn in Hn. subst n. discriminate E. }
  rewrite <- Hn at 2.
  now rewrite <- (digits_numeral (Nat.to_uint n) 0 false) by (now left).
Qed.

(** [int(str(n))] is [n]. *)
Lemma parse_numeral (n : nat) : PyInt.parse (PyText.str_of_nat n) = Some (Z.of_nat n).
Proof.
  rewrite <- digits_of_numeral. unfold PyText.str_of_nat.
  destruct (Nat.to_uint n); reflexivity.
Qed.

(** [int] reads a numeral after a minus sign as the opposite number. *)
Lemma parse_minus_numeral (n : nat) :
  PyInt.parse ("-" ++ PyText.str_of_nat n) = Some (- Z.of_nat n)%Z.
Proof.
  change (PyInt.parse ("-" ++ PyText.str_of_nat n))
    with (option_map Z.opp (PyInt.digits 0 false (PyText.str_of_nat n))).
  now rewrite digits_of_numeral.
Qed.


(** Indexing a list as Python does, from the front and from the end. *)
Lemma index_front {A} (l : list A) (n : nat) :
  PyText.index l (Z.of_nat n) = nth_error l n.
Proof.
  unfold PyText.index. destruct (Z.ltb_spec (Z.of_nat n) 0); [lia|].
  now rewrite Nat2Z.id.
Qed.

Lemma index_back {A} (l : list A) (k : nat) :
  1 <= k <= List.length l ->
  PyText.index l (- Z.of_nat k) = nth_error l (List.length l - k).
Proof.
  intros H. unfold PyText.index.
  destruct (Z.ltb_spec (- Z.of_nat k) 0); [|lia].
  destruct (Z.ltb_spec (- Z.of_nat k) (- Z.of_nat (List.length l))); [lia|].
  f_equal. lia.
Qed.

(** ** The registry functions *)

Section RegistryFacts.
Context {Host : Type} {probes : HostProbes Host} {pathlib : PathLib}.

Lemma bind_pure {A B} (a : A) (k : A -> Eff Host B) (h : Host) :
  bind (fun h => (inr a, h, [])) k h = k a h.
Proof. unfold bind. now destruct (k a h) as [[r h'] out]. Qed.

Lemma bind_assoc {A B C} (m : Eff Host A) (f : A -> Eff Host B)
  (g : B -> Eff Host C) (h : Host) :
  bind (bind m f) g h = bind m (fun a => bind (f a) g) h.
Proof.
  unfold bind. destruct (m h) as [[[e|a] h1] out1]; [reflexivity|].
  destruct (f a h1) as [[[e|b] h2] out2]; [reflexivity|].
  destruct (g b h2) as [[r h3] out3]. now rewrite app_assoc.
Qed.

(** X3.  [execute] asks before it runs: without [ask] it is the call the
    rules make, printing nothing; with [ask] the command is handed to the
    shell only after the answer was a yes, and its output is printed;
    after a decline the empty string is returned, and after a decline,
    Ctrl-C or the end of input the host is as reading the answer left
    it: the command was not run. *)
Theorem execute_asks_first :
  forall (cmd : string) (timeout : option string) (h : Host),
    Registry.execute cmd false timeout h
    = (let '(r, h') := execute cmd timeout h in (shell_result r, h', []))
    /\ Registry.execute cmd true timeout h
       = (let question := Prompt None (cmd ++ NL ++ "Execute?") in
          match input h with
          | (Typed input_res, h1) =>
              if accepts input_res then
                let '(r, h') := execute cmd timeout h1 in
                (shell_result r, h',
                 [question; Accepted]
                   ++ match r with inr output => [ActOutput output] | inl _ => [] end)%list
              else (inr "", h1, [question; Declined])
          | (Interrupt, h1) => (inl KeyboardInterrupt, h1, [question; Declined])
          | (EndOfInput, h1) => (inl (Exception EOFError), h1, [question])
          end).
Proof.
  intros cmd timeout h. split.
  - unfold Registry.execute, execute, bind, ret, raise, print.
    destruct (popen_read (shell_line cmd timeout) h) as [output h'].
    now destruct (endswith output ("BASH_TIMEOUT" ++ NL)).
  - unfold Registry.execute, execute, confirm, accepts, bind, ret, raise, print.
    destruct (input h) as [[input_res| |] h1]; try reflexivity.
    destruct ((input_res =? "") || (input_res =? "yes") || (input_res =? "y")
              || (input_res =? "Y")); [|reflexivity].
    cbn [negb app].
    destruct (popen_read (shell_line cmd timeout) h1) as [output h'].
    now destruct (endswith output ("BASH_TIMEOUT" ++ NL)).
Qed.


(** The lines of the menu carry the positions of the choices. *)
Lemma enumerate_nth (choices : list string) :
  forall (i n : nat) (choice : string),
    nth_error choices n = Some choice ->
    nth_error (Registry.enumerate i choices) n
    = Some (PyText.str_of_nat (i + n) ++ ") " ++ choice).
Proof.
  induction choices as [|c choices IH]; intros i [|n] choice H;
    cbn [nth_error Registry.enumerate] in *; try discriminate.
  - inversion H; subst. now rewrite Nat.add_0_r.
  - rewrite (IH (S i) n choice H). do 3 f_equal. lia.
Qed.

(** X20.  The number in front of a choice in the menu of [choose] is the
    one to type for it: the answer comes back as that number and the
    choice is reported as the selection.  A numeral with a minus sign
    counts from the end, as the indices of Python do, though no line of
    the menu shows it: [-k] selects the [k]-th choice from the end and
    comes back as [-k]. *)
Theorem choose_selects_the_numbered_choice :
  forall (title : option string) (prompt : string) (choices : list string)
    (h : Host) (n : nat) (choice : string),
    nth_error choices n = Some choice ->
    let '(r, _, out) := Registry.choose title prompt choices h in
    nth_error (Registry.enumerate 0 choices) n
    = Some (PyText.str_of_nat n ++ ") " ++ choice)
    /\ (fst (input h) = Typed (PyText.str_of_nat n) ->
        r = inr (VInt (Z.of_nat n))
        /\ ends_with (ActOutput ("Selected: " ++ choice)) out)
    /\ (fst (input h) = Typed ("-" ++ PyText.str_of_nat (List.length choices - n)) ->
        r = inr (VInt (- Z.of_nat (List.length choices - n)))
        /\ ends_with (ActOutput ("Selected: " ++ choice)) out).
Proof.
  intros title prompt choices h n choice Hn.
  assert (Hlt : n < List.length choices)
    by (apply nth_error_Some; congruence).
  unfold Registry.choose. destruct (input h) as [i h1]; cbn [fst].
  destruct i as [typed| |].
  2, 3: (split; [exact (enumerate_nth choices 0 n choice Hn)|];
         split; intros H; discriminate H).
  destruct (PyInt.parse typed) as [z|] eqn:Hp.
  - split; [exact (enumerate_nth choices 0 n choice Hn)|]. split; intros H.
    + inversion H; subst typed. rewrite parse_numeral in Hp.
      inversion Hp; subst z. rewrite index_front, Hn.
      split; [reflexivity | eexists; reflexivity].
    + inversion H; subst typed.
      pose proof (eq_trans (eq_sym Hp)
                    (parse_minus_numeral (List.length choices - n))) as Hz.
      inversion Hz; subst z. rewrite index_back by lia.
      replace (List.length choices - (List.length choices - n)) with n by lia.
      rewrite Hn. split; [reflexivity | eexists; reflexivity].
  - split; [exact (enumerate_nth choices 0 n choice Hn)|]. split; intros H.
    + inversion H; subst typed. rewrite parse_numeral in Hp. discriminate Hp.
    + inversion H; subst typed.
      pose proof (eq_trans (eq_sym Hp)
                    (parse_minus_numeral (List.length choices - n))) as Hz.
      discriminate Hz.
Qed.

Lemma bind_exists {B} (path : string) (k : bool -> Eff Host B) (h : Host) :
  bind (Registry.exists_ path) k h = k (path_exists h path) h.
Proof.
  unfold bind, Registry.exists_.
  now destruct (k (path_exists h path) h) as [[r h'] out].
Qed.

Lemma bind_print {B} (ev : event) (k : unit -> Eff Host B) (h : Host) :
  bind (print ev) k h = (let '(r, h', out) := k tt h in (r, h', ev :: out)).
Proof. reflexivity. Qed.

Lemma backup_loop_spec (path : string) :
  forall (range : list nat) (backup_path : string) (h : Host),
    exists n,
      Forall (fun p => path_exists h p = true)
        (firstn n (tried path range backup_path))
      /\ ((exists target,
              nth_error (tried path range backup_path) n = Some target
              /\ path_exists h target = false
              /\ Registry.backup_loop path (path_parent path) (path_name path)
                   range backup_path h
                 = (prints (repeat (already_exists path) n) ;;
                    Registry.execute (Registry.cp path target) true None ;;
                    ret tt) h)
          \/ (n = List.length range
              /\ Registry.backup_loop path (path_parent path) (path_name path)
                   range backup_path h
                 = (prints (repeat (already_exists path) n) ;;
                    print all_taken ;;
                    Registry.execute
                      (Registry.cp path (beside path ".backup")) true None ;;
                    ret tt) h)).
Proof.
  induction range as [|i rest IH]; intros bp h.
  - exists 0. split; [constructor|]. right. split; [reflexivity|].
    cbn [repeat prints Registry.backup_loop]. now rewrite bind_ret_l.
  - assert (T : tried path (i :: rest) bp = bp :: tried path rest (numbered path i))
      by reflexivity.
    rewrite T. cbn [Registry.backup_loop]. rewrite bind_exists.
    destruct (path_exists h bp) eqn:E.
    + destruct (IH (numbered path i) h) as [n [Hall Hn]]. exists (S n).
      split; [cbn [firstn]; now constructor|].
      cbn [repeat prints nth_error].
      fold (beside path (".backup." ++ PyText.str_of_nat i)).
      fold (numbered path i).
      destruct Hn as [[target [Ht [Hf Heq]]] | [Hlen Heq]].
      * left. exists target. split; [exact Ht|]. split; [exact Hf|].
        now rewrite bind_assoc, !bind_print, Heq.
      * right. split; [now rewrite Hlen|].
        now rewrite bind_assoc, !bind_print, Heq.
    + exists 0. split; [constructor|]. left. exists bp.
      split; [reflexivity|]. split; [exact E|].
      cbn [repeat prints]. now rewrite bind_ret_l.
Qed.

Lemma tried_all (path : string) :
  tried path (seq 0 1000) (beside path ".backup") = candidates path.
Proof.
  unfold tried, candidates. rewrite length_seq.
  change 1000 with (S 999) at 1. rewrite firstn_cons. f_equal.
Qed.

(** X5.  [backup] does nothing for a path that does not exist.  For one
    that exists it copies to the first name that is free among the
    candidates -- the main backup, then the numbered ones from 0 to 998 --
    after a warning for each name that is taken, and through [execute]
    with [ask], so only after a yes; a backup that exists is written
    over only when all the 1000 names are taken, and then it is the main
    one. *)
Theorem backup_spares_existing_backups :
  forall (path : string) (h : Host),
    (path_exists h path = false -> Registry.backup path h = (inr tt, h, []))
    /\ (path_exists h path = true ->
        exists n,
          Forall (fun p => path_exists h p = true) (firstn n (candidates path))
          /\ ((exists target,
                  nth_error (candidates path) n = Some target
                  /\ path_exists h target = false
                  /\ Registry.backup path h
                     = (Registry.note None ("Backing up " ++ path) ;;
                        prints (repeat (already_exists path) n) ;;
                        Registry.execute (Registry.cp path target) true None ;;
                        ret tt) h)
              \/ (n = 1000
                  /\ Registry.backup path h
                     = (Registry.note None ("Backing up " ++ path) ;;
                        prints (repeat (already_exists path) n) ;;
                        print all_taken ;;
                        Registry.execute
                          (Registry.cp path (beside path ".backup")) true None ;;
                        ret tt) h))).
Proof.
  intros path h. unfold Registry.backup, Path. rewrite bind_exists. split.
  - intros ->. reflexivity.
  - intros ->. cbn [negb].
    destruct (backup_loop_spec path (seq 0 1000) (beside path ".backup") h)
      as [n [Hall Hn]].
    rewrite tried_all in Hall, Hn. exists n. split; [exact Hall|].
    unfold Registry.note. fold (beside path ".backup").
    destruct Hn as [[target [Ht [Hf Heq]]] | [Hlen Heq]].
    + left. exists target. split; [exact Ht|]. split; [exact Hf|].
      now rewrite !bind_assoc, !bind_ret_l, !bind_print, Heq.
    + right. rewrite length_seq in Hlen. split; [exact Hlen|].
      now rewrite !bind_assoc, !bind_ret_l, !bind_print, Heq.
Qed.

End RegistryFacts.

(** ** Building a solution *)

Section BuildFacts.
Context {Host : Type} (globals : string -> option (Build.global Host)).

(** Induction on the acts of a policy: the property may be assumed of
    every act of every response. *)
Lemma act_nested_ind (P : Policy.act -> Prop) :
  (forall function args kwargs on_response,
      (forall responses, on_response = Some responses ->
         Forall (fun response =>
                   forall acts, snd response = Some acts -> Forall P acts)
           responses) ->
      P (Policy.ActDict function args kwargs on_response)) ->
  forall a, P a.
Proof.
  intros step. fix IH 1. intros [function args kwargs on_response].
  apply step.
  destruct on_response as [rs|]; [|intros responses E; discriminate].
  assert (H : Forall (fun response =>
                        forall acts, snd response = Some acts -> Forall P acts) rs).
  { induction rs as [|[v acts] rest IHrest]; constructor; [|exact IHrest].
    destruct acts as [l|]; [|intros acts' E; discriminate].
    assert (Hl : Forall P l)
      by (induction l as [|a l IHl]; constructor; [apply IH | exact IHl]).
    intros acts' E. cbn [snd] in E. now inversion E; subst. }
  intros responses E. now inversion E; subst.
Qed.

Lemma SolutionAct_init_eq (function : string) (args : option (list value))
  (kwargs : option (list (string * value)))
  (on_response : option (list (option value * option (list Policy.act)))) :
  Build.SolutionAct_init globals
    (Policy.ActDict (Some function) args kwargs on_response)
  = (callable_func <-?
       Build.decorate globals function (Build.get args [])
         (if function =? "execute"
          then Build.setdefault (Build.get kwargs []) "ask" (VBool true)
          else Build.get kwargs []) ;;
     on_response <-?
       match on_response with
       | None => inr []
       | Some responses => responses_init globals responses
       end ;;
     inr (Solution.Act function callable_func on_response)).
Proof.
  cbn [Build.SolutionAct_init].
  destruct (Build.decorate globals function _ _) as [e|callable_func];
    [reflexivity|]. cbn [bind_raises].
  destruct on_response as [responses|]; [|reflexivity].
  match goal with
  | |- bind_raises ?a _ = bind_raises ?b _ => assert (E : a = b)
  end; [|now rewrite E].
  induction responses as [|[[v|] [acts|]] rest IH]; reflexivity.
Qed.

Lemma decorate_builds (function : string) (args : list value)
  (kwargs : list (string * value)) :
  (exists f, Build.decorate globals function args kwargs = inr f)
  <-> is_callable globals function = true.
Proof.
  unfold Build.decorate, is_callable.
  destruct (globals function) as [[|f]|]; split; try discriminate;
    try (intros [f' H]; discriminate); intros _; eexists; reflexivity.
Qed.

Lemma acts_build_of (acts : list Policy.act) :
  Forall (fun a => (exists x, Build.SolutionAct_init globals a = inr x)
                   <-> buildable globals a = true) acts ->
  (exists l, Build.SolutionActs_init globals acts = inr l)
  <-> forallb (buildable globals) acts = true.
Proof.
  induction 1 as [|a l Ha Hl IH]; cbn [Build.SolutionActs_init forallb].
  - split; [reflexivity | intros _; eexists; reflexivity].
  - rewrite andb_true_iff, <- Ha, <- IH. split.
    + intros [xs E]. destruct (Build.SolutionAct_init globals a) as [e|x];
        [discriminate|]. cbn [bind_raises] in E.
      destruct (Build.SolutionActs_init globals l) as [e|xs']; [discriminate|].
      split; eexists; reflexivity.
    + intros [[x ->] [xs ->]]. eexists. reflexivity.
Qed.

Lemma act_builds (a : Policy.act) :
  (exists x, Build.SolutionAct_init globals a = inr x)
  <-> buildable globals a = true.
Proof.
  induction a as [function args kwargs on_response IH] using act_nested_ind.
  destruct function as [function|].
  2:{ cbn. split; [intros [x H]; discriminate | discriminate]. }
  rewrite SolutionAct_init_eq. cbn [buildable]. rewrite andb_true_iff.
  rewrite <- (decorate_builds function (Build.get args [])
                (if function =? "execute"
                 then Build.setdefault (Build.get kwargs []) "ask" (VBool true)
                 else Build.get kwargs [])).
  assert (R : (exists rs, match on_response with
                          | None => inr []
                          | Some responses => responses_init globals responses
                          end = inr rs)
              <-> match on_response with
                  | None => true
                  | Some responses =>
                      forallb (fun response =>
                                 match response with
                                 | (Some _, Some acts) =>
                                     forallb (buildable globals) acts
                                 | _ => false
                                 end) responses
                  end = true).
  { destruct on_response as [responses|];
      [|split; [reflexivity | intros _; eexists; reflexivity]].
    specialize (IH responses eq_refl).
    induction IH as [|[v acts] rest Hr Hrest IHrest]; cbn [responses_init forallb].
    - split; [reflexivity | intros _; eexists; reflexivity].
    - destruct v as [v|]; [|split; [intros [rs H]; discriminate | discriminate]].
      destruct acts as [acts|];
        [|split; [intros [rs H]; discriminate | discriminate]].
      rewrite andb_true_iff, <- IHrest, <- (acts_build_of acts (Hr acts eq_refl)).
      split.
      + intros [rs E].
        destruct (Build.SolutionActs_init globals acts) as [e|xs]; [discriminate|].
        cbn [bind_raises] in E.
        destruct (responses_init globals rest) as [e|others]; [discriminate|].
        split; eexists; reflexivity.
      + intros [[xs ->] [others ->]]. eexists. reflexivity. }
  rewrite <- R. split.
  - intros [x E].
    destruct (Build.decorate globals function _ _) as [e|f]; [discriminate|].
    cbn [bind_raises] in E.
    destruct (match on_response with
              | None => inr []
              | Some responses => responses_init globals responses
              end) as [e|rs]; [discriminate|].
    split; eexists; reflexivity.
  - intros [[f ->] [rs ->]]. eexists. reflexivity.
Qed.

Lemma acts_build (acts : list Policy.act) :
  (exists l, Build.SolutionActs_init globals acts = inr l)
  <-> forallb (buildable globals) acts = true.
Proof.
  apply acts_build_of. apply Forall_forall. intros a _. apply act_builds.
Qed.

(** X6.  A solution is available exactly when its dictionary has acts and
    every act of the tree, at every depth, names a callable of the
    registry and every response has its value and its acts: one act that
    cannot be built, however deep, leaves the whole solution without
    acts, which is reported in one line.  A solution that is missing or
    an empty dictionary is not available, has no recheck flag, and
    nothing is reported; otherwise the recheck flag is the one written,
    and True when none is. *)
Theorem solution_available_iff_every_act_builds :
  forall (check_id : Z) (solution : option Policy.solution),
    let built := Build.Solution_init globals check_id solution in
    (Solution.available (fst built) = true <->
     exists d acts, solution = Some d /\ Policy.acts d = Some acts
                    /\ forallb (buildable globals) acts = true)
    /\ (Solution.available (fst built) = true -> snd built = [])
    /\ (forall d, solution = Some d -> Build.empty d = false ->
          Solution.recheck (fst built) = Build.get (Policy.recheck d) (VBool true)
          /\ (Solution.available (fst built) = false ->
              exists e, snd built = [SolutionParseError check_id e]))
    /\ ((solution = None \/ exists d, solution = Some d /\ Build.empty d = true) ->
        fst built = Solution.mk VNone None /\ snd built = []).
Proof.
  intros check_id solution built. subst built. unfold Build.Solution_init.
  destruct solution as [d|].
  2:{ cbn. split; [split; [discriminate | intros (d & acts & H & _); discriminate]|].
      split; [reflexivity|]. split; [intros d H; discriminate|]. now split. }
  destruct (Build.empty d) eqn:E.
  { cbn. split.
    - split; [discriminate|]. intros (d' & acts & H & Ha & _).
      inversion H; subst d'. unfold Build.empty in E. rewrite Ha in E.
      now destruct (Policy.recheck d).
    - split; [reflexivity|]. split; [|now split].
      intros d' H. inversion H; subst d'. congruence. }
  destruct (Policy.acts d) as [acts|] eqn:Ha.
  - pose proof (acts_build acts) as B.
    destruct (Build.SolutionActs_init globals acts) as [e|l]; cbn.
    + split.
      * split; [discriminate|]. intros (d' & acts' & H & Ha' & Hb).
        inversion H; subst d'. rewrite Ha in Ha'. inversion Ha'; subst acts'.
        apply B in Hb. destruct Hb as [l Hl]. discriminate.
      * split; [discriminate|]. split.
        -- intros d' H _. inversion H; subst d'. split; [reflexivity|].
           intros _. now exists e.
        -- intros [H | (d' & H & He)]; [discriminate|].
           inversion H; subst d'. congruence.
    + split.
      * split; [|reflexivity]. intros _. exists d, acts.
        split; [reflexivity|]. split; [exact Ha|]. apply B. now exists l.
      * split; [reflexivity|]. split.
        -- intros d' H _. inversion H; subst d'. split; [reflexivity|].
           discriminate.
        -- intros [H | (d' & H & He)]; [discriminate|].
           inversion H; subst d'. congruence.
  - cbn. split.
    + split; [discriminate|]. intros (d' & acts' & H & Ha' & _).
      inversion H; subst d'. congruence.
    + split; [discriminate|]. split.
      * intros d' H _. inversion H; subst d'. split; [reflexivity|].
        intros _. now exists KeyError.
      * intros [H | (d' & H & He)]; [discriminate|].
        inversion H; subst d'. congruence.
Qed.

End BuildFacts.

(** ** Loading the policy *)

Section LoadFacts.
Context {Host : Type} {probes : HostProbes Host} {engine : RegexEngine}.
Context (globals : string -> option (Build.global Host)).

Lemma from_file_app (a b : list (Z * option Policy.solution)) (id : Z)
  (solution : option Policy.solution) :
  Loader.from_file (a ++ b) id solution
  = Loader.from_file b id (Loader.from_file a id solution).
Proof.
  revert solution. induction a as [|[i s] a IH]; intros solution; [reflexivity|].
  cbn [app Loader.from_file]. apply IH.
Qed.

(** The loop over the solutions file keeps the last entry with the id. *)
Lemma from_file_last (solutions : list (Z * option Policy.solution)) (id : Z)
  (solution : option Policy.solution) :
  Loader.from_file solutions id solution
  = match find (fun item => Z.eqb (fst item) id) (rev solutions) with
    | Some (_, found) => found
    | None => solution
    end.
Proof.
  induction solutions as [|[i s] l IH] using rev_ind; [reflexivity|].
  rewrite from_file_app, rev_app_distr. cbn [rev app find fst Loader.from_file].
  destruct (Z.eqb i id); [reflexivity | exact IH].
Qed.

Lemma Check_init_fields (addr : nat) (d : Policy.check) :
  let c := fst (Build.Check_init globals addr d) in
  Check.addr c = addr /\ Check.id c = Policy.id d
  /\ Check.title c = Policy.title d
  /\ Check.rules c
     = fst (Rules.init (Policy.id d) (Policy.condition d) (Policy.rules d))
  /\ Check.solution c
     = fst (Build.Solution_init globals (Policy.id d) (Policy.solution_of d)).
Proof.
  unfold Build.Check_init.
  destruct (Rules.init (Policy.id d) (Policy.condition d) (Policy.rules d)).
  destruct (Build.Solution_init globals (Policy.id d) (Policy.solution_of d)).
  cbn. auto.
Qed.

(** What the loop of [load] adds to the class list. *)
Lemma load_loop_spec (solutions : list (Z * option Policy.solution))
  (white_listed_ids : option (list Z)) (todo : list Policy.check) :
  forall checks,
    exists loaded,
      fst (Loader.load_loop globals solutions white_listed_ids todo checks)
      = (checks ++ loaded)%list
      /\ map Check.id loaded
         = filter (fun id => negb (Loader.left_out white_listed_ids id))
             (map Policy.id todo)
      /\ map Check.addr loaded = seq (List.length checks) (List.length loaded)
      /\ Forall (fun c =>
                   exists d, In d todo
                     /\ Loader.left_out white_listed_ids (Policy.id d) = false
                     /\ Check.id c = Policy.id d
                     /\ Check.title c = Policy.title d
                     /\ Check.rules c
                        = fst (Rules.init (Policy.id d) (Policy.condition d)
                                 (Policy.rules d))
                     /\ Check.solution c
                        = fst (Build.Solution_init globals (Policy.id d)
                                 (solution_for solutions d))) loaded.
Proof.
  induction todo as [|d rest IH]; intros checks; cbn [Loader.load_loop].
  - exists []. rewrite app_nil_r. repeat split; constructor.
  - cbn [map filter]. destruct (Loader.left_out white_listed_ids (Policy.id d)) eqn:E.
    + destruct (IH checks) as [loaded (H1 & H2 & H3 & H4)]. exists loaded.
      cbn [negb]. repeat split; try assumption.
      eapply Forall_impl; [|exact H4]. intros c (d' & Hin & Hd).
      exists d'. split; [now right | exact Hd].
    + set (resolved := Policy.mkCheck _ _ _ _ _).
      pose proof (Check_init_fields (List.length checks) resolved) as F.
      destruct (Build.Check_init globals (List.length checks) resolved)
        as [object out1].
      cbn [fst] in F. destruct F as (Fa & Fi & Ft & Fr & Fs).
      destruct (IH (checks ++ [object])%list) as [loaded (H1 & H2 & H3 & H4)].
      destruct (Loader.load_loop globals solutions white_listed_ids rest
                  (checks ++ [object])%list) as [all out2].
      cbn [fst] in *. exists (object :: loaded). cbn [negb map List.length].
      split; [now rewrite H1, <- app_assoc|].
      split; [now rewrite H2, Fi|].
      split.
      * cbn [seq]. rewrite Fa, H3, length_app. cbn [List.length].
        now rewrite Nat.add_1_r.
      * constructor.
        -- exists d. split; [now left|]. split; [exact E|].
           split; [exact Fi|]. split; [exact Ft|]. split; [exact Fr|].
           rewrite Fs. unfold resolved, solution_for, last_in_file. cbn.
           destruct (Policy.solution_of d); [reflexivity|].
           now rewrite from_file_last.
        -- eapply Forall_impl; [|exact H4]. intros c (d' & Hin & Hd).
           exists d'. split; [now right | exact Hd].
Qed.

(** X7.  [load] goes on only when the requirements of the policy hold:
    when they fail, and as well when they are not applicable, it reports
    it and leaves the program with no check loaded.  Otherwise the checks
    of the policy are loaded in their order, each an object of its own;
    with a white list that is not empty only the checks whose id is on
    it, with none or an empty one all of them; a check is built from its
    own id, title and rules, with the solution written in the policy or,
    for want of one, that of the last entry of the solutions file with
    its id. *)
Theorem load_takes_the_checks_of_the_policy :
  forall (content : Policy.content)
    (solutions : list (Z * option Policy.solution))
    (white_listed_ids : option (list Z)) (h : Host),
    let requirements :=
      fst (Rules.init 0 (Policy.requirements_condition content)
             (Policy.requirements_rules content)) in
    let '(r, h', out) := Loader.load globals content solutions white_listed_ids h in
    h' = snd (fst (Rules.check requirements h))
    /\ match fst (fst (Rules.check requirements h)) with
       | inl e => r = inl e
       | inr (Some true) =>
           exists loaded,
             r = inr (Some loaded)
             /\ map Check.id loaded
                = filter (fun id => negb (Loader.left_out white_listed_ids id))
                    (map Policy.id (Policy.checks content))
             /\ map Check.addr loaded = seq 0 (List.length loaded)
             /\ ((white_listed_ids = None \/ white_listed_ids = Some []) ->
                 map Check.id loaded = map Policy.id (Policy.checks content))
             /\ Forall (fun c =>
                          exists d, In d (Policy.checks content)
                            /\ Check.id c = Policy.id d
                            /\ Check.title c = Policy.title d
                            /\ Check.rules c
                               = fst (Rules.init (Policy.id d) (Policy.condition d)
                                        (Policy.rules d))
                            /\ Check.solution c
                               = fst (Build.Solution_init globals (Policy.id d)
                                        (solution_for solutions d))) loaded
             /\ In LoadedAllRules out
       | inr _ => r = inr None /\ In RequirementsNotSatisfied out
       end.
Proof.
  intros content solutions white h requirements. unfold Loader.load.
  fold requirements.
  destruct (Rules.init 0 (Policy.requirements_condition content)
              (Policy.requirements_rules content)) as [rq warnings] eqn:Ei.
  cbn [fst] in requirements. subst requirements.
  unfold bindR, say, lift, retR.
  destruct (Rules.check rq h) as [[[e|met] h1] out1]; cbn [fst snd].
  - now split.
  - destruct met as [[|]|].
    + destruct (load_loop_spec solutions white (Policy.checks content) [])
        as [loaded (H1 & H2 & H3 & H4)].
      destruct (Loader.load_loop globals solutions white (Policy.checks content) [])
        as [checks out2].
      cbn [fst app] in H1. subst checks. split; [reflexivity|].
      exists loaded. split; [reflexivity|]. split; [exact H2|].
      split; [exact H3|]. split.
      * intros Hw. rewrite H2. apply forallb_filter_id.
        apply forallb_forall. intros id _.
        destruct Hw as [-> | ->]; reflexivity.
      * split.
        -- eapply Forall_impl; [|exact H4]. intros c (d & Hin & _ & Hd).
           now exists d.
        -- apply in_or_app. right. apply in_or_app. right.
           apply in_or_app. right. apply in_or_app. right. now left.
    + split; [reflexivity|]. split; [reflexivity|].
      apply in_or_app. right. apply in_or_app. right.
      apply in_or_app. right. now left.
    + split; [reflexivity|]. split; [reflexivity|].
      apply in_or_app. right. apply in_or_app. right.
      apply in_or_app. right. now left.
Qed.

Lemma map_Some_inj {A} (a b : list A) : map Some a = map Some b -> a = b.
Proof.
  revert b. induction a as [|x a IH]; intros [|y b] H; cbn in H;
    try discriminate; [reflexivity|].
  inversion H; subst. f_equal. now apply IH.
Qed.

(** The pieces of the third argument all read as integers. *)
Lemma ints_spec (pieces : list string) (ids : list Z) :
  Loader.ints pieces = Some ids <-> map PyInt.parse pieces = map Some ids.
Proof.
  revert ids. induction pieces as [|p rest IH]; intros ids; cbn [Loader.ints map].
  - destruct ids; cbn; split; congruence.
  - destruct (PyInt.parse p) as [z|].
    + destruct (Loader.ints rest) as [zs|].
      * pose proof (proj1 (IH zs) eq_refl) as Hr. rewrite Hr. split.
        -- intros H. inversion H; subst. reflexivity.
        -- intros H. change (map Some (z :: zs) = map Some ids) in H.
           apply map_Some_inj in H. now subst.
      * split; [discriminate|]. destruct ids as [|i ids]; cbn [map]; [discriminate|].
        intros H. inversion H as [[Hi Hs]]. apply IH in Hs. discriminate.
    + split; [discriminate|]. destruct ids; cbn [map]; discriminate.
Qed.

(** X8.  The white list of the command line is all or nothing: a check is
    left out only when the third argument is a list of integers, every
    piece between the commas one, and the id of the check is not among
    them.  One piece that is no integer -- an empty one, after a comma at
    the end, will do -- and no check is left out. *)
Theorem white_list_is_all_or_nothing :
  forall (argv : list string) (id : Z),
    (Loader.left_out (Loader.whitelisted_checks argv) id = true <->
     exists arg ids,
       nth_error argv 3 = Some arg
       /\ map PyInt.parse (PyStr.split arg ",") = map Some ids
       /\ ~ In id ids)
    /\ (forall arg piece,
           nth_error argv 3 = Some arg ->
           In piece (PyStr.split arg ",") -> PyInt.parse piece = None ->
           Loader.whitelisted_checks argv = None)
    /\ (forall arg, nth_error argv 3 = Some (arg ++ ",") ->
                    Loader.whitelisted_checks argv = None).
Proof.
  intros argv id.
  assert (P2 : forall arg piece,
             nth_error argv 3 = Some arg ->
             In piece (PyStr.split arg ",") -> PyInt.parse piece = None ->
             Loader.whitelisted_checks argv = None).
  { intros arg piece Ha Hin Hp. unfold Loader.whitelisted_checks. rewrite Ha.
    destruct (Loader.ints (PyStr.split arg ",")) as [ids|] eqn:E; [|reflexivity].
    apply ints_spec in E. exfalso.
    assert (Hs : In (PyInt.parse piece) (map Some ids))
      by (rewrite <- E; now apply in_map).
    rewrite Hp in Hs. apply in_map_iff in Hs. destruct Hs as [z [Hz _]].
    discriminate. }
  split; [|split; [exact P2|]].
  - unfold Loader.whitelisted_checks, Loader.left_out.
    destruct (nth_error argv 3) as [arg|].
    + destruct (Loader.ints (PyStr.split arg ",")) as [ids|] eqn:E.
      * apply ints_spec in E. destruct ids as [|i ids].
        { split; [discriminate|]. intros (arg' & ids' & Ha & Hm & _).
          exfalso. pose proof (split_from_nonempty "," arg 0 "") as Hne.
          unfold PyStr.split in E. destruct (PyStr.split_from "," 0 "" arg);
            [congruence | discriminate]. }
        rewrite negb_true_iff. split.
        -- intros H. exists arg, (i :: ids). split; [reflexivity|].
           split; [exact E|]. intros Hin.
           assert (Hx : existsb (Z.eqb id) (i :: ids) = true).
           { apply existsb_exists. exists id. split; [exact Hin|]. apply Z.eqb_refl. }
           congruence.
        -- intros (arg' & ids' & Ha & Hm & Hn). inversion Ha; subst arg'.
           rewrite E in Hm.
           apply map_Some_inj in Hm. subst ids'.
           destruct (existsb (Z.eqb id) (i :: ids)) eqn:X; [|reflexivity].
           apply existsb_exists in X. destruct X as [x [Hx Hq]].
           apply Z.eqb_eq in Hq. subst x. contradiction.
      * split; [discriminate|]. intros (arg' & ids' & Ha & Hm & _).
        inversion Ha; subst arg'. apply ints_spec in Hm. congruence.
    + split; [discriminate|]. intros (arg' & ids' & Ha & _). discriminate.
  - intros arg Ha. apply (P2 (arg ++ ",") "" Ha); [|reflexivity].
    clear. unfold PyStr.split.
    assert (G : forall s cur, In "" (PyStr.split_from "," 0 cur (s ++ ","))).
    { induction s as [|c s IH]; intros cur.
      - cbn. right. now left.
      - cbn [append PyStr.split_from].
        destruct (String.prefix "," (String c (s ++ ","))).
        + right. change (String.length "," - 1) with 0. apply IH.
        + apply IH. }
    apply G.
Qed.


End LoadFacts.

(** ** The run of the checks *)

Section EmitFacts.
Context {S : Type}.

Lemma emits_ret {A} (P : event -> Prop) (a : A) : emits P (@ret S A a).
Proof. intros s. constructor. Qed.


Lemma emits_bind {A B} (P : event -> Prop) (m : Eff S A) (k : A -> Eff S B) :
  emits P m -> (forall a, emits P (k a)) -> emits P (bind m k).
Proof.
  intros Hm Hk s. unfold bind. specialize (Hm s).
  destruct (m s) as [[[e|a] s1] out1]; cbn [snd] in *; [exact Hm|].
  specialize (Hk a s1). destruct (k a s1) as [[r s2] out2]; cbn [snd] in *.
  apply Forall_app. now split.
Qed.

Lemma emits_weaken {A} (P Q : event -> Prop) (m : Eff S A) :
  (forall ev, P ev -> Q ev) -> emits P m -> emits Q m.
Proof. intros H Hm s. eapply Forall_impl; [exact H | apply Hm]. Qed.

End EmitFacts.

Section RunFacts.
Context {Host : Type} {probes : HostProbes Host} {engine : RegexEngine}.




Lemma inert_cases (ev : event) :
  inert ev = true ->
  (exists text, ev = ActOutput text)
  \/ (exists check_id tag rule e, ev = RuleCheckError check_id tag rule e).
Proof.
  destruct ev; cbn; try discriminate; intros _;
    [right; now repeat eexists | left; now eexists].
Qed.

Lemma emits_check (P : event -> Prop) (c : Check.t Host) :
  (forall ev, inert ev = true -> P ev) ->
  (forall v, P (Verdict v (Check.id c) (Check.title c))) ->
  emits P (Check.check c).
Proof.
  intros Hi Hv st. destruct (Check.check c st) as [[r st'] out] eqn:E.
  apply check_prints in E. cbn [snd].
  destruct E as [(e & _ & H) | (res & noise & _ & H & ->)].
  - eapply Forall_impl; [exact Hi | exact H].
  - apply Forall_app. split; [eapply Forall_impl; [exact Hi | exact H]|].
    repeat constructor. apply Hv.
Qed.





(** The first pass prints no prompt. *)
Lemma emits_check_each (checks : list (Check.t Host)) :
  emits untitled (Check.check_each checks).
Proof.
  induction checks as [|c rest IH]; cbn [Check.check_each].
  - apply emits_ret.
  - apply emits_bind; [|intros _; exact IH].
    apply emits_check; [|intros; exact I].
    intros ev H. destruct (inert_cases ev H) as [[t ->] | (i & t & r & e & ->)];
      exact I.
Qed.

(** What an evaluation does to the state. *)
Lemma check_effect (c : Check.t Host) (st st' : Check.state Host)
  (res : option bool) (out : list event) :
  Check.check c st = (inr res, st', out) ->
  (forall a, Check.status st' a
             = if Nat.eqb a (Check.addr c) then Some (verdict res)
               else Check.status st a)
  /\ partition (verdict res) st'
     = (partition (verdict res) st ++ [Check.addr c])%list
  /\ (forall w, w <> verdict res -> partition w st' = partition w st)
  /\ In (Verdict (verdict res) (Check.id c) (Check.title c)) out.
Proof.
  unfold Check.check, bind, Check.on_host.
  destruct (Rules.check (Check.rules c) (Check.host st)) as [[[e|r] h1] out1];
    [discriminate|].
  destruct r as [[|]|]; cbn; intros H; inversion H; subst; clear H; cbn;
    (split; [reflexivity|]); (split; [reflexivity|]);
    (split; [intros [| |] Hw; try reflexivity; congruence|]);
    apply in_or_app; right; now left.
Qed.

Lemma memberships_sum (st : Check.state Host) (a : nat) :
  memberships st a
  = count_occ Nat.eq_dec (partition PASSED st) a
    + count_occ Nat.eq_dec (partition FAILED st) a
    + count_occ Nat.eq_dec (partition NOT_APPLICABLE st) a.
Proof. unfold memberships. cbn [partition]. rewrite !count_occ_app. lia. Qed.

Lemma listed_sum (st : Check.state Host) :
  listed st
  = List.length (partition PASSED st) + List.length (partition FAILED st)
    + List.length (partition NOT_APPLICABLE st).
Proof. reflexivity. Qed.

(** What an evaluation does to the class lists, as counts. *)
Lemma check_counts (c : Check.t Host) (st st' : Check.state Host)
  (res : option bool) (out : list event) :
  Check.check c st = (inr res, st', out) ->
  listed st' = S (listed st)
  /\ (forall a v, count_occ Nat.eq_dec (partition v st') a
                  = count_occ Nat.eq_dec (partition v st) a
                    + if Nat.eqb a (Check.addr c) && same_status v (verdict res)
                      then 1 else 0).
Proof.
  intros H. apply check_effect in H. destruct H as (_ & Hv & Hw & _).
  split.
  - rewrite !listed_sum.
    destruct (verdict res); rewrite Hv, !Hw by discriminate;
      rewrite length_app; cbn [List.length]; lia.
  - intros a v.
    assert (One : count_occ Nat.eq_dec [Check.addr c] a
                  = if Nat.eqb a (Check.addr c) then 1 else 0).
    { cbn. destruct (Nat.eq_dec (Check.addr c) a) as [->|Hn].
      - now rewrite Nat.eqb_refl.
      - destruct (Nat.eqb_spec a (Check.addr c)); [congruence | reflexivity]. }
    destruct (same_status v (verdict res)) eqn:Sv.
    + assert (v = verdict res) by (destruct v, (verdict res); now try discriminate).
      subst v. rewrite Hv, count_occ_app, One, andb_true_r. reflexivity.
    + rewrite Hw by (intros ->; now destruct (verdict res)).
      rewrite andb_false_r. lia.
Qed.

Lemma check_each_inv (checks : list (Check.t Host)) :
  forall (st st' : Check.state Host) (out : list event),
    Check.check_each checks st = (inr tt, st', out) ->
    NoDup (map Check.addr checks) ->
    listed st' = listed st + List.length checks
    /\ (forall a, ~ In a (map Check.addr checks) ->
          Check.status st' a = Check.status st a
          /\ forall v, count_occ Nat.eq_dec (partition v st') a
                       = count_occ Nat.eq_dec (partition v st) a)
    /\ (forall c, In c checks ->
          exists w,
            Check.status st' (Check.addr c) = Some w
            /\ In (Verdict w (Check.id c) (Check.title c)) out
            /\ forall v, count_occ Nat.eq_dec (partition v st') (Check.addr c)
                         = count_occ Nat.eq_dec (partition v st) (Check.addr c)
                           + if same_status v w then 1 else 0).
Proof.
  induction checks as [|c rest IH]; intros st st' out E Hnd.
  - cbn in E. inversion E; subst. split; [cbn; lia|].
    split; [now intros a _ | intros c []].
  - cbn [Check.check_each] in E. apply bind_inv in E.
    destruct E as [(e & _ & E) | (res & s1 & o1 & o2 & E1 & E2 & ->)];
      [discriminate|].
    cbn [map] in Hnd. inversion Hnd as [|? ? Hc Hrest]; subst.
    destruct (IH _ _ _ E2 Hrest) as (L & Out & Inn).
    destruct (check_counts _ _ _ _ _ E1) as (L1 & C1).
    destruct (check_effect _ _ _ _ _ E1) as (S1 & _ & _ & V1).
    split; [cbn [List.length]; lia|]. split.
    + intros a Ha. cbn [map] in Ha.
      assert (Hne : Nat.eqb a (Check.addr c) = false).
      { apply Nat.eqb_neq. intros ->. apply Ha. now left. }
      destruct (Out a) as [Hs Hcnt]; [intros K; apply Ha; now right|].
      split.
      * now rewrite Hs, S1, Hne.
      * intros v. rewrite Hcnt, C1, Hne. cbn [andb]. lia.
    + intros c' [<-|Hin].
      * exists (verdict res). destruct (Out (Check.addr c) Hc) as [Hs Hcnt].
        split; [now rewrite Hs, S1, Nat.eqb_refl|].
        split; [apply in_or_app; now left|].
        intros v. rewrite Hcnt, C1, Nat.eqb_refl. reflexivity.
      * destruct (Inn c' Hin) as (w & Hs & Hv & Hcnt). exists w.
        split; [exact Hs|]. split; [apply in_or_app; now right|].
        intros v. rewrite Hcnt, C1.
        assert (Hne : Nat.eqb (Check.addr c') (Check.addr c) = false).
        { apply Nat.eqb_neq. intros K. apply Hc. rewrite <- K. now apply in_map. }
        rewrite Hne. cbn [andb]. lia.
Qed.

(** X9.  After the first pass over checks that are objects of their own,
    from a state where nothing is listed, every check is listed once: in
    the class list of its status and in no other; the three lists hold
    as many entries as there are checks, and the status of a check is
    the verdict that was printed for it. *)
Theorem first_pass_partitions_the_checks :
  forall (checks : list (Check.t Host)) (h : Host) (st : Check.state Host)
    (out : list event),
    NoDup (map Check.addr checks) ->
    Check.check_each checks (fresh h) = (inr tt, st, out) ->
    listed st = List.length checks
    /\ forall c, In c checks ->
         memberships st (Check.addr c) = 1
         /\ (forall v, In (Check.addr c) (partition v st)
                       <-> Check.status st (Check.addr c) = Some v)
         /\ (forall v, Check.status st (Check.addr c) = Some v ->
                       In (Verdict v (Check.id c) (Check.title c)) out).
Proof.
  intros checks h st out Hnd E.
  destruct (check_each_inv checks _ _ _ E Hnd) as (L & _ & Inn).
  split; [exact L|]. intros c Hin.
  destruct (Inn c Hin) as (w & Hs & Hv & Hcnt). cbn in Hcnt.
  split; [|split].
  - rewrite memberships_sum, !Hcnt. now destruct w.
  - intros v. rewrite Hs. split.
    + intros Hi. apply (count_occ_In Nat.eq_dec) in Hi. rewrite Hcnt in Hi.
      destruct v, w; cbn in Hi; try lia; reflexivity.
    + intros K. inversion K; subst. apply (count_occ_In Nat.eq_dec).
      rewrite Hcnt. destruct v; cbn; lia.
  - intros v K. rewrite Hs in K. now inversion K; subst.
Qed.


Lemma In_map_Ev (ev : event) (out : list event) : In (Ev ev) (map Ev out) -> In ev out.
Proof.
  intros H. apply in_map_iff in H. destruct H as [x [E Hx]]. now inversion E; subst.
Qed.


End RunFacts.

(** ** Remediation without a recheck *)

Section NoRecheck.
Context {Host : Type} {probes : HostProbes Host} {engine : RegexEngine}.





End NoRecheck.

(** ** Rules that leave the host alone *)

Section ShellFree.
Context {Host : Type} {probes : HostProbes Host} {engine : RegexEngine}.

Lemma shell_free_check (r : Rule.t) (h : Host) :
  shell_free r -> snd (fst (Rule.check r h)) = h.
Proof.
  unfold shell_free, Rule.check. destruct (Rule.parsed r) as [p|]; [|reflexivity].
  destruct (ParsedRule.function p); cbn [runs_shell Rule.call]; intros H;
    try discriminate;
    match goal with
    | |- context [match ?x with inl _ => _ | inr _ => _ end] => now destruct x
    end.
Qed.

Lemma shell_free_visit (rules : list Rule.t) (h : Host) :
  Forall shell_free rules -> fst (visit Rule.check rules h) = h.
Proof.
  revert h. induction rules as [|r rest IH]; intros h H; [reflexivity|].
  inversion H as [|? ? Hr Hrest]; subst. cbn [visit].
  pose proof (shell_free_check r h Hr) as Hh.
  destruct (Rule.check r h) as [[o h1] out1]. cbn [fst snd] in Hh. subst h1.
  specialize (IH h Hrest). destruct (visit Rule.check rest h) as [h2 out2].
  exact IH.
Qed.

Lemma Forall_firstn {A} (P : A -> Prop) (k : nat) (l : list A) :
  Forall P l -> Forall P (firstn k l).
Proof.
  intros H. rewrite <- (firstn_skipn k l) in H. apply Forall_app in H. tauto.
Qed.

(** The parse of a rule whose selector is neither [c:] nor [p:] runs no
    shell. *)
Lemma parse_shell_free (rule : string) (p : ParsedRule.t) :
  Rule.parse rule = inr p ->
  PyStr.startswith (selected rule) "c:" = false ->
  PyStr.startswith (selected rule) "p:" = false ->
  runs_shell (ParsedRule.function p) = false.
Proof.
  unfold Rule.parse, selected, negated, pieces.
  destruct (PyStr.startswith (hd "" (map PyStr.strip (PyStr.split rule "->"))) "not ").
  - intros H Hc Hp. rewrite Hc, Hp in H.
    destruct (PyStr.startswith _ "f:");
      [destruct (map PyStr.strip (PyStr.split rule "->")) as [|a [|b [|]]];
       inversion H; reflexivity|].
    destruct (PyStr.startswith _ "d:");
      [destruct (map PyStr.strip (PyStr.split rule "->")) as [|a [|b [|d [|]]]];
       inversion H; reflexivity|].
    destruct (PyStr.startswith _ "r:"); discriminate.
  - intros H Hc Hp. rewrite Hc, Hp in H.
    destruct (PyStr.startswith _ "f:");
      [destruct (map PyStr.strip (PyStr.split rule "->")) as [|a [|b [|]]];
       inversion H; reflexivity|].
    destruct (PyStr.startswith _ "d:");
      [destruct (map PyStr.strip (PyStr.split rule "->")) as [|a [|b [|d [|]]]];
       inversion H; reflexivity|].
    destruct (PyStr.startswith _ "r:"); discriminate.
Qed.

(** X12.  Only the rules on commands and processes run anything: the
    evaluation of rules none of which has the selector [c:] or [p:]
    leaves the host as it was, whatever the condition and the outcome,
    and so does that of a check made of such rules. *)
Theorem file_rules_leave_the_host :
  forall (check_id : Z) (condition : string) (rules : list string) (h : Host),
    (forall rule, In rule rules ->
       PyStr.startswith (selected rule) "c:" = false
       /\ PyStr.startswith (selected rule) "p:" = false) ->
    let built := fst (Rules.init check_id condition rules) in
    Forall shell_free (Rules.parsed built)
    /\ snd (fst (Rules.check built h)) = h
    /\ (forall (c : Check.t Host) (st : Check.state Host),
           Check.rules c = built ->
           Check.host (snd (fst (Check.check c st))) = Check.host st).
Proof.
  intros check_id condition rules h Hsel built.
  assert (F : Forall shell_free (Rules.parsed built)).
  { unfold built. rewrite init_parsed. apply Forall_app.
    assert (G : Forall shell_free (map (fun r => fst (Rule.init check_id r)) rules)).
    { apply Forall_forall. intros r Hr. apply in_map_iff in Hr.
      destruct Hr as [rule [<- Hin]]. unfold shell_free, Rule.init.
      destruct (Rule.parse rule) as [e|p] eqn:E; cbn; [exact I|].
      destruct (Hsel rule Hin) as [Hc Hp]. exact (parse_shell_free rule p E Hc Hp). }
    rewrite Forall_forall in G.
    split; apply Forall_forall; intros r Hr; apply filter_In in Hr; apply G; tauto. }
  assert (K : forall rs h0, Forall shell_free (Rules.parsed rs) ->
                snd (fst (Rules.check rs h0)) = h0).
  { intros rs h0 Hf. unfold Rules.check.
    destruct (check_with_visits Rule.check (Rules.condition rs)
                (Rules.parsed rs) h0) as [k [_ Hv]].
    destruct (Rules.check_with Rule.check (Rules.condition rs)
                (Rules.parsed rs) h0) as [[r h'] out].
    cbn in Hv. apply (f_equal fst) in Hv. cbn [fst snd] in *. rewrite Hv.
    apply shell_free_visit. now apply Forall_firstn. }
  split; [exact F|]. split; [now apply K|].
  intros c st Hc. unfold Check.check, bind, Check.on_host.
  pose proof (K (Check.rules c) (Check.host st)) as Kc. rewrite Hc in *.
  specialize (Kc F).
  destruct (Rules.check built (Check.host st)) as [[[e|res] h1] out1];
    cbn [fst snd] in *; subst h1; [reflexivity|].
  now destruct res as [[|]|].
Qed.

End ShellFree.

(** ** The prefix of negation *)

Lemma strip_not (x : string) :
  starts_solid x -> x <> "" -> PyStr.strip ("not " ++ x) = "not " ++ PyStr.strip x.
Proof.
  destruct x as [|c x]; [congruence|]. intros Hc _. cbn [starts_solid] in Hc.
  unfold PyStr.strip.
  change (PyStr.lstrip ("not " ++ String c x)) with ("not " ++ String c x).
  cbn [PyStr.lstrip]. rewrite Hc.
  assert (R : PyStr.rstrip (String c x) = String c (PyStr.rstrip x))
    by now apply rstrip_cons.
  cbn [append].
  rewrite (rstrip_cons "n") by reflexivity.
  rewrite (rstrip_cons "o") by reflexivity.
  rewrite (rstrip_cons "t") by reflexivity.
  rewrite (rstrip_cons_nonempty " ") by (rewrite R; discriminate).
  reflexivity.
Qed.

Lemma split_not (rule : string) :
  PyStr.split ("not " ++ rule) "->"
  = match PyStr.split rule "->" with
    | x :: rest => ("not " ++ x) :: rest
    | [] => []
    end.
Proof.
  unfold PyStr.split. cbn [append PyStr.split_from String.prefix].
  repeat match goal with
         | |- context [ascii_dec ?a ?b] => destruct (ascii_dec a b); [discriminate|]
         end.
  cbn [append]. apply split_from_cur.
Qed.

(** The first piece of a text starts as the text does, or is empty. *)
Lemma first_piece (sep : string) (c : ascii) (s : string) :
  match PyStr.split (String c s) sep with
  | x :: _ => x = "" \/ exists x', x = String c x'
  | [] => False
  end.
Proof.
  unfold PyStr.split. cbn [PyStr.split_from].
  destruct (String.prefix sep (String c s)); [now left|].
  rewrite split_from_cur.
  pose proof (split_from_nonempty sep s 0 "") as H.
  destruct (PyStr.split_from sep 0 "" s); [congruence|].
  right. eexists. reflexivity.
Qed.

Lemma parse_select (rule : string) :
  Rule.parse rule = select (negated rule) (selected rule) (pieces rule).
Proof.
  unfold Rule.parse, selected, negated, pieces.
  destruct (PyStr.startswith (hd "" (map PyStr.strip (PyStr.split rule "->"))) "not ");
    reflexivity.
Qed.

Lemma select_head (revert : bool) (to_check a b : string) (rest : list string) :
  select revert to_check (a :: rest) = select revert to_check (b :: rest).
Proof. unfold select. now destruct rest as [|x [|y [|z rest]]]. Qed.

Lemma select_reverted (to_check : string) (rule : list string) :
  select true to_check rule = reverted (select false to_check rule).
Proof.
  unfold select, reverted.
  repeat match goal with
         | |- context [if ?b then _ else _] => destruct b
         end; try reflexivity;
    now destruct rule as [|a [|x [|y [|z rest]]]].
Qed.

Lemma select_n (revert : bool) (t : string) (rule : list string) :
  select revert (String "n" t) rule = inl ValueError.
Proof. reflexivity. Qed.

Lemma select_blank (revert : bool) (t : string) (rule : list string) :
  select revert (String " " t) rule = inl ValueError.
Proof. reflexivity. Qed.

(** X13.  Writing [not ] before a rule that starts with no blank and is
    not negated itself gives the same parse with the flag of negation
    set, and a rule that does not parse stays so; hence the outcome of
    the negated rule is the negation of the outcome of the rule, not
    applicable staying not applicable, with the same effect on the
    host.  (A second [not ], or a second blank after it, is not
    understood: such a rule does not parse.) *)
Theorem not_prefix_negates :
  forall (rule : string),
    negated rule = false -> starts_solid rule ->
    Rule.parse ("not " ++ rule) = reverted (Rule.parse rule)
    /\ (forall p, Rule.parse rule = inr p -> ParsedRule.revert p = false)
    /\ (forall (Host : Type) (probes : HostProbes Host) (engine : RegexEngine)
          (check_id : Z) (h : Host) (p : ParsedRule.t),
          Rule.parse rule = inr p ->
          let plain := fst (Rule.init check_id rule) in
          let negated := fst (Rule.init check_id ("not " ++ rule)) in
          fst (fst (Rule.check negated h)) = negate (fst (fst (Rule.check plain h)))
          /\ snd (fst (Rule.check negated h)) = snd (fst (Rule.check plain h)))
    /\ Rule.parse ("not not " ++ rule) = inl ValueError
    /\ Rule.parse ("not  " ++ rule) = inl ValueError.
Proof.
  intros rule Hn Hs.
  assert (P : Rule.parse ("not " ++ rule) = reverted (Rule.parse rule)).
  { rewrite !parse_select. unfold selected, negated, pieces in *.
    rewrite split_not.
    destruct rule as [|c s].
    - reflexivity.
    - pose proof (first_piece "->" c s) as Hx.
      destruct (PyStr.split (String c s) "->") as [|x rest]; [contradiction|].
      cbn [map hd] in *. rewrite Hn.
      destruct Hx as [-> | [x' ->]].
      + cbn [append]. change (PyStr.strip "not ") with "not".
        change (PyStr.strip "") with "". cbn [PyStr.startswith String.prefix].
        cbn. reflexivity.
      + rewrite strip_not by (try discriminate; exact Hs).
        unfold PyStr.startswith at 1. rewrite prefix_app.
        unfold PyStr.startswith at 1. rewrite prefix_app.
        change (PyStr.drop 4 ("not " ++ PyStr.strip (String c x')))
          with (PyStr.strip (String c x')).
        rewrite (select_head true _ ("not " ++ PyStr.strip (String c x'))
                   (PyStr.strip (String c x'))).
        apply select_reverted. }
  assert (R : forall p, Rule.parse rule = inr p -> ParsedRule.revert p = false).
  { intros p. rewrite parse_select, Hn. unfold select.
    repeat match goal with
           | |- context [if ?b then _ else _] => destruct b
           end; try discriminate;
      destruct (pieces rule) as [|a [|x [|y [|z rest]]]];
      intros H; inversion H; reflexivity. }
  split; [exact P|]. split; [exact R|]. split; [|split].
  - intros Host probes engine check_id h p Hp plain negated'.
    subst plain negated'. unfold Rule.init. rewrite P, Hp. cbn [reverted fst].
    unfold Rule.check. cbn [Rule.parsed ParsedRule.function ParsedRule.revert].
    rewrite (R p Hp).
    destruct (Rule.call (ParsedRule.function p) h) as [[e|res] h']; split;
      reflexivity.
  - change ("not not " ++ rule) with ("not " ++ ("not " ++ rule)).
    rewrite parse_select. unfold selected, negated, pieces. rewrite split_not.
    pose proof (split_from_nonempty "->" ("not " ++ rule) 0 "") as Hne.
    rewrite split_not. unfold PyStr.split in *.
    destruct (PyStr.split_from "->" 0 "" rule) as [|x rest] eqn:Ex;
      [now apply split_from_nonempty in Ex|].
    cbn [map hd]. rewrite strip_not by (try discriminate; reflexivity).
    assert (N : exists t, PyStr.strip ("not " ++ x) = String "n" t).
    { unfold PyStr.strip. cbn [append PyStr.lstrip].
      change (PyStr.isspace "n") with false. cbv iota.
      rewrite (rstrip_cons "n") by reflexivity. eexists. reflexivity. }
    destruct N as [t ->].
    unfold PyStr.startswith at 1. rewrite prefix_app.
    unfold PyStr.startswith at 1. rewrite prefix_app.
    change (PyStr.drop 4 ("not " ++ String "n" t)) with (String "n" t).
    apply select_n.
  - change ("not  " ++ rule) with ("not " ++ (" " ++ rule)).
    rewrite parse_select. unfold selected, negated, pieces. rewrite split_not.
    assert (Sp : PyStr.split (" " ++ rule) "->"
                 = match PyStr.split rule "->" with
                   | x :: rest => (" " ++ x) :: rest
                   | [] => []
                   end).
    { unfold PyStr.split. cbn [append PyStr.split_from String.prefix].
      destruct (ascii_dec "-" " "); [discriminate|]. apply split_from_cur. }
    rewrite Sp. destruct rule as [|c r].
    + reflexivity.
    + pose proof (first_piece "->" c r) as Hx.
      destruct (PyStr.split (String c r) "->") as [|x rest]; [contradiction|].
      cbn [map hd]. destruct Hx as [-> | [x' ->]]; [reflexivity|].
      assert (St : PyStr.strip ("not " ++ " " ++ String c x')
                   = "not  " ++ PyStr.strip (String c x')).
      { cbn [starts_solid] in Hs. unfold PyStr.strip.
        cbn [append PyStr.lstrip]. change (PyStr.isspace "n") with false.
        rewrite Hs. cbv iota.
        assert (R' : PyStr.rstrip (String c x') = String c (PyStr.rstrip x'))
          by now apply rstrip_cons.
        rewrite (rstrip_cons "n") by reflexivity.
        rewrite (rstrip_cons "o") by reflexivity.
        rewrite (rstrip_cons "t") by reflexivity.
        rewrite (rstrip_cons_nonempty " ")
          by (rewrite (rstrip_cons_nonempty " ") by (rewrite R'; discriminate);
              discriminate).
        rewrite (rstrip_cons_nonempty " ") by (rewrite R'; discriminate).
        reflexivity. }
      rewrite St.
      change ("not  " ++ PyStr.strip (String c x'))
        with ("not " ++ String " " (PyStr.strip (String c x'))).
      unfold PyStr.startswith at 1. rewrite prefix_app.
      unfold PyStr.startswith at 1. rewrite prefix_app.
      change (PyStr.drop 4 ("not " ++ String " " (PyStr.strip (String c x'))))
        with (String " " (PyStr.strip (String c x'))).
      apply select_blank.
Qed.

(** ** The empty line after a last line feed *)

Section LastLine.
Context {engine : RegexEngine}.

Lemma split_from_snoc (a : ascii) (s : string) :
  forall cur,
    PyStr.split_from (String a "") 0 cur (s ++ String a "")
    = (PyStr.split_from (String a "") 0 cur s ++ [""])%list.
Proof.
  induction s as [|c s IH]; intros cur.
  - cbn [append PyStr.split_from String.prefix].
    destruct (ascii_dec a a); [reflexivity | congruence].
  - cbn [append PyStr.split_from String.prefix].
    destruct (ascii_dec a c).
    + assert (P0 : forall x, String.prefix "" x = true) by (now intros [|? ?]).
      rewrite !P0. cbn [String.length Nat.sub app]. f_equal. apply IH.
    + apply IH.
Qed.

(** A text that ends in a line feed has an empty last line. *)
Lemma split_snoc (text : string) :
  PyStr.split (text ++ NL) NL = (PyStr.split text NL ++ [""])%list.
Proof. apply split_from_snoc. Qed.

Lemma check_lines_last (chains : list string) (lines : list string) (line : string) :
  never_raises chains lines -> satisfies chains line ->
  Regex.check_lines chains (lines ++ [line]) = inr true.
Proof.
  intros Hn Hs. induction lines as [|l rest IH]; cbn [app Regex.check_lines].
  - apply line_holds_true in Hs. now rewrite Hs.
  - destruct (line_holds_returns chains l) as [b Hb].
    { intros chain Hc. apply (Hn l chain); [now left | exact Hc]. }
    rewrite Hb. cbn. destruct b; [reflexivity|].
    apply IH. intros x chain Hx Hc. apply Hn; [now right | exact Hc].
Qed.

(** X14.  The empty line after the last line feed of a text is a line
    like any other: when no chain raises on the lines of the text and
    every chain holds on the empty line, a text that ends in a line feed
    matches.  A negated chain [!r:p] holds on the empty line unless [p]
    is found in the empty text, so a pattern made of such a chain
    matches every text that ends in a line feed, whatever its lines
    are. *)
Theorem empty_last_line_is_a_line :
  forall (rx : Regex.t) (text : string),
    never_raises (Regex.chains rx) (PyStr.split text NL) ->
    satisfies (Regex.chains rx) "" ->
    Regex.check rx (text ++ NL) = inr true
    /\ (forall p line,
           Regex.chain_holds ("!r:" ++ p) line
           = (ms <-? re_findall p line ;;
              inr (match ms with [] => true | _ => false end)))
    /\ (forall p, re_findall p "" = inr [] ->
                  Regex.chains rx = ["!r:" ++ p] ->
                  (forall line, exists ms, re_findall p line = inr ms) ->
                  forall other, Regex.check rx (other ++ NL) = inr true).
Proof.
  intros rx text Hn Hs.
  assert (A : forall t, never_raises (Regex.chains rx) (PyStr.split t NL) ->
                        Regex.check rx (t ++ NL) = inr true).
  { intros t Ht. unfold Regex.check. rewrite split_snoc.
    now apply check_lines_last. }
  assert (B : forall p line,
             Regex.chain_holds ("!r:" ++ p) line
             = (ms <-? re_findall p line ;;
                inr (match ms with [] => true | _ => false end))).
  { intros p line. unfold Regex.chain_holds.
    change (PyStr.startswith ("!r:" ++ p) "r:") with false.
    unfold PyStr.startswith. rewrite prefix_app. reflexivity. }
  split; [now apply A|]. split; [exact B|].
  intros p Hp Hc Hall other. unfold Regex.check. rewrite split_snoc.
  apply check_lines_last.
  - intros line chain _ Hin. rewrite Hc in Hin. destruct Hin as [<-|[]].
    rewrite B. destruct (Hall line) as [ms ->]. cbn. eexists. reflexivity.
  - rewrite Hc. constructor; [|constructor]. rewrite B, Hp. reflexivity.
Qed.

End LastLine.

(** ** The entries of a directory *)

Section DirEntries.
Context {Host : Type} {probes : HostProbes Host} {engine : RegexEngine}.

(** X15.  [check_dir_contains] looks at the entries of the directory in
    the order of the listing and at the regular files only: it returns
    True exactly when some entry is a regular file whose name the
    pattern matches and every entry before it was passed over, being no
    regular file or having a name that the pattern rejects without an
    error; an entry that is no regular file -- a directory, say -- never
    counts and its name is not even matched, so a listing without
    regular files gives False. *)
Theorem dir_contains_looks_at_regular_files :
  forall (path : string) (file_pattern : Regex.t) (names : list string) (h : Host),
    (Rule.dir_contains_loop path file_pattern names h = inr true <->
     exists before file_name after,
       names = (before ++ file_name :: after)%list
       /\ path_is_file h (path_join path file_name) = true
       /\ Regex.check file_pattern file_name = inr true
       /\ Forall (passed_over h path file_pattern) before)
    /\ (Forall (fun file_name => path_is_file h (path_join path file_name) = false)
          names ->
        Rule.dir_contains_loop path file_pattern names h = inr false)
    /\ (path_exists h path = true -> path_is_dir h path = true ->
        listdir h path = inr names ->
        Rule.dir_contains path file_pattern h
        = Rule.dir_contains_loop path file_pattern names h).
Proof.
  intros path fp names h. split; [|split].
  - induction names as [|n rest IH]; cbn [Rule.dir_contains_loop].
    + split; [discriminate|]. intros (b & f & a & E & _). destruct b; discriminate.
    + destruct (path_is_file h (path_join path n)) eqn:Ef.
      * destruct (Regex.check fp n) as [e|[|]] eqn:Ec; cbn [bind_raises].
        -- split; [discriminate|]. intros (b & f & a & E & Hf & Hc & Hb).
           destruct b as [|x b]; inversion E; subst; [congruence|].
           inversion Hb as [|? ? Hx _]; subst.
           destruct Hx as [Hx|Hx]; congruence.
        -- split; [|reflexivity]. intros _. exists [], n, rest.
           repeat split; try assumption. constructor.
        -- rewrite IH. split.
           ++ intros (b & f & a & E & Hf & Hc & Hb). exists (n :: b), f, a.
              subst. repeat split; try assumption.
              constructor; [now right | exact Hb].
           ++ intros (b & f & a & E & Hf & Hc & Hb).
              destruct b as [|x b]; inversion E; subst; [congruence|].
              inversion Hb; subst. now exists b, f, a.
      * rewrite IH. split.
        -- intros (b & f & a & E & Hf & Hc & Hb). exists (n :: b), f, a.
           subst. repeat split; try assumption.
           constructor; [now left | exact Hb].
        -- intros (b & f & a & E & Hf & Hc & Hb).
           destruct b as [|x b]; inversion E; subst; [congruence|].
           inversion Hb; subst. now exists b, f, a.
  - induction 1 as [|n rest Hn Hrest IH]; cbn [Rule.dir_contains_loop];
      [reflexivity|]. now rewrite Hn.
  - intros He Hd Hl. unfold Rule.dir_contains. rewrite He, Hd, Hl. reflexivity.
Qed.

End DirEntries.

(** ** The reports of rules that do not parse *)

Lemma init_loop_out (check_id : Z) (rules : list string) :
  forall ex non out,
    snd (Rules.init_loop check_id rules ex non out)
    = (out ++ flat_map (fun rule => snd (Rule.init check_id rule)) rules)%list.
Proof.
  induction rules as [|rule rest IH]; intros ex non out; cbn [Rules.init_loop flat_map].
  - now rewrite app_nil_r.
  - destruct (Rule.init check_id rule) as [parsed_rule warn] eqn:E. cbn [snd].
    destruct (Rules.is_existence parsed_rule); rewrite IH; now rewrite <- app_assoc.
Qed.

(** X16.  Building the rule list of a check reports each rule string
    that does not parse once, as a ValueError, in the order of the
    policy -- not in the order of evaluation, which puts the existence
    rules first -- and reports nothing else; no other error comes out of
    the parser. *)
Theorem unparsed_rules_are_reported_in_policy_order :
  forall (check_id : Z) (condition : string) (rules : list string),
    snd (Rules.init check_id condition rules)
    = map (fun rule => RuleParseError check_id rule ValueError)
        (filter unparsed rules)
    /\ List.length (Rules.parsed (fst (Rules.init check_id condition rules)))
       = List.length rules.
Proof.
  intros check_id condition rules. split.
  - unfold Rules.init.
    pose proof (init_loop_out check_id rules [] [] []) as H.
    destruct (Rules.init_loop check_id rules [] [] []) as [[ex non] out].
    cbn [snd app] in *. rewrite H. clear.
    induction rules as [|rule rest IH]; [reflexivity|].
    cbn [flat_map filter]. rewrite IH. unfold unparsed, Rule.init.
    destruct (Rule.parse rule) as [e|p] eqn:E; [|reflexivity].
    apply parse_error_is_ValueError in E. now subst.
  - rewrite init_parsed, length_app.
    rewrite <- (length_map (fun r => fst (Rule.init check_id r)) rules).
    generalize (map (fun r => fst (Rule.init check_id r)) rules). intros l.
    induction l as [|x l IH]; [reflexivity|]. cbn [filter].
    destruct (Rules.is_existence x); cbn [negb List.length]; lia.
Qed.

(** ** The content of the files of a directory *)

Section DirContent.
Context {Host : Type} {probes : HostProbes Host} {engine : RegexEngine}.

(** X17.  [check_regex_against_dir] looks at the regular files of the
    listing whose name the file pattern matches, in order, and reads no
    other: it returns True exactly when the content of one of them
    matches and every entry before it was passed over without an error
    -- no regular file, a name that is rejected, or a content that is
    rejected.  When it returns True, [check_dir_contains] with the same
    file pattern returns True on the same listing. *)
Theorem regex_against_dir_reads_matching_files :
  forall (path : string) (file_pattern regex : Regex.t) (names : list string)
    (h : Host),
    (Rule.regex_against_dir_loop path file_pattern regex names h = inr true <->
     exists before file_name after text,
       names = (before ++ file_name :: after)%list
       /\ path_is_file h (path_join path file_name) = true
       /\ Regex.check file_pattern file_name = inr true
       /\ read_text h (path_join path file_name) = inr text
       /\ Regex.check regex text = inr true
       /\ Forall (read_over h path file_pattern regex) before)
    /\ (Rule.regex_against_dir_loop path file_pattern regex names h = inr true ->
        Rule.dir_contains_loop path file_pattern names h = inr true)
    /\ (Forall (passed_over h path file_pattern) names ->
        Rule.regex_against_dir_loop path file_pattern regex names h = inr false).
Proof.
  intros path fp rx names h. split; [|split].
  - induction names as [|n rest IH]; cbn [Rule.regex_against_dir_loop].
    + split; [discriminate|]. intros (b & f & a & t & E & _).
      destruct b; discriminate.
    + assert (Later : (exists before file_name after text,
                          rest = (before ++ file_name :: after)%list
                          /\ path_is_file h (path_join path file_name) = true
                          /\ Regex.check fp file_name = inr true
                          /\ read_text h (path_join path file_name) = inr text
                          /\ Regex.check rx text = inr true
                          /\ Forall (read_over h path fp rx) before) ->
                       read_over h path fp rx n ->
                       exists before file_name after text,
                         (n :: rest) = (before ++ file_name :: after)%list
                         /\ path_is_file h (path_join path file_name) = true
                         /\ Regex.check fp file_name = inr true
                         /\ read_text h (path_join path file_name) = inr text
                         /\ Regex.check rx text = inr true
                         /\ Forall (read_over h path fp rx) before).
      { intros (b & f & a & t & E & Hf & Hc & Hr & Hx & Hb) Hn.
        exists (n :: b), f, a, t. subst. repeat split; try assumption.
        now constructor. }
      assert (Skip : forall P : Prop,
                 (forall text, path_is_file h (path_join path n) = true ->
                               Regex.check fp n = inr true ->
                               read_text h (path_join path n) = inr text ->
                               Regex.check rx text = inr true -> P) ->
                 (read_over h path fp rx n ->
                  (exists before file_name after text,
                      rest = (before ++ file_name :: after)%list
                      /\ path_is_file h (path_join path file_name) = true
                      /\ Regex.check fp file_name = inr true
                      /\ read_text h (path_join path file_name) = inr text
                      /\ Regex.check rx text = inr true
                      /\ Forall (read_over h path fp rx) before) -> P) ->
                 (exists before file_name after text,
                     (n :: rest) = (before ++ file_name :: after)%list
                     /\ path_is_file h (path_join path file_name) = true
                     /\ Regex.check fp file_name = inr true
                     /\ read_text h (path_join path file_name) = inr text
                     /\ Regex.check rx text = inr true
                     /\ Forall (read_over h path fp rx) before) -> P).
      { intros P Here There (b & f & a & t & E & Hf & Hc & Hr & Hx & Hb).
        destruct b as [|x b]; inversion E; subst.
        - now apply (Here t).
        - inversion Hb; subst. apply There; [assumption|]. now exists b, f, a, t. }
      destruct (path_is_file h (path_join path n)) eqn:Ef.
      * destruct (Regex.check fp n) as [e|[|]] eqn:Ec; cbn [bind_raises].
        -- split; [discriminate|]. apply Skip.
           ++ intros; congruence.
           ++ intros [[Hx|Hx] | (_ & Hx & _)] _; congruence.
        -- destruct (read_text h (path_join path n)) as [e|text] eqn:Er;
             cbn [bind_raises].
           ++ split; [discriminate|]. apply Skip.
              ** intros; congruence.
              ** intros [[Hx|Hx] | (_ & _ & t & Hx & _)] _; congruence.
           ++ destruct (Regex.check rx text) as [e|[|]] eqn:Ex; cbn [bind_raises].
              ** split; [discriminate|]. apply Skip.
                 --- intros t _ _ Ht Hx. congruence.
                 --- intros [[Hx|Hx] | (_ & _ & t & Ht & Hx)] _; congruence.
              ** split; [|reflexivity]. intros _. exists [], n, rest, text.
                 repeat split; try assumption. constructor.
              ** rewrite IH. split.
                 --- intros H. apply Later; [exact H|]. right.
                     repeat split; try assumption. now exists text.
                 --- apply Skip; [intros; congruence | intros _ H; exact H].
        -- rewrite IH. split.
           ++ intros H. apply Later; [exact H|]. left. now right.
           ++ apply Skip; [intros; congruence | intros _ H; exact H].
      * rewrite IH. split.
        -- intros H. apply Later; [exact H|]. left. now left.
        -- apply Skip; [intros; congruence | intros _ H; exact H].
  - induction names as [|n rest IH];
      cbn [Rule.regex_against_dir_loop Rule.dir_contains_loop]; [discriminate|].
    destruct (path_is_file h (path_join path n)); [|exact IH].
    destruct (Regex.check fp n) as [e|[|]]; cbn [bind_raises];
      [discriminate | reflexivity | exact IH].
  - induction 1 as [|n rest Hn Hrest IH]; cbn [Rule.regex_against_dir_loop];
      [reflexivity|].
    destruct Hn as [-> | ->]; [exact IH|].
    destruct (path_is_file h (path_join path n)); exact IH.
Qed.

End DirContent.

(** ** A condition that is not known *)

Section UnknownCondition.
Context {Host : Type} {probes : HostProbes Host} {engine : RegexEngine}.

Lemma unknown_check (c : Check.t Host) (st : Check.state Host) :
  known_condition (Rules.condition (Check.rules c)) = false ->
  Check.check c st = (inl (Exception ValueError), st, []).
Proof.
  unfold known_condition. intros H.
  apply orb_false_iff in H. destruct H as [H Hnone].
  apply orb_false_iff in H. destruct H as [Hall Hany].
  unfold Check.check, bind, Check.on_host, Rules.check, Rules.check_with.
  rewrite Hall, Hany, Hnone. now destruct st.
Qed.

Lemma unknown_check_each (c : Check.t Host) (checks : list (Check.t Host)) :
  known_condition (Rules.condition (Check.rules c)) = false ->
  In c checks ->
  forall st, fst (fst (Check.check_each checks st)) <> inr tt.
Proof.
  intros Hc. induction checks as [|x rest IH]; intros Hin st; [destruct Hin|].
  cbn [Check.check_each]. unfold bind.
  destruct Hin as [->|Hin].
  - now rewrite unknown_check.
  - destruct (Check.check x st) as [[[e|res] s1] o1]; [discriminate|].
    specialize (IH Hin s1).
    destruct (Check.check_each rest s1) as [[r s2] o2]. exact IH.
Qed.

(** X18.  A condition other than all, any and none is found out only when
    the check is evaluated, and then it ends the run: the evaluation
    raises ValueError before a rule is looked at and without listing the
    check, the first pass stops at this check with the checks after it
    not evaluated, and [check_all] prints no report and applies no
    solution; it returns only if the user declined to start. *)
Theorem unknown_condition_ends_the_run :
  forall (c : Check.t Host),
    known_condition (Rules.condition (Check.rules c)) = false ->
    (forall st, Check.check c st = (inl (Exception ValueError), st, []))
    /\ (forall before after st st1 out1,
           Check.check_each before st = (inr tt, st1, out1) ->
           Check.check_each (before ++ c :: after) st
           = (inl (Exception ValueError), st1, out1))
    /\ (forall object checks st r st' out,
           In c checks ->
           Loader.check_all object checks st = (r, st', out) ->
           ~ In CheckReport out
           /\ (forall title, ~ In (Ev (Prompt (Some title) "Apply?")) out)
           /\ (r = inr tt -> In (Ev Declined) out)).
Proof.
  intros c Hc. split; [intros st; now apply unknown_check|]. split.
  - induction before as [|x before IH]; intros after st st1 out1 E.
    + cbn in E. inversion E; subst. cbn [app Check.check_each]. unfold bind.
      now rewrite unknown_check.
    + cbn [app Check.check_each] in *. apply bind_inv in E.
      destruct E as [(e & _ & E) | (res & s1 & o1 & o2 & E1 & E2 & ->)];
        [discriminate|].
      unfold bind. rewrite E1. now rewrite (IH after _ _ _ E2).
  - intros object checks st r st' out Hin E.
    unfold Loader.check_all, bindR, lift, retR, say in E.
    destruct (Check.on_host (confirm (Some "Checking") "Start Checks?") st)
      as [[r1 s1] o1] eqn:E1.
    apply confirm_prints in E1.
    assert (N1 : ~ In CheckReport (map Ev o1)
                 /\ forall title, ~ In (Ev (Prompt (Some title) "Apply?")) (map Ev o1)).
    { split; [|intros title]; intros K;
        destruct E1 as [(_ & ->) | [(_ & ->) | (_ & ->)]]; cbn in K;
        repeat (destruct K as [K|K]; [discriminate K|]); exact K. }
    destruct N1 as [N1 N1'].
    destruct r1 as [e|[|]]; cbn [negb] in E.
    + inversion E; subst. split; [exact N1|]. split; [exact N1'|]. discriminate.
    + pose proof (unknown_check_each c checks Hc Hin s1) as Hr.
      pose proof (emits_check_each checks s1) as Q.
      destruct (Check.check_each checks s1) as [[r2 s2] o2]. cbn [fst snd] in *.
      destruct r2 as [e|[]]; [|congruence].
      inversion E; subst. rewrite Forall_forall in Q.
      split; [|split; [|discriminate]].
      * intros K. apply in_app_or in K. destruct K as [K|K]; [tauto|].
        apply in_map_iff in K. destruct K as [x [Hx _]]. discriminate.
      * intros title K. apply in_app_or in K. destruct K as [K|K];
          [exact (N1' title K)|].
        apply In_map_Ev in K. exact (Q _ K).
    + cbn in E. rewrite app_nil_r in E. inversion E; subst.
      split; [exact N1|]. split; [exact N1'|]. intros _. apply in_map.
      destruct E1 as [(Hx & _) | [(_ & ->) | (Hx & _)]];
        [discriminate | right; now left | discriminate].
Qed.

End UnknownCondition.

(** * Closed examples *)

#[local] Existing Instance Lab.probes.
#[local] Existing Instance PyRe.engine.

(** ** Scenarios on the small machine *)

(** The tree runs its top act, the branch for "yes" and, below it, the
    branches whose value is equal to 1 -- [True] among them, as Python
    compares -- and nothing else. *)
Example nested_tree_run :
  snd (Solution.apply_act Scenario.tree (Scenario.bare []))
  = map ActOutput ["top"; "middle"; "one"; "true"].
Proof. reflexivity. Qed.



(** C3, refuted as stated: the check fails, the remedy creates the file,
    the recheck passes -- and the check is listed both as failed and as
    passed; with a remedy that does nothing it is listed as failed once
    for every evaluation. *)
Lemma recheck_leaves_stale_membership :
  (let '(_, st, _) := Scenario.evaluate_then_remedy Scenario.fixing [Typed ""] in
   Check.status st 0 = Some PASSED
   /\ Check.passed st = [0] /\ Check.failed st = [0]
   /\ memberships st 0 = 2)
  /\ (let '(_, st, _) :=
        Scenario.evaluate_then_remedy Scenario.useless
          [Typed ""; Typed "y"; Typed "y"; Typed "y"] in
      Check.status st 0 = Some FAILED
      /\ Check.failed st = [0; 0; 0; 0]
      /\ memberships st 0 = 4).
Proof. vm_compute. repeat split. Qed.

(** The first evaluation of the check on a machine without the file: it
    fails and is listed as failed. *)
Lemma evaluation_witness :
  let st := Lab.start (Scenario.bare []) in
  let t := Check.check (engine := PyRe.engine) Scenario.fixing st in
  t = (inr (Some false), snd (fst t), snd t)
  /\ Check.status (snd (fst t)) 0 = Some FAILED
  /\ Check.failed (snd (fst t)) = [0].
Proof.
  intros st t.
  assert (E : t = (inr (Some false), snd (fst t), snd t)) by reflexivity.
  split; [exact E|].
  destruct (evaluation_appends_to_partition Lab.machine Lab.probes PyRe.engine
              Scenario.fixing st (snd (fst t)) (Some false) (snd t) E)
    as (Hs & Hp & _).
  split; [exact Hs | exact Hp].
Defined.



(** The fourth run of the action tree is not followed by an evaluation:
    here it creates the file, "max attempts" is reported all the same and
    the status stays FAILED, though an evaluation would now pass. *)
Example fourth_run_is_not_re_evaluated :
  let '(r, st, out) :=
    Scenario.evaluate_then_remedy Scenario.slow
      [Typed ""; Typed "y"; Typed "y"; Typed "y"] in
  r = inr tt
  /\ attempts out = 4 /\ evaluations out = 3
  /\ existsb Scenario.is_max_tries out = true
  /\ Check.status st 0 = Some FAILED
  /\ fst (fst (Check.check (engine := PyRe.engine) Scenario.slow st))
     = inr (Some true).
Proof. vm_compute. repeat split. Qed.

(** C5, refuted as stated: the line "7" satisfies the one chain of the
    pattern, yet [check] does not return True on the text: the chain
    raises [ValueError] on the line "a" before it. *)
Lemma earlier_line_raises :
  let rx := Regex.init "n:\. compare > 5" in
  let text := "a" ++ NL ++ "7" in
  Regex.chains rx = ["n:. compare > 5"]
  /\ PyStr.split text NL = ["a"; "7"]
  /\ Regex.chain_holds (engine := PyRe.engine) "n:. compare > 5" "7" = inr true
  /\ Regex.chain_holds (engine := PyRe.engine) "n:. compare > 5" "a" = inl ValueError
  /\ Regex.check (engine := PyRe.engine) rx text = inl ValueError
  /\ Regex.check (engine := PyRe.engine) rx "7" = inr true.
Proof. vm_compute. repeat split. Qed.

(** A negated [r:] rule does not parse and evaluates to True. *)
Lemma unparsed_witness :
  Rule.parse "not r:^root" = inl ValueError
  /\ Rule.check (probes := Lab.probes) (engine := PyRe.engine)
       (fst (Rule.init 7 "not r:^root")) Scenario.with_etc
     = (Some true, Scenario.with_etc, []).
Proof.
  split; [reflexivity|].
  exact (proj1 (proj2 (proj2 (unparsed_rule_passes 7 "not r:^root" ValueError eq_refl))
                  Lab.machine Lab.probes PyRe.engine Scenario.with_etc)).
Defined.

(** A negated file rule on a directory: the predicate raises and the
    rule is not applicable. *)
Lemma raised_error_witness :
  let r := fst (Rule.init 7 "not f:/etc") in
  let p := ParsedRule.mk "FileExistence" (ParsedRule.check_file_exists "/etc") true in
  Rule.parsed r = Some p
  /\ Rule.check (probes := Lab.probes) (engine := PyRe.engine) r Scenario.with_etc
     = (None, Scenario.with_etc,
        [RuleCheckError 7 "FileExistence" "not f:/etc" IsADirectoryError]).
Proof.
  intros r p. split; [reflexivity|].
  exact (proj1 (raised_error_is_not_applicable Lab.machine Lab.probes PyRe.engine
                  r p Scenario.with_etc eq_refl)
           IsADirectoryError Scenario.with_etc eq_refl).
Defined.

(** The rules of the specification's example: absent, the negated file
    rule is True; present, it is False; a content rule on a missing file
    is not applicable, negated or not. *)
Example negation_examples :
  let absent := Scenario.bare [] in
  let present := Lab.mkMachine [("/etc/shadow", Lab.File "x")] [] [] in
  let run rule h :=
    fst (fst (Rule.check (probes := Lab.probes) (engine := PyRe.engine)
                (fst (Rule.init 1 rule)) h)) in
  run "not f:/etc/shadow" present = Some false
  /\ run "not f:/etc/shadow" absent = Some true
  /\ run "f:/etc/shadow -> r:root" absent = None
  /\ run "not f:/etc/shadow -> r:root" absent = None
  /\ run "f:/etc/shadow -> r:X" present = Some true
  /\ run "not f:/etc/shadow -> r:X" present = Some false.
Proof. vm_compute. repeat split. Qed.

(** Substring search, letters in either case, and its negation. *)
Example substring_examples :
  let run := fun pattern text => Regex.check (Regex.init pattern) text in
  run "r:foo" "a FOObar" = inr true
  /\ run "r:foo" "a fo obar" = inr false
  /\ run "!r:foo" "a FOObar" = inr false
  /\ run "!r:foo" "bar" = inr true
  /\ run "r:foo && !r:bar" ("foobar" ++ NL ++ "food") = inr true.
Proof. vm_compute. repeat split. Qed.

(** Existence first: the content rule is listed first in the policy; the
    existence rule is evaluated first all the same, it fails, and the
    content rule -- which would report an error on the missing file -- is
    not evaluated. *)
Example existence_rule_cuts_short :
  let rules := fst (Rules.init 3 "all" ["f:/etc/motd -> r:welcome"; "f:/etc/issue"]) in
  map Rule.rule (Rules.parsed rules) = ["f:/etc/issue"; "f:/etc/motd -> r:welcome"]
  /\ Rules.check rules (Scenario.bare []) = (inr (Some false), Scenario.bare [], [])
  /\ snd (visit Rule.check (Rules.parsed rules) (Scenario.bare []))
     = [RuleCheckError 3 "RegexAgainstFile" "f:/etc/motd -> r:welcome"
          FileNotFoundError].
Proof. vm_compute. repeat split. Qed.

(** ** The text utilities, the registry and the run of the checks *)

#[local] Existing Instance LabPath.pathlib.

(** A tab and four spaces are one level each; two levels more and two
    less give the text back, its indentation written in tabs. *)
Lemma indent_witness :
  let text := PyText.TAB ++ "if x:" ++ NL ++ "    " ++ PyText.TAB ++ "y" in
  (0 <= 2)%Z
  /\ Text.indent (Text.indent text 2 true) (-2) false
     = Text.indent text (2 + -2) false.
Proof.
  intros text. split; [lia|]. apply indent_twice. lia.
Defined.

Example indent_examples :
  Text.indent ("hello" ++ NL ++ "hi") 1 false
  = PyText.TAB ++ "hello" ++ NL ++ PyText.TAB ++ "hi"
  /\ Text.indent (PyText.TAB ++ "hello" ++ NL ++ PyText.TAB ++ "hi") (-2) false
     = "hello" ++ NL ++ "hi"
  /\ Text.wrap_text "  one two three" 6
     = "  one two" ++ NL ++ "  three".
Proof. vm_compute. repeat split. Qed.

(** The example of the docstring of [wrap_text]: the third line has 26
    characters, for a limit of 20. *)
Example wrap_text_example :
  Text.wrap_text
    "This is a very long line that needs to be wrapped because it exceeds the maximum allowed characters per line."
    20
  = "This is a very long" ++ NL ++ "line that needs to be" ++ NL
    ++ "wrapped because it exceeds" ++ NL ++ "the maximum allowed" ++ NL
    ++ "characters per line.".
Proof. vm_compute. reflexivity. Qed.

(** Two blanks at the limit: the line before the break ends in a blank,
    and wrapping the result once more removes it. *)
Example wrap_text_twice :
  Text.wrap_text "ab  cd" 4 = "ab " ++ NL ++ "cd"
  /\ Text.wrap_text ("ab " ++ NL ++ "cd") 4 = "ab" ++ NL ++ "cd".
Proof. vm_compute. split; reflexivity. Qed.

(** The main backup exists: the copy goes to the first numbered name,
    after one warning and a yes. *)
Example backup_takes_the_first_free_name :
  snd (Registry.backup "/etc/issue" (Cases.host [Typed "y"]))
  = [ActOutput "Backing up /etc/issue";
     ActOutput "Backup /etc/issue already exists";
     Prompt None ("cp -r /etc/issue /etc/issue.backup.0" ++ NL ++ "Execute?");
     Accepted; ActOutput ""]
  /\ Registry.backup "/etc/motd" (Cases.host [Typed "y"])
     = (inr tt, Cases.host [Typed "y"], []).
Proof. vm_compute. repeat split. Qed.

(** There are two choices, the user types 7: 7 is returned. *)
Example choose_out_of_range :
  let '(r, _, out) :=
    Registry.choose None "Which one?" ["first"; "second"] (Cases.host [Typed "7"]) in
  r = inr (VInt 7) /\ last out Blank = ActOutput "Selected: None".
Proof. vm_compute. repeat split. Qed.

(** The user types the number in front of the second choice. *)
Lemma choose_witness :
  nth_error ["first"; "second"] 1 = Some "second"
  /\ let '(r, _, out) :=
       Registry.choose None "Which one?" ["first"; "second"]
         (Cases.host [Typed "1"]) in
     nth_error (Registry.enumerate 0 ["first"; "second"]) 1 = Some "1) second"
     /\ (fst (input (Cases.host [Typed "1"])) = Typed "1" ->
         r = inr (VInt 1)
         /\ ends_with (ActOutput "Selected: second") out)
     /\ (fst (input (Cases.host [Typed "1"])) = Typed "-1" ->
         r = inr (VInt (-1))
         /\ ends_with (ActOutput "Selected: second") out).
Proof.
  split; [reflexivity|].
  exact (choose_selects_the_numbered_choice None "Which one?" ["first"; "second"]
           (Cases.host [Typed "1"]) 1 "second" eq_refl).
Defined.

(** One name that is no callable, two levels down, and the solution is
    not available. *)
Example deep_flaw_disables_the_solution :
  Solution.available (fst (Build.Solution_init Cases.globals 5
                             (Some (Cases.deep "note")))) = true
  /\ Build.Solution_init Cases.globals 5 (Some (Cases.deep "nano"))
     = (Solution.mk (VBool true) None, [SolutionParseError 5 KeyError])
  /\ Build.Solution_init Cases.globals 5 (Some (Cases.deep "reboot_required"))
     = (Solution.mk (VBool true) None, [SolutionParseError 5 ValueError]).
Proof. vm_compute. repeat split. Qed.

(** A comma at the end, and every check is loaded. *)
Example white_list_examples :
  Loader.whitelisted_checks ["sca_check.py"; "cis.yml"; "sol.yml"; "1,2"]
  = Some [1; 2]%Z
  /\ Loader.whitelisted_checks ["sca_check.py"; "cis.yml"; "sol.yml"; "1,2,"] = None
  /\ Loader.whitelisted_checks ["sca_check.py"; "cis.yml"] = None.
Proof. vm_compute. repeat split. Qed.


(** The first pass over the two checks: one fails, one passes. *)
Lemma first_pass_witness :
  let t := Check.check_each Cases.checks (fresh (Cases.host [])) in
  NoDup (map Check.addr Cases.checks)
  /\ t = (inr tt, snd (fst t), snd t)
  /\ listed (snd (fst t)) = 2
  /\ forall c, In c Cases.checks ->
       memberships (snd (fst t)) (Check.addr c) = 1
       /\ (forall v, In (Check.addr c) (partition v (snd (fst t)))
                     <-> Check.status (snd (fst t)) (Check.addr c) = Some v)
       /\ (forall v, Check.status (snd (fst t)) (Check.addr c) = Some v ->
                     In (Verdict v (Check.id c) (Check.title c)) (snd t)).
Proof.
  intros t.
  assert (Hnd : NoDup (map Check.addr Cases.checks)).
  { repeat constructor; cbn; intuition discriminate. }
  assert (E : t = (inr tt, snd (fst t), snd t)) by reflexivity.
  split; [exact Hnd|]. split; [exact E|].
  exact (first_pass_partitions_the_checks Cases.checks (Cases.host [])
           (snd (fst t)) (snd t) Hnd E).
Defined.



Example remedied_and_still_failed :
  let st :=
    snd (fst (Check.check_each [Cases.motd_once] (fresh (Cases.host [Typed ""])))) in
  let '(r, st', out) := Check.apply_solution Cases.motd_once st in
  r = inr tt /\ attempts out = 1
  /\ Check.status st' 0 = Some FAILED /\ Check.failed st' = [0]
  /\ fst (fst (Check.check Cases.motd_once st')) = inr (Some true).
Proof. vm_compute. repeat split. Qed.

(** Rules on a file and on a directory. *)
Lemma file_rules_witness :
  let rules := ["f:/etc/issue -> r:debian"; "not d:/etc/ssh"] in
  let built := fst (Rules.init 4 "any" rules) in
  (forall rule, In rule rules ->
     PyStr.startswith (selected rule) "c:" = false
     /\ PyStr.startswith (selected rule) "p:" = false)
  /\ Forall shell_free (Rules.parsed built)
  /\ snd (fst (Rules.check built (Cases.host []))) = Cases.host []
  /\ (forall (c : Check.t Lab.machine) (st : Check.state Lab.machine),
         Check.rules c = built ->
         Check.host (snd (fst (Check.check c st))) = Check.host st).
Proof.
  intros rules built.
  assert (H : forall rule, In rule rules ->
                PyStr.startswith (selected rule) "c:" = false
                /\ PyStr.startswith (selected rule) "p:" = false).
  { intros rule [<-|[<-|[]]]; split; reflexivity. }
  split; [exact H|].
  exact (file_rules_leave_the_host 4 "any" rules (Cases.host []) H).
Defined.

(** A rule on the content of a file, and its negation. *)
Lemma not_prefix_witness :
  let rule := "f:/etc/issue -> r:debian" in
  negated rule = false /\ starts_solid rule
  /\ Rule.parse ("not " ++ rule) = reverted (Rule.parse rule)
  /\ Rule.parse ("not not " ++ rule) = inl ValueError
  /\ Rule.parse ("not  " ++ rule) = inl ValueError.
Proof.
  intros rule.
  assert (Hn : negated rule = false) by reflexivity.
  assert (Hs : starts_solid rule) by reflexivity.
  split; [exact Hn|]. split; [exact Hs|].
  pose proof (not_prefix_negates rule Hn Hs) as (P & _ & _ & Q & R).
  split; [exact P|]. split; [exact Q | exact R].
Defined.

(** No line of the text is without "foo", but the text ends in a line
    feed. *)
Lemma empty_last_line_witness :
  let rx := Regex.init "!r:foo" in
  let text := "foo" ++ NL ++ "a foo" in
  never_raises (Regex.chains rx) (PyStr.split text NL)
  /\ satisfies (Regex.chains rx) ""
  /\ Regex.check rx (text ++ NL) = inr true
  /\ Regex.check rx text = inr false.
Proof.
  intros rx text.
  assert (Hn : never_raises (Regex.chains rx) (PyStr.split text NL)).
  { intros line chain [<-|[<-|[]]] [<-|[]]; eexists; reflexivity. }
  assert (Hs : satisfies (Regex.chains rx) "").
  { repeat constructor. }
  split; [exact Hn|]. split; [exact Hs|].
  split; [|reflexivity].
  exact (proj1 (empty_last_line_is_a_line rx text Hn Hs)).
Defined.

(** A directory whose name matches is no file of the directory. *)
Example directories_do_not_count :
  Rule.dir_contains "/etc" (Regex.init "r:ssh") (Cases.host []) = inr false
  /\ Rule.dir_contains "/etc" (Regex.init "r:issue") (Cases.host []) = inr true.
Proof. vm_compute. repeat split. Qed.

(** The condition "al" for "all": the first pass stops there. *)
Lemma unknown_condition_witness :
  known_condition (Rules.condition (Check.rules Cases.misspelt)) = false
  /\ Check.check Cases.misspelt (fresh (Cases.host []))
     = (inl (Exception ValueError), fresh (Cases.host []), [])
  /\ fst (fst (Check.check_each [Cases.issue; Cases.misspelt; Scenario.fixing]
                 (fresh (Cases.host []))))
     = inl (Exception ValueError).
Proof.
  split; [reflexivity|].
  split; [|reflexivity].
  exact (proj1 (unknown_condition_ends_the_run Cases.misspelt eq_refl)
           (fresh (Cases.host []))).
Defined.
